(** * PandishuWeb cloud functions: a shallow embedding of [functions/index.js]

    The file models the five HTTPS functions of the storefront backend
    ([searchProducts], [getPriceAndAvailability], [ingramWebhook],
    [createCheckoutSession], [stripeWebhook]) together with the process-wide
    token cache ([getAccessToken]), and proves properties of them.

    Layout: Part I holds the definitions (ECMAScript numbers and strings,
    JSON text, the HTTP boundary, the handlers, the task scheduler); Part II
    holds the lemmas and theorems. *)

From Stdlib Require Import ZArith QArith List String Ascii Bool Lia.
From Stdlib Require Import DecimalString DecimalFacts DecimalPos DecimalN.
From Stdlib Require Import Floats.SpecFloat.
From stdpp Require Import gmap strings list pretty.

Set Warnings "-register-all".
Local Open Scope Z_scope.

(* ===================================================================== *)
(** * Part I. Definitions                                                 *)
(* ===================================================================== *)

(** ** ECMAScript Number values

    A JavaScript Number is an IEEE 754 binary64 value.  [spec_float] with
    [prec = 53] and [emax = 1024] is that format: [S754_finite s m e]
    denotes [(-1)^s * m * 2^e]. *)

Module Num.

Definition prec : Z := 53.
Definition emax : Z := 1024.

Definition number := spec_float.

(** A well-formed binary64 value: the mantissa is canonical for its exponent. *)
Definition is_double (x : number) : bool := valid_binary prec emax x.

Definition is_finite (x : number) : bool :=
  match x with
  | S754_zero _ | S754_finite _ _ _ => true
  | _ => false
  end.

(** [x * y] and [x / y] on Numbers. *)
Definition mul (x y : number) : number := SFmul prec emax x y.
Definition div (x y : number) : number := SFdiv prec emax x y.

(** The Number nearest to an integer (round to nearest, ties to even). *)
Definition of_Z (z : Z) : number := binary_normalize prec emax z 0 false.

(** The exact rational value of a finite Number. *)
Definition value (x : number) : option Q :=
  match x with
  | S754_zero _ => Some 0%Q
  | S754_finite s m e =>
      let sm := cond_Zopp s (Zpos m) in
      Some (if 0 <=? e then inject_Z (sm * 2 ^ e)
            else Qmake sm (Z.to_pos (2 ^ (- e))))
  | _ => None
  end.

(** A finite binary64 value that is not negative: [+0] or a positive
    double. *)
Definition nonnegative_double (x : number) : bool :=
  match x with
  | S754_zero false => true
  | S754_finite false m e => bounded prec emax m e
  | _ => false
  end.

(** JavaScript truthiness of a Number: [NaN], [+0] and [-0] are falsy. *)
Definition truthy (x : number) : bool :=
  match x with
  | S754_nan | S754_zero _ => false
  | _ => true
  end.

(** The result of [Math.round]: an integral Number, or the argument itself
    when it is [NaN] or an infinity.  An integral result is given by its
    integer value (the sign of a zero result is not tracked). *)
Variant integral :=
  | Int (n : Z)
  | NotFinite (x : number).

(** [Math.round(x)]: the integer closest to [x], ties towards +infinity,
    that is [floor (x + 1/2)] computed exactly. *)
Definition Math_round (x : number) : integral :=
  match x with
  | S754_zero _ => Int 0
  | S754_finite s m e =>
      let sm := cond_Zopp s (Zpos m) in
      if 0 <=? e then Int (sm * 2 ^ e)
      else Int ((2 * sm + 2 ^ (- e)) / 2 ^ (1 - e))
  | _ => NotFinite x
  end.

(** *** Decimal text to Number

    The value [M * 10^E] of a decimal literal is converted to binary64 with
    round-to-nearest-even, as [StringToNumber] and [JSON.parse] do. *)

(** [n * 2^e0] when it lies on the binary64 grid. *)
Definition exact_double (s : bool) (n : positive) (e0 : Z) : option number :=
  let ec := fexp prec emax (Z.log2 (Zpos n) + 1 + e0) in
  if ec <=? e0 then
    let m := Zpos n * 2 ^ (e0 - ec) in
    if bounded prec emax (Z.to_pos m) ec
    then Some (S754_finite s (Z.to_pos m) ec) else None
  else if (Zpos n mod 2 ^ (ec - e0) =? 0) then
    let m := Zpos n / 2 ^ (ec - e0) in
    if (0 <? m) && bounded prec emax (Z.to_pos m) ec
    then Some (S754_finite s (Z.to_pos m) ec) else None
  else None.

Definition decimal_to_double (s : bool) (M : N) (E : Z) : number :=
  match M with
  | N0 => S754_zero s
  | Npos p =>
      if 0 <=? E then
        match exact_double s (Pos.mul p (Z.to_pos (10 ^ E))) 0 with
        | Some x => x
        | None => binary_normalize prec emax
                    (cond_Zopp s (Zpos p * 10 ^ E)) 0 s
        end
      else
        let k := - E in
        let exact :=
          if Zpos p mod 5 ^ k =? 0
          then exact_double s (Z.to_pos (Zpos p / 5 ^ k)) E
          else None in
        match exact with
        | Some x => x
        | None => SFdiv prec emax (S754_finite s p 0)
                    (S754_finite false (Z.to_pos (10 ^ k)) 0)
        end
  end.

(** The number of binary digits of a positive integer. *)
Definition bits (p : positive) : Z := Z.log2 (Z.pos p) + 1.

End Num.

(** ** Numbers as text: [Number::toString] and the JSON number grammar *)

Module NumberText.
Import Num.

Definition is_digit (c : ascii) : bool :=
  let n := nat_of_ascii c in (48 <=? n)%nat && (n <=? 57)%nat.

(** The characters a JSON number token is made of. *)
Definition is_number_char (c : ascii) : bool :=
  is_digit c ||
  match c with
  | "+"%char | "-"%char | "."%char | "e"%char | "E"%char => true
  | _ => false
  end.

Fixpoint string_forallb (p : ascii -> bool) (s : string) : bool :=
  match s with
  | EmptyString => true
  | String c r => p c && string_forallb p r
  end.

(** The longest prefix of [s] whose characters satisfy [p], and the rest. *)
Fixpoint span (p : ascii -> bool) (s : string) : string * string :=
  match s with
  | EmptyString => (EmptyString, EmptyString)
  | String c r =>
      if p c then let '(a, b) := span p r in (String c a, b)
      else (EmptyString, s)
  end.

(** What follows a token does not continue it. *)
Definition stops (p : ascii -> bool) (rest : string) : Prop :=
  match rest with
  | EmptyString => True
  | String c _ => p c = false
  end.

Definition digits_of_N (n : N) : string :=
  NilEmpty.string_of_uint (N.to_uint n).

Definition N_of_digits (s : string) : option N :=
  match s with
  | EmptyString => None
  | _ => option_map N.of_uint (NilEmpty.uint_of_string s)
  end.

(** The integer part of a JSON number: [0], or digits without a leading zero. *)
Definition int_part_ok (ip : string) : bool :=
  match ip with
  | EmptyString => false
  | String c EmptyString => true
  | String c _ => negb (Ascii.eqb c "0")
  end.

(** The optional fraction, a point and at least one digit: its digits and
    what follows. *)
Definition read_fraction (t : string) : option (string * string) :=
  match t with
  | String c r =>
      if Ascii.eqb c "." then
        let '(fp, r') := span is_digit r in
        match fp with EmptyString => None | _ => Some (fp, r') end
      else Some (EmptyString, t)
  | EmptyString => Some (EmptyString, t)
  end.

(** The digits of an exponent, after its sign. *)
Definition read_exponent_digits (neg : bool) (r : string) : option (Z * string) :=
  let '(ep, r') := span is_digit r in
  match N_of_digits ep with
  | Some n => Some (if neg then - Z.of_N n else Z.of_N n, r')
  | None => None
  end.

(** The optional exponent, [e] or [E], an optional sign and at least one
    digit: its value and what follows. *)
Definition read_exponent (t : string) : option (Z * string) :=
  match t with
  | String c r =>
      if Ascii.eqb c "e" || Ascii.eqb c "E" then
        match r with
        | String c' r' =>
            if Ascii.eqb c' "-" then read_exponent_digits true r'
            else if Ascii.eqb c' "+" then read_exponent_digits false r'
            else read_exponent_digits false r
        | EmptyString => None
        end
      else Some (0, t)
  | EmptyString => Some (0, t)
  end.

(** The optional minus sign of a number. *)
Definition strip_minus (t : string) : bool * string :=
  match t with
  | String c r => if Ascii.eqb c "-" then (true, r) else (false, t)
  | EmptyString => (false, t)
  end.

(** A whole token of the JSON number grammar: an optional minus sign, an
    integer part (a single zero, or digits starting with a non-zero digit),
    an optional fraction and an optional exponent. *)
Definition parse_number_token (t : string) : option number :=
  let '(neg, t1) := strip_minus t in
  let '(ip, t2) := span is_digit t1 in
  if int_part_ok ip then
    match read_fraction t2 with
    | Some (fp, t3) =>
        match read_exponent t3 with
        | Some (ex, EmptyString) =>
            match N_of_digits (ip +:+ fp) with
            | Some M =>
                Some (decimal_to_double neg M (ex - Z.of_nat (String.length fp)))
            | None => None
            end
        | _ => None
        end
    | None => None
    end
  else None.

(** Structural equality of Numbers (distinguishes [+0] from [-0]). *)
Definition same_number (x y : number) : bool :=
  match x, y with
  | S754_zero a, S754_zero b => Bool.eqb a b
  | S754_infinity a, S754_infinity b => Bool.eqb a b
  | S754_nan, S754_nan => true
  | S754_finite a m e, S754_finite b m' e' =>
      Bool.eqb a b && Pos.eqb m m' && Z.eqb e e'
  | _, _ => false
  end.

(** *** [Number::toString] (ECMA-262, radix 10)

    For a positive finite [x = n/d] the standard asks for the least [k] and
    integers [s], [n0] with [10^(k-1) <= s < 10^k] such that [s * 10^(n0-k)]
    reads back as [x], the closest such [s] being taken. *)

Fixpoint find_scale (fuel : nat) (j n d : Z) : Z :=
  match fuel with
  | O => j
  | S fuel' => if d <=? n * 10 ^ j then j else find_scale fuel' (j + 1) n d
  end.

(** [n0] with [10^(n0-1) <= n/d < 10^n0]. *)
Definition decimal_exponent (n d : Z) : Z :=
  if d <=? n then Z.of_nat (String.length (digits_of_N (Z.to_N (n / d))))
  else 1 - find_scale 400 1 n d.

Fixpoint strip_zeros (s : string) : string :=
  match s with
  | EmptyString => EmptyString
  | String c r =>
      match strip_zeros r with
      | EmptyString => if Ascii.eqb c "0" then EmptyString else String c EmptyString
      | r' => String c r'
      end
  end.

(** The [k]-digit candidate for [x = n/d]: its digits without trailing zeros
    and the position of the decimal point. *)
Definition candidate (x : number) (n d n0 k : Z) : option (string * Z) :=
  let p := n0 - k in
  let num := if 0 <=? p then n else n * 10 ^ (- p) in
  let den := if 0 <=? p then d * 10 ^ p else d in
  let lo := num / den in
  let r := num mod den in
  let hi := lo + 1 in
  let reads s := same_number (decimal_to_double false (Z.to_N s) p) x in
  let pick s :=
    let ds := digits_of_N (Z.to_N s) in
    Some (strip_zeros ds, p + Z.of_nat (String.length ds)) in
  match reads lo, reads hi with
  | true, true =>
      if 2 * r <? den then pick lo
      else if den <? 2 * r then pick hi
      else if Z.even lo then pick lo else pick hi
  | true, false => pick lo
  | false, true => pick hi
  | false, false => None
  end.

Fixpoint shortest (fuel : nat) (x : number) (n d n0 k : Z) : option (string * Z) :=
  match fuel with
  | O => None
  | S fuel' =>
      match candidate x n d n0 k with
      | Some r => Some r
      | None => shortest fuel' x n d n0 (k + 1)
      end
  end.

Fixpoint zeros (n : nat) : string :=
  match n with
  | O => EmptyString
  | S n' => String "0" (zeros n')
  end.

Definition take (n : nat) (s : string) : string := String.substring 0 n s.
Definition drop (n : nat) (s : string) : string :=
  String.substring n (String.length s - n) s.

(** Steps 7 to 11 of [Number::toString]: digits [ds] and point position [n]. *)
Definition format_digits (ds : string) (n : Z) : string :=
  let k := Z.of_nat (String.length ds) in
  if (k <=? n) && (n <=? 21) then ds +:+ zeros (Z.to_nat (n - k))
  else if (0 <? n) && (n <=? 21) then
    take (Z.to_nat n) ds +:+ "." +:+ drop (Z.to_nat n) ds
  else if (-6 <? n) && (n <=? 0) then "0." +:+ zeros (Z.to_nat (- n)) +:+ ds
  else
    let e := n - 1 in
    let es := (if e <? 0 then "-" else "+") +:+ digits_of_N (Z.to_N (Z.abs e)) in
    if k =? 1 then ds +:+ "e" +:+ es
    else take 1 ds +:+ "." +:+ drop 1 ds +:+ "e" +:+ es.

(** The exact decimal expansion of [m * 2^e], always a valid JSON number. *)
Definition exact_decimal (m : positive) (e : Z) : string :=
  if 0 <=? e then digits_of_N (Z.to_N (Zpos m * 2 ^ e))
  else digits_of_N (Z.to_N (Zpos m * 5 ^ (- e))) +:+ "e-"
         +:+ digits_of_N (Z.to_N (- e)).

(** The text of a positive finite Number.  The shortest digits are used when
    they read back as the Number, which ECMA-262 guarantees (17 digits always
    suffice); the exact expansion is the total fallback of the model. *)
Definition positive_toString (m : positive) (e : Z) : string :=
  let x := S754_finite false m e in
  let n := if 0 <=? e then Zpos m * 2 ^ e else Zpos m in
  let d := if 0 <=? e then 1 else 2 ^ (- e) in
  let short :=
    match shortest 17 x n d (decimal_exponent n d) 1 with
    | Some (ds, n0) => Some (format_digits ds n0)
    | None => None
    end in
  match short with
  | Some c =>
      if string_forallb is_number_char c &&
         match parse_number_token c with
         | Some y => same_number y x
         | None => false
         end
      then c else exact_decimal m e
  | None => exact_decimal m e
  end.

Definition Number_toString (x : number) : string :=
  match x with
  | S754_nan => "NaN"
  | S754_zero _ => "0"
  | S754_infinity s => if s then "-Infinity" else "Infinity"
  | S754_finite s m e =>
      if s then "-" +:+ positive_toString m e else positive_toString m e
  end.

End NumberText.

(** ** JavaScript values and JSON text

    Strings are sequences of 8-bit code units.  An object keeps its own
    properties as a list of key and value, in the order in which JavaScript
    enumerates them. *)

Module JSON.
Import Num NumberText.

Inductive jsvalue :=
  | JUndefined
  | JNull
  | JBool (b : bool)
  | JNum (x : number)
  | JStr (s : string)
  | JArr (l : list jsvalue)
  | JObj (l : list (string * jsvalue)).

(** *** [JSON.stringify] *)

Definition hex_digit (n : nat) : ascii :=
  ascii_of_nat (if (n <? 10)%nat then 48 + n else 87 + n).

(** [QuoteJSONString] on one code unit. *)
Definition escape_char (c : ascii) : string :=
  match c with
  | "034"%char => String "\" (String "034" EmptyString)
  | "\"%char => "\\"
  | "008"%char => "\b"
  | "009"%char => "\t"
  | "010"%char => "\n"
  | "012"%char => "\f"
  | "013"%char => "\r"
  | _ =>
      let n := nat_of_ascii c in
      if (n <? 32)%nat
      then "\u00" +:+ String (hex_digit (n / 16))
                          (String (hex_digit (n mod 16)) EmptyString)
      else String c EmptyString
  end.

Fixpoint escape (s : string) : string :=
  match s with
  | EmptyString => EmptyString
  | String c r => escape_char c +:+ escape r
  end.

Definition quote (s : string) : string :=
  String "034" (escape s +:+ String "034" EmptyString).

Fixpoint join (sep : string) (l : list string) : string :=
  match l with
  | [] => EmptyString
  | [x] => x
  | x :: r => x +:+ sep +:+ join sep r
  end.

(** [SerializeJSONProperty]: [None] stands for the result [undefined]. *)
Fixpoint serialize (v : jsvalue) : option string :=
  match v with
  | JUndefined => None
  | JNull => Some "null"
  | JBool b => Some (if b then "true" else "false")
  | JNum x => Some (if is_finite x then Number_toString x else "null")
  | JStr s => Some (quote s)
  | JArr l =>
      let elements :=
        (fix go (l : list jsvalue) : list string :=
           match l with
           | [] => []
           | e :: r =>
               match serialize e with
               | Some t => t
               | None => "null"
               end :: go r
           end) l in
      Some ("[" +:+ join "," elements +:+ "]")
  | JObj l =>
      let members :=
        (fix go (l : list (string * jsvalue)) : list string :=
           match l with
           | [] => []
           | (k, e) :: r =>
               match serialize e with
               | Some t => (quote k +:+ ":" +:+ t) :: go r
               | None => go r
               end
           end) l in
      Some ("{" +:+ join "," members +:+ "}")
  end.

Definition JSON_stringify (v : jsvalue) : option string := serialize v.

(** *** [JSON.parse] *)

Definition is_ws (c : ascii) : bool :=
  match c with
  | " "%char | "009"%char | "010"%char | "013"%char => true
  | _ => false
  end.

Fixpoint skip_ws (s : string) : string :=
  match s with
  | String c r => if is_ws c then skip_ws r else s
  | EmptyString => s
  end.

Definition hex_value (c : ascii) : option nat :=
  let n := nat_of_ascii c in
  if (48 <=? n)%nat && (n <=? 57)%nat then Some (n - 48)%nat
  else if (97 <=? n)%nat && (n <=? 102)%nat then Some (n - 87)%nat
  else if (65 <=? n)%nat && (n <=? 70)%nat then Some (n - 55)%nat
  else None.

(** The code unit written [\uXXXX]; code units above 255 are outside the
    8-bit strings of this model and are refused. *)
Definition unicode_escape (a b c d : ascii) : option ascii :=
  match hex_value a, hex_value b, hex_value c, hex_value d with
  | Some x3, Some x2, Some x1, Some x0 =>
      if (x3 =? 0)%nat && (x2 =? 0)%nat
      then Some (ascii_of_nat (16 * x1 + x0)) else None
  | _, _, _, _ => None
  end.

(** The characters of a string literal after its opening quote, up to the
    closing quote; the result is the string and what follows the literal. *)
Fixpoint read_string (s : string) : option (string * string) :=
  match s with
  | EmptyString => None
  | String "034" r => Some (EmptyString, r)
  | String "\" (String e r) =>
      let continue (c : ascii) (r : string) :=
        match read_string r with
        | Some (t, r') => Some (String c t, r')
        | None => None
        end in
      match e with
      | "034"%char => continue "034"%char r
      | "\"%char => continue "\"%char r
      | "/"%char => continue "/"%char r
      | "b"%char => continue "008"%char r
      | "f"%char => continue "012"%char r
      | "n"%char => continue "010"%char r
      | "r"%char => continue "013"%char r
      | "t"%char => continue "009"%char r
      | "u"%char =>
          match r with
          | String h3 (String h2 (String h1 (String h0 r'))) =>
              match unicode_escape h3 h2 h1 h0 with
              | Some c =>
                  match read_string r' with
                  | Some (t, r'') => Some (String c t, r'')
                  | None => None
                  end
              | None => None
              end
          | _ => None
          end
      | _ => None
      end
  | String "\" EmptyString => None
  | String c r =>
      if (nat_of_ascii c <? 32)%nat then None
      else
        match read_string r with
        | Some (t, r') => Some (String c t, r')
        | None => None
        end
  end.

(** [obj[k] = v]: an existing property keeps its place, a new one is added
    at the end. *)
Fixpoint set_property (k : string) (v : jsvalue) (l : list (string * jsvalue))
  : list (string * jsvalue) :=
  match l with
  | [] => [(k, v)]
  | (k', v') :: r =>
      if String.eqb k k' then (k, v) :: r else (k', v') :: set_property k v r
  end.

(** An array index: the canonical decimal text of an integer below
    [2^32 - 1]. *)
Definition array_index (k : string) : option N :=
  match N_of_digits k with
  | Some n =>
      if String.eqb (digits_of_N n) k && (n <? 4294967295)%N then Some n else None
  | None => None
  end.

Fixpoint insert_index (n : N) (kv : string * jsvalue)
  (l : list (N * (string * jsvalue))) : list (N * (string * jsvalue)) :=
  match l with
  | [] => [(n, kv)]
  | (m, e) :: r => if (n <? m)%N then (n, kv) :: l else (m, e) :: insert_index n kv r
  end.

(** [OrdinaryOwnPropertyKeys]: the properties whose key is an array index,
    in ascending order, then the others in the order of their creation. *)
Definition own_properties (l : list (string * jsvalue)) : list (string * jsvalue) :=
  let indexed :=
    fold_left (fun acc kv =>
                 match array_index (fst kv) with
                 | Some n => insert_index n kv acc
                 | None => acc
                 end) l [] in
  map snd indexed ++
  List.filter (fun kv => match array_index (fst kv) with
                         | Some _ => false
                         | None => true
                         end) l.

Definition build_object (members : list (string * jsvalue)) : jsvalue :=
  JObj (own_properties
          (fold_left (fun acc kv => set_property (fst kv) (snd kv) acc) members [])).

Definition expect_literal (lit : string) (v : jsvalue) (s : string)
  : option (jsvalue * string) :=
  if String.prefix lit s
  then Some (v, drop (String.length lit) s) else None.

(** Recursive descent over the JSON grammar.  [fuel] bounds the number of
    nested calls; [JSON_parse] supplies more than any text can use. *)
Fixpoint parse_value (fuel : nat) (s : string) : option (jsvalue * string) :=
  match fuel with
  | O => None
  | S fuel' =>
      match skip_ws s with
      | EmptyString => None
      | String c r =>
          if is_digit c || Ascii.eqb c "-" then
            let '(tok, r') := span is_number_char (String c r) in
            match parse_number_token tok with
            | Some x => Some (JNum x, r')
            | None => None
            end
          else if Ascii.eqb c "034" then
            match read_string r with
            | Some (t, r') => Some (JStr t, r')
            | None => None
            end
          else if Ascii.eqb c "[" then
            match skip_ws r with
            | String "]" r' => Some (JArr [], r')
            | _ =>
                match parse_elements fuel' r with
                | Some (l, r') => Some (JArr l, r')
                | None => None
                end
            end
          else if Ascii.eqb c "{" then
            match skip_ws r with
            | String "}" r' => Some (JObj [], r')
            | _ =>
                match parse_members fuel' r with
                | Some (l, r') => Some (build_object l, r')
                | None => None
                end
            end
          else if Ascii.eqb c "n" then expect_literal "null" JNull (String c r)
          else if Ascii.eqb c "t" then expect_literal "true" (JBool true) (String c r)
          else if Ascii.eqb c "f" then expect_literal "false" (JBool false) (String c r)
          else None
      end
  end
with parse_elements (fuel : nat) (s : string) : option (list jsvalue * string) :=
  match fuel with
  | O => None
  | S fuel' =>
      match parse_value fuel' s with
      | Some (v, r) =>
          match skip_ws r with
          | String "," r' =>
              match parse_elements fuel' r' with
              | Some (l, r'') => Some (v :: l, r'')
              | None => None
              end
          | String "]" r' => Some ([v], r')
          | _ => None
          end
      | None => None
      end
  end
with parse_members (fuel : nat) (s : string)
  : option (list (string * jsvalue) * string) :=
  match fuel with
  | O => None
  | S fuel' =>
      match skip_ws s with
      | String "034" r =>
          match read_string r with
          | Some (k, r1) =>
              match skip_ws r1 with
              | String ":" r2 =>
                  match parse_value fuel' r2 with
                  | Some (v, r3) =>
                      match skip_ws r3 with
                      | String "," r4 =>
                          match parse_members fuel' r4 with
                          | Some (l, r5) => Some ((k, v) :: l, r5)
                          | None => None
                          end
                      | String "}" r4 => Some ([(k, v)], r4)
                      | _ => None
                      end
                  | None => None
                  end
              | _ => None
              end
          | None => None
          end
      | _ => None
      end
  end.

(** A character that ends a value inside an array or an object. *)
Definition separator (rest : string) : Prop :=
  exists r, rest = String "," r \/ rest = String "]" r \/ rest = String "}" r.

(** [JSON.parse(text)]: [None] stands for a thrown [SyntaxError]. *)
Definition JSON_parse (text : string) : option jsvalue :=
  match parse_value (2 * String.length text + 2) text with
  | Some (v, r) =>
      match skip_ws r with
      | EmptyString => Some v
      | _ => None
      end
  | None => None
  end.

End JSON.

(** ** The function runtime: memory, external calls, asynchronous code *)

Module Runtime.
Import Num JSON.

(** A thrown or rejected value: [err.message] and [err.response], the
    upstream response that a failure reported by the SDK carries; on any
    other error [err.response] is [undefined]. *)
Record JsError := mkError {
  message : string;
  response : jsvalue
}.

Definition Error (msg : string) : JsError := mkError msg JUndefined.

(** JavaScript truthiness. *)
Definition truthy_string (s : string) : bool :=
  match s with EmptyString => false | _ => true end.

Definition truthy_opt (o : option string) : bool :=
  match o with Some s => truthy_string s | None => false end.

Definition truthy (v : jsvalue) : bool :=
  match v with
  | JUndefined | JNull => false
  | JBool b => b
  | JNum x => Num.truthy x
  | JStr s => truthy_string s
  | JArr _ | JObj _ => true
  end.

(** [a || b]. *)
Definition js_or (a b : jsvalue) : jsvalue := if truthy a then a else b.

Definition or_default (o : option string) (d : string) : string :=
  match o with
  | Some s => if truthy_string s then s else d
  | None => d
  end.

(** [process.env], as loaded from [functions/.env]. *)
Record Env := {
  INGRAM_CLIENT_ID : option string;
  INGRAM_CLIENT_SECRET : option string;
  INGRAM_SECRET_KEY : option string;
  INGRAM_CUSTOMER_NUMBER : option string;
  INGRAM_COUNTRY_CODE : option string;
  STRIPE_SECRET_KEY : option string;
  STRIPE_WEBHOOK_SECRET : option string
}.

(** The reply of the distributor's token endpoint: the bearer token and the
    lifetime it declares, in seconds.  The code reads [access_token] only. *)
Record TokenData := {
  access_token : string;
  expires_in : Z
}.

(** The options object of a catalog search. *)
Record SearchOpts := {
  keyword : option (list string);
  vendor : option (list string);
  pageNumber : number;
  pageSize : number
}.

(** One entry of [line_items] in a checkout session request. *)
Record LineItem := {
  currency : string;
  product_name : string;
  product_description : string;
  product_sku : string;
  product_vendor : string;
  unit_amount : integral;
  line_quantity : number
}.

(** The argument of [stripe.checkout.sessions.create]. *)
Record SessionParams := {
  payment_method_types : list string;
  line_items : list LineItem;
  mode : string;
  success_url : string;
  cancel_url : string;
  submit_type : string;
  params_metadata : gmap string string;
  params_customer_email : string
}.

(** A checkout session as the payment processor reports it. *)
Record Session := {
  id : string;
  url : string;
  payment_intent : string;
  amount_total : number;
  metadata : gmap string string
}.

(** A verified webhook event: [event.type] and [event.data.object]. *)
Record StripeEvent := {
  type : string;
  data_object : Session
}.

Record CustomerInfo := {
  info_name : option string;
  info_email : option string;
  info_phone : option string
}.

Record ShippingAddress := {
  ship_street : option string;
  ship_colonia : option string;
  ship_zip : option string;
  ship_city : option string;
  ship_state : option string;
  ship_notes : option string
}.

(** A document of the [orders] collection.  [createdAt] is the
    [serverTimestamp()] sentinel, filled in by the store. *)
Record Order := {
  stripeSessionId : string;
  paymentIntentId : string;
  amountTotal : number;
  status : string;
  customerInfo : CustomerInfo;
  shippingAddress : ShippingAddress;
  items : jsvalue;
  ingramStatus : string
}.

(** A document of the [ingram_events] collection.  [receivedAt] is the
    [serverTimestamp()] sentinel, filled in by the store. *)
Record EventRecord := {
  eventType : jsvalue;
  rawPayload : jsvalue
}.

Variant document :=
  | OrderDoc (o : Order)
  | EventDoc (e : EventRecord).

(** The shared [XiSdk.ApiClient.instance]. *)
Record ApiClient := {
  basePath : string;
  accessToken : string;
  defaultHeaders : gmap string string
}.

Variant level := LogInfo | LogWarn | LogError.

(** The mutable state of the process: the module variables [cachedToken] and
    [tokenExpiry], the SDK client and the console. *)
Record Memory := {
  cachedToken : option string;
  tokenExpiry : Z;
  apiClient : option ApiClient;
  console : list (level * string)
}.

(** An outgoing call, as the outside world sees it. *)
Variant extcall :=
  | CallToken (grant : string) (client_id client_secret : option string)
  | CallSearch (customer country correlationId : string) (opts : SearchOpts)
  | CallPriceAvail (customer country correlationId : string)
      (products : list jsvalue)
  | CallAdd (collection : string) (doc : document)
  | CallSession (params : SessionParams).

(** What comes back. *)
Variant answer :=
  | TokenReply (r : JsError + TokenData)
  | CatalogReply (r : JsError + jsvalue)
  | AddReply (r : JsError + string)
  | SessionReply (r : JsError + Session).

(** Asynchronous code.  [Get], [Put] and [DateNow] run synchronously; an
    [Await...] node issues an outgoing call and suspends until its callback
    or promise delivers the reply to the continuation.  Awaiting a function
    of this file is sequencing: the caller suspends where the callee does. *)
Inductive proc (R : Type) : Type :=
  | Ret (r : R)
  | Throw (e : JsError)
  | Get (k : Memory -> proc R)
  | Put (m : Memory) (k : proc R)
  | DateNow (k : Z -> proc R)
  | AwaitToken (grant : string) (client_id client_secret : option string)
      (k : JsError + TokenData -> proc R)
  | AwaitSearch (customer country correlationId : string) (opts : SearchOpts)
      (k : JsError + jsvalue -> proc R)
  | AwaitPriceAvail (customer country correlationId : string)
      (products : list jsvalue) (k : JsError + jsvalue -> proc R)
  | AwaitAdd (collection : string) (doc : document)
      (k : JsError + string -> proc R)
  | AwaitSession (params : SessionParams) (k : JsError + Session -> proc R).

Arguments Ret {R} r.
Arguments Throw {R} e.
Arguments Get {R} k.
Arguments Put {R} m k.
Arguments DateNow {R} k.
Arguments AwaitToken {R} grant client_id client_secret k.
Arguments AwaitSearch {R} customer country correlationId opts k.
Arguments AwaitPriceAvail {R} customer country correlationId products k.
Arguments AwaitAdd {R} collection doc k.
Arguments AwaitSession {R} params k.

Fixpoint bind {A B : Type} (p : proc A) (f : A -> proc B) : proc B :=
  match p with
  | Ret r => f r
  | Throw e => Throw e
  | Get k => Get (fun m => bind (k m) f)
  | Put m k => Put m (bind k f)
  | DateNow k => DateNow (fun t => bind (k t) f)
  | AwaitToken g i s k => AwaitToken g i s (fun r => bind (k r) f)
  | AwaitSearch c n i o k => AwaitSearch c n i o (fun r => bind (k r) f)
  | AwaitPriceAvail c n i l k => AwaitPriceAvail c n i l (fun r => bind (k r) f)
  | AwaitAdd c d k => AwaitAdd c d (fun r => bind (k r) f)
  | AwaitSession q k => AwaitSession q (fun r => bind (k r) f)
  end.

(** [try { p } catch (e) { h e }]. *)
Fixpoint try_catch {R : Type} (p : proc R) (h : JsError -> proc R) : proc R :=
  match p with
  | Ret r => Ret r
  | Throw e => h e
  | Get k => Get (fun m => try_catch (k m) h)
  | Put m k => Put m (try_catch k h)
  | DateNow k => DateNow (fun t => try_catch (k t) h)
  | AwaitToken g i s k => AwaitToken g i s (fun r => try_catch (k r) h)
  | AwaitSearch c n i o k => AwaitSearch c n i o (fun r => try_catch (k r) h)
  | AwaitPriceAvail c n i l k =>
      AwaitPriceAvail c n i l (fun r => try_catch (k r) h)
  | AwaitAdd c d k => AwaitAdd c d (fun r => try_catch (k r) h)
  | AwaitSession q k => AwaitSession q (fun r => try_catch (k r) h)
  end.

#[global] Instance proc_ret : MRet proc := @Ret.
#[global] Instance proc_bind : MBind proc := fun A B f p => bind p f.

Definition get_memory : proc Memory := Get Ret.
Definition modify (f : Memory -> Memory) : proc unit :=
  Get (fun m => Put (f m) (Ret tt)).
Definition date_now : proc Z := DateNow Ret.

Definition add_log (l : level) (msg : string) (m : Memory) : Memory :=
  {| cachedToken := cachedToken m; tokenExpiry := tokenExpiry m;
     apiClient := apiClient m; console := console m ++ [(l, msg)] |}.

(** [console.log], [console.warn], [console.error].  A line keeps its fixed
    text; objects printed after it are left out. *)
Definition log (l : level) (msg : string) : proc unit := modify (add_log l msg).

(** A settled promise: [await] returns its value or throws its reason. *)
Definition settle {A : Type} (r : JsError + A) : proc A :=
  match r with
  | inl e => Throw e
  | inr a => Ret a
  end.

(** *** The outside world and the scheduler *)

(** The outside world: the documents of each Firestore collection in
    insertion order, the sessions held by the payment processor, and every
    outgoing call in the order it was issued. *)
Record World := {
  mem : Memory;
  firestore : gmap string (list document);
  stripe_sessions : list (SessionParams * Session);
  calls : list extcall
}.

Definition collection (w : World) (name : string) : list document :=
  default [] (firestore w !! name).

Definition set_mem (m : Memory) (w : World) : World :=
  {| mem := m; firestore := firestore w;
     stripe_sessions := stripe_sessions w; calls := calls w |}.

Definition issue (c : extcall) (w : World) : World :=
  {| mem := mem w; firestore := firestore w;
     stripe_sessions := stripe_sessions w; calls := calls w ++ [c] |}.

(** [collection(name).add(doc)] completing successfully. *)
Definition add_document (name : string) (doc : document) (w : World) : World :=
  {| mem := mem w;
     firestore := <[name := collection w name ++ [doc]]> (firestore w);
     stripe_sessions := stripe_sessions w; calls := calls w |}.

Definition record_session (q : SessionParams) (s : Session) (w : World) : World :=
  {| mem := mem w; firestore := firestore w;
     stripe_sessions := stripe_sessions w ++ [(q, s)]; calls := calls w |}.

(** Run the synchronous code of [p] at clock reading [now], up to its return,
    its throw or its next outgoing call, which is issued. *)
Fixpoint run_sync {R : Type} (p : proc R) (now : Z) (w : World) : World * proc R :=
  match p with
  | Get k => run_sync (k (mem w)) now w
  | Put m k => run_sync k now (set_mem m w)
  | DateNow k => run_sync (k now) now w
  | Ret _ | Throw _ => (w, p)
  | AwaitToken g i s _ => (issue (CallToken g i s) w, p)
  | AwaitSearch c n i o _ => (issue (CallSearch c n i o) w, p)
  | AwaitPriceAvail c n i l _ => (issue (CallPriceAvail c n i l) w, p)
  | AwaitAdd c d _ => (issue (CallAdd c d) w, p)
  | AwaitSession q _ => (issue (CallSession q) w, p)
  end.

(** Deliver a reply to suspended code: the effect of the completed call on
    the outside world, and the code that runs next.  A reply of the wrong
    kind is not delivered. *)
Definition deliver {R : Type} (p : proc R) (a : answer) (w : World)
  : option (World * proc R) :=
  match p, a with
  | AwaitToken _ _ _ k, TokenReply r => Some (w, k r)
  | AwaitSearch _ _ _ _ k, CatalogReply r => Some (w, k r)
  | AwaitPriceAvail _ _ _ _ k, CatalogReply r => Some (w, k r)
  | AwaitAdd c d k, AddReply r =>
      Some (match r with inr _ => add_document c d w | inl _ => w end, k r)
  | AwaitSession q k, SessionReply r =>
      Some (match r with inr s => record_session q s w | inl _ => w end, k r)
  | _, _ => None
  end.

Definition is_token_call (c : extcall) : bool :=
  match c with
  | CallToken _ _ _ => true
  | _ => false
  end.

(** The number of credential exchanges among the calls issued. *)
Definition token_calls (l : list extcall) : nat :=
  length (List.filter is_token_call l).

Definition finished {R : Type} (p : proc R) : bool :=
  match p with
  | Ret _ | Throw _ => true
  | _ => false
  end.

(** One request in isolation: start [p] at [now], then deliver the scripted
    replies, each at its own clock reading, up to the first one that [p] is
    not waiting for.  The result is the world and what is left of [p]. *)
Fixpoint replay {R : Type} (script : list (Z * answer)) (st : World * proc R)
  : World * proc R :=
  match script with
  | [] => st
  | (now, a) :: rest =>
      match deliver (snd st) a (fst st) with
      | Some (w, p) => replay rest (run_sync p now w)
      | None => st
      end
  end.

Definition exec {R : Type} (p : proc R) (now : Z) (script : list (Z * answer))
  (w : World) : World * proc R :=
  replay script (run_sync p now w).

(** Several requests in flight.  A task is the code of one request and
    whether it has started; an event starts a task or delivers a reply to a
    suspended one.  Synchronous code runs to its next suspension without
    interleaving, as on the JavaScript event loop. *)
Variant event :=
  | Start (i : nat) (now : Z)
  | Resume (i : nat) (now : Z) (a : answer).

Record Sched (R : Type) := {
  world : World;
  tasks : list (bool * proc R)
}.
Arguments world {R} s.
Arguments tasks {R} s.

Definition step {R : Type} (ev : event) (st : Sched R) : option (Sched R) :=
  match ev with
  | Start i now =>
      match tasks st !! i with
      | Some (false, p) =>
          let '(w, p') := run_sync p now (world st) in
          Some {| world := w; tasks := <[i := (true, p')]> (tasks st) |}
      | _ => None
      end
  | Resume i now a =>
      match tasks st !! i with
      | Some (true, p) =>
          match deliver p a (world st) with
          | Some (w, p1) =>
              let '(w', p') := run_sync p1 now w in
              Some {| world := w'; tasks := <[i := (true, p')]> (tasks st) |}
          | None => None
          end
      | _ => None
      end
  end.

Fixpoint run {R : Type} (evs : list event) (st : Sched R) : option (Sched R) :=
  match evs with
  | [] => Some st
  | ev :: rest =>
      match step ev st with
      | Some st' => run rest st'
      | None => None
      end
  end.

(** How many tasks have returned or thrown. *)
Fixpoint settled_count {R : Type} (ts : list (bool * proc R)) : nat :=
  match ts with
  | [] => 0
  | t :: rest => (if finished (snd t) then 1 else 0) + settled_count rest
  end.

(** How many tasks have started. *)
Fixpoint started_count {R : Type} (ts : list (bool * proc R)) : nat :=
  match ts with
  | [] => 0
  | t :: rest => (if fst t then 1 else 0) + started_count rest
  end.

Definition spawn {R : Type} (w : World) (ps : list (proc R)) : Sched R :=
  {| world := w; tasks := map (fun p => (false, p)) ps |}.

End Runtime.

(** ** ECMAScript built-ins used by the functions *)

Module Globals.
Import Num NumberText JSON Runtime.

(** [WhiteSpace] and [LineTerminator] code units below 256. *)
Definition is_js_space (c : ascii) : bool :=
  match nat_of_ascii c with
  | 9%nat | 10%nat | 11%nat | 12%nat | 13%nat | 32%nat | 160%nat => true
  | _ => false
  end.

Fixpoint trim_start (s : string) : string :=
  match s with
  | String c r => if is_js_space c then trim_start r else s
  | EmptyString => s
  end.

Definition digit_value (radix : Z) (c : ascii) : option Z :=
  match hex_value c with
  | Some d => if Z.of_nat d <? radix then Some (Z.of_nat d) else None
  | None => None
  end.

(** The value of the longest prefix of [s] made of digits of [radix];
    [None] when that prefix is empty. *)
Fixpoint read_radix (radix : Z) (s : string) (acc : option Z) : option Z :=
  match s with
  | String c r =>
      match digit_value radix c with
      | Some d => read_radix radix r (Some (radix * default 0 acc + d))
      | None => acc
      end
  | EmptyString => acc
  end.

(** [parseInt(arg)] with no radix; [None] is the argument [undefined]. *)
Definition parseInt (arg : option string) : number :=
  let s := trim_start (default "undefined" arg) in
  let '(neg, s1) :=
    match s with
    | String "-" r => (true, r)
    | String "+" r => (false, r)
    | _ => (false, s)
    end in
  let '(radix, s2) :=
    match s1 with
    | String "0" (String "x" r) => (16, r)
    | String "0" (String "X" r) => (16, r)
    | _ => (10, s1)
    end in
  match read_radix radix s2 None with
  | None => S754_nan
  | Some 0 => S754_zero neg
  | Some n => binary_normalize prec emax (if neg then - n else n) 0 neg
  end.

(** [x || d] on Numbers. *)
Definition number_or (x d : number) : number := if Num.truthy x then x else d.

(** [Math.min(x, y)]. *)
Definition Math_min (x y : number) : number :=
  match SFcompare x y with
  | None => S754_nan
  | Some Lt => x
  | Some Gt => y
  | Some Eq => match x with S754_zero true => x | _ => y end
  end.

(** [x <= y] on Numbers. *)
Definition number_le (x y : number) : bool := SFleb x y.

(** [s.includes(sub)]. *)
Fixpoint includes (sub s : string) : bool :=
  String.prefix sub s ||
  match s with
  | String _ r => includes sub r
  | EmptyString => false
  end.

(** [v[k]] on a defined value; on [undefined] or [null] it is a [TypeError]. *)
Definition get_prop (v : jsvalue) (k : string) : JsError + jsvalue :=
  match v with
  | JUndefined =>
      inl (Error ("Cannot read properties of undefined (reading '" +:+ k +:+ "')"))
  | JNull =>
      inl (Error ("Cannot read properties of null (reading '" +:+ k +:+ "')"))
  | JObj l =>
      inr (default JUndefined (snd <$> List.find (fun kv => String.eqb (fst kv) k) l))
  | JArr l =>
      inr (if String.eqb k "length" then JNum (of_Z (Z.of_nat (length l)))
           else JUndefined)
  | JStr s =>
      inr (if String.eqb k "length" then JNum (of_Z (Z.of_nat (String.length s)))
           else JUndefined)
  | _ => inr JUndefined
  end.

(** [v?.[k]]: [undefined] when [v] is [undefined] or [null]. *)
Definition get_optional (v : jsvalue) (k : string) : jsvalue :=
  match get_prop v k with
  | inr x => x
  | inl _ => JUndefined
  end.

(** [const { k } = v], where [src] is the source text of [v]. *)
Definition destructure (v : jsvalue) (k src : string) : JsError + jsvalue :=
  match v with
  | JUndefined =>
      inl (Error ("Cannot destructure property '" +:+ k +:+ "' of '" +:+ src +:+
                  "' as it is undefined."))
  | JNull =>
      inl (Error ("Cannot destructure property '" +:+ k +:+ "' of '" +:+ src +:+
                  "' as it is null."))
  | _ => get_prop v k
  end.


Definition not_primitive : JsError :=
  Error "Cannot convert object to primitive value".

(** [String(v)] on a value parsed from JSON text.  An array joins the texts
    of its elements with commas, [undefined] and [null] giving the empty
    text.  An object has no function among its own properties: with a
    [toString] of its own the conversion is a [TypeError] (neither that
    property nor [valueOf] yields a primitive), without one the inherited
    [toString] answers. *)
Fixpoint to_String (v : jsvalue) : JsError + string :=
  match v with
  | JUndefined => inr "undefined"
  | JNull => inr "null"
  | JBool b => inr (if b then "true" else "false")
  | JNum x => inr (Number_toString x)
  | JStr s => inr s
  | JArr l =>
      let texts :=
        (fix go (l : list jsvalue) : JsError + list string :=
           match l with
           | [] => inr []
           | e :: r =>
               match match e with
                     | JUndefined | JNull => inr EmptyString
                     | _ => to_String e
                     end with
               | inl err => inl err
               | inr t =>
                   match go r with
                   | inl err => inl err
                   | inr ts => inr (t :: ts)
                   end
               end
           end) l in
      match texts with
      | inl err => inl err
      | inr ts => inr (join "," ts)
      end
  | JObj l =>
      if existsb (fun kv => String.eqb (fst kv) "toString") l
      then inl not_primitive
      else inr "[object Object]"
  end.

End Globals.

(** ** [functions/index.js] *)

Module Functions.
Import Num NumberText JSON Runtime Globals.

(** The HTTP boundary: an Express-style request and the response sent. *)
Record Request (B : Type) := {
  method : string;
  query : gmap string string;
  headers : gmap string string;
  rawBody : string;
  body : B
}.
Arguments method {B} r.
Arguments query {B} r.
Arguments headers {B} r.
Arguments rawBody {B} r.
Arguments body {B} r.

Variant payload :=
  | Json (v : jsvalue)
  | Text (s : string).

Record Response := {
  statusCode : Z;
  sent : payload
}.

Definition respond (code : Z) (p : payload) : proc Response :=
  mret {| statusCode := code; sent := p |}.

(** A 2xx status. *)
Definition success (r : Response) : bool :=
  (200 <=? statusCode r) && (statusCode r <? 300).

(** The request bodies of the storefront, as the data model types them. *)
Module CartItem.
Record t := {
  sku : string;
  name : string;
  vendor : string;
  price : number;
  quantity : number
}.
End CartItem.

Module Address.
Record t := {
  street : string;
  colonia : string;
  zip : string;
  city : string;
  state : string;
  notes : option string
}.
End Address.

Module Customer.
Record t := {
  name : string;
  email : string;
  phone : string;
  address : option Address.t
}.
End Customer.

(** The body of a checkout request; [None] is a property that is absent. *)
Record CheckoutBody := {
  body_items : option (list CartItem.t);
  body_customer : option Customer.t
}.

Definition YOUR_DOMAIN : string := "https://pandishu-web-1d860.web.app".

Section Handlers.

Variable env : Env.

(** [stripe.webhooks.constructEvent(rawBody, sig, endpointSecret)]: the
    verified event, or the error thrown when the signature does not verify. *)
Variable constructEvent :
  string -> option string -> option string -> JsError + StripeEvent.

Definition IM_CLIENT_ID : option string := INGRAM_CLIENT_ID env.
Definition IM_CLIENT_SECRET : option string := INGRAM_CLIENT_SECRET env.
Definition IM_SECRET_KEY : option string := INGRAM_SECRET_KEY env.
Definition IM_CUSTOMER_NUM : string := or_default (INGRAM_CUSTOMER_NUMBER env) "SBX".
Definition IM_COUNTRY_CODE : string := or_default (INGRAM_COUNTRY_CODE env) "US".

(** The [cors] middleware: a preflight request is answered at once. *)
Definition cors {B : Type} (req : Request B) (next : proc Response) : proc Response :=
  if String.eqb (method req) "OPTIONS" then respond 204 (Text EmptyString) else next.

Definition set_token (tok : string) (m : Memory) : Memory :=
  {| cachedToken := Some tok; tokenExpiry := tokenExpiry m;
     apiClient := apiClient m; console := console m |}.

Definition set_expiry (t : Z) (m : Memory) : Memory :=
  {| cachedToken := cachedToken m; tokenExpiry := t;
     apiClient := apiClient m; console := console m |}.

Definition set_client (c : ApiClient) (m : Memory) : Memory :=
  {| cachedToken := cachedToken m; tokenExpiry := tokenExpiry m;
     apiClient := Some c; console := console m |}.

(** [err.message || err] inside a template string. *)
Definition error_text (e : JsError) : string :=
  if truthy_string (message e) then message e else "Error".

(** [cachedToken && Date.now() < tokenExpiry]. *)
Definition cache_valid (m : Memory) (now : Z) : bool :=
  truthy_opt (cachedToken m) && (now <? tokenExpiry m).

(** The callback of the credential exchange. *)
Definition token_callback (r : JsError + TokenData) : proc string :=
  match r with
  | inl err =>
      log LogError "getAccesstoken raw error:";;
      Throw (Error ("Auth error: " +:+ error_text err))
  | inr data =>
      log LogInfo "Token obtained successfully";;
      modify (set_token (access_token data));;
      now ← date_now;
      modify (set_expiry (now + 55 * 60 * 1000));;
      m ← get_memory;
      mret (default EmptyString (cachedToken m))
  end.

(** The SDK verifies the required parameters of an operation before it
    sends anything: one that is [undefined] or [null] is an [Error] thrown
    to the caller of the operation. *)
Definition missing_parameter (name operation : string) : JsError :=
  Error ("Missing the required parameter '" +:+ name +:+ "' when calling " +:+
         operation).

Definition required (name operation : string) (v : option string) : proc unit :=
  match v with
  | Some _ => mret tt
  | None => Throw (missing_parameter name operation)
  end.

(** [AccesstokenApi.getAccesstoken(grantType, clientId, clientSecret,
    callback)]: the credential exchange, sent once the parameters are
    verified.  Thrown inside the promise executor, a missing parameter
    rejects the promise of [getAccessToken]. *)
Definition getAccesstoken (clientId clientSecret : option string)
  (callback : JsError + TokenData -> proc string) : proc string :=
  required "clientId" "getAccesstoken" clientId;;
  required "clientSecret" "getAccesstoken" clientSecret;;
  AwaitToken "client_credentials" clientId clientSecret callback.

(** [getAccessToken]: the cached bearer token, or a fresh one. *)
Definition getAccessToken : proc string :=
  m ← get_memory;
  now ← date_now;
  if cache_valid m now
  then mret (default EmptyString (cachedToken m))
  else
    log LogInfo ("Fetching new access token with Client ID: " +:+
                 (if truthy_opt IM_CLIENT_ID then "Present" else "MISSING"));;
    getAccesstoken IM_CLIENT_ID IM_CLIENT_SECRET token_callback.

(** Both parameters of the credential exchange are set in the environment. *)
Definition credentials_set : bool :=
  match IM_CLIENT_ID, IM_CLIENT_SECRET with
  | Some _, Some _ => true
  | _, _ => false
  end.

(** What a caller of [getAccessToken] gets from the reply to its exchange. *)
Definition token_result (r : JsError + TokenData) : proc string :=
  match r with
  | inl err => Throw (Error ("Auth error: " +:+ error_text err))
  | inr data => Ret (access_token data)
  end.

Definition ingram_headers : gmap string string :=
  let base : gmap string string :=
    <["IM-SenderID" := "Pandishu"]>
      (<["IM-CountryCode" := IM_COUNTRY_CODE]>
        (<["IM-CustomerNumber" := IM_CUSTOMER_NUM]> ∅)) in
  match IM_SECRET_KEY with
  | Some k => <["IM-SecretKey" := k]> base
  | None => base
  end.

(** [getApiClient]: the SDK client configured with the active token. *)
Definition getApiClient : proc ApiClient :=
  token ← getAccessToken;
  let client :=
    {| basePath := "https://api.ingrammicro.com:443/sandbox";
       accessToken := token;
       defaultHeaders := ingram_headers |} in
  modify (set_client client);;
  mret client.

Definition json_error (msg : string) : payload :=
  Json (JObj [("error", JStr msg)]).

(** [err.response?.body || err.response || null]. *)
Definition error_details (e : JsError) : jsvalue :=
  js_or (js_or (get_optional (response e) "body") (response e)) JNull.

Definition message_or (e : JsError) (d : string) : string :=
  if truthy_string (message e) then message e else d.

(** *** FUNCTION 1: searchProducts *)

Definition truthy_list (o : option string) : option (list string) :=
  match o with
  | Some s => if truthy_string s then Some [s] else None
  | None => None
  end.

(** The [opts] object built from [req.query]. *)
Definition search_opts (q : gmap string string) : SearchOpts :=
  {| keyword := truthy_list (q !! "keyword");
     vendor := truthy_list (q !! "vendor");
     pageNumber := number_or (parseInt (q !! "pageNumber")) (of_Z 1);
     pageSize := Math_min (number_or (parseInt (q !! "pageSize")) (of_Z 24))
                          (of_Z 100) |}.

Definition searchProducts {B : Type} (req : Request B) : proc Response :=
  cors req (
    if negb (String.eqb (method req) "GET")
    then respond 405 (json_error "Method not allowed")
    else
      try_catch
        (getApiClient;;
         let opts := search_opts (query req) in
         now ← date_now;
         let correlationId := "pandishu-search-" +:+ pretty now in
         r ← AwaitSearch IM_CUSTOMER_NUM IM_COUNTRY_CODE correlationId opts settle;
         respond 200 (Json r))
        (fun err =>
           log LogError "searchProducts full error:";;
           log LogError ("searchProducts message: " +:+ error_text err);;
           respond 500 (Json (JObj [("error", JStr (message_or err "Internal error"));
                                    ("details", error_details err)])))).

(** *** FUNCTION 2: getPriceAndAvailability *)

Definition is_array (v : jsvalue) : option (list jsvalue) :=
  match v with
  | JArr l => Some l
  | _ => None
  end.

(** [ApiClient.convertToType(data, 'String')] of the SDK: [undefined] and
    [null] are passed on, anything else becomes [String(data)]. *)
Definition convert_to_String (data : jsvalue) : JsError + jsvalue :=
  match data with
  | JUndefined | JNull => inr data
  | _ =>
      match to_String data with
      | inl err => inl err
      | inr s => inr (JStr s)
      end
  end.

(** The products of
    [PriceAndAvailabilityRequest.constructFromObject({ products:
    skus.map(sku => ({ ingramPartNumber: sku })) })]: the SDK builds one
    product for each sku and converts its part number to a string. *)
Fixpoint request_products (skus : list jsvalue) : JsError + list jsvalue :=
  match skus with
  | [] => inr []
  | sku :: rest =>
      match convert_to_String sku with
      | inl err => inl err
      | inr part =>
          match request_products rest with
          | inl err => inl err
          | inr products => inr (JObj [("ingramPartNumber", part)] :: products)
          end
      end
  end.

Definition getPriceAndAvailability (req : Request jsvalue) : proc Response :=
  cors req (
    if negb (String.eqb (method req) "POST")
    then respond 405 (json_error "Method not allowed")
    else
      skus ← settle (destructure (body req) "skus" "req.body");
      match is_array skus with
      | None | Some [] => respond 400 (json_error "Se requiere el array skus")
      | Some l =>
          if (50 <? length l)%nat
          then respond 400 (json_error "Máximo 50 SKUs por petición")
          else
            try_catch
              (getApiClient;;
               products ← settle (request_products l);
               now ← date_now;
               let correlationId := "pandishu-pa-" +:+ pretty now in
               r ← AwaitPriceAvail IM_CUSTOMER_NUM IM_COUNTRY_CODE correlationId
                     products settle;
               respond 200 (Json r))
              (fun err =>
                 log LogError ("getPriceAndAvailability error: " +:+ error_text err);;
                 respond 500 (json_error (message_or err "Internal error")))
      end).

(** *** FUNCTION 3: ingramWebhook *)

Definition header_or (a b : option string) : string :=
  or_default a (or_default b EmptyString).

Definition signature_mismatch (signature : string) : bool :=
  match IM_SECRET_KEY with
  | Some k =>
      truthy_string k && truthy_string signature && negb (includes k signature)
  | None => false
  end.

Definition mismatch_warning : level * string :=
  (LogWarn, "[Ingram Webhook] Signature mismatch — logging anyway (sandbox)").

Definition ingramWebhook (req : Request jsvalue) : proc Response :=
  if negb (String.eqb (method req) "POST")
  then respond 405 (Text "Method Not Allowed")
  else
    try_catch
      (let signature :=
         header_or (headers req !! "x-hub-signature")
                   (headers req !! "authorization") in
       (if signature_mismatch signature
        then log (fst mismatch_warning) (snd mismatch_warning)
        else mret tt);;
       let event := body req in
       log LogInfo "[Ingram Webhook] Event:";;
       topic ← settle (get_prop event "topic");
       kind ← (if truthy topic then mret topic
               else settle (get_prop event "eventType"));
       settle_add ← AwaitAdd "ingram_events"
         (EventDoc {| eventType := js_or kind (JStr "unknown");
                      rawPayload := event |}) settle;
       respond 200 (Json (JObj [("status", JStr "received")])))
      (fun err =>
         log LogError ("[Ingram Webhook] Error: " +:+ message err);;
         respond 500 (json_error (message err))).

(** *** Payments *)

(** [getStripe]: whether a client could be built from [STRIPE_SECRET_KEY]. *)
Definition getStripe : proc bool :=
  if truthy_opt (STRIPE_SECRET_KEY env) then mret true
  else log LogWarn "Missing STRIPE_SECRET_KEY env variable";; mret false.

(** *** FUNCTION 4: createCheckoutSession *)

Definition line_item (item : CartItem.t) : LineItem :=
  {| currency := "usd";
     product_name := CartItem.name item;
     product_description :=
       "SKU: " +:+ CartItem.sku item +:+ " | Vendor: " +:+ CartItem.vendor item;
     product_sku := CartItem.sku item;
     product_vendor := CartItem.vendor item;
     unit_amount := Math_round (mul (CartItem.price item) (of_Z 100));
     line_quantity := CartItem.quantity item |}.

(** The line item [li] carries the cart item [item] in cents: its amount is
    [Math.round(price * 100)], the integer nearest to the product, and its
    quantity is the item's. *)
Definition amount_in_cents (item : CartItem.t) (li : LineItem) : Prop :=
  unit_amount li = Math_round (mul (CartItem.price item) (of_Z 100)) /\
  line_quantity li = CartItem.quantity item /\
  forall y, value (mul (CartItem.price item) (of_Z 100)) = Some y ->
    exists n, unit_amount li = Int n /\
      (inject_Z n - (1 # 2) <= y)%Q /\ (y < inject_Z n + (1 # 2))%Q.

(** The compact copy of an item kept in the session metadata. *)
Definition compact_item (i : CartItem.t) : jsvalue :=
  JObj [("sku", JStr (CartItem.sku i));
        ("qty", JNum (CartItem.quantity i));
        ("price", JNum (CartItem.price i));
        ("name", JStr (CartItem.name i));
        ("vendor", JStr (CartItem.vendor i))].

(** The JSON text of the compact copy of an item. *)
Definition item_text (i : CartItem.t) : string :=
  "{" +:+ quote "sku" +:+ ":" +:+ quote (CartItem.sku i) +:+ "," +:+
          quote "qty" +:+ ":" +:+ Number_toString (CartItem.quantity i) +:+ "," +:+
          quote "price" +:+ ":" +:+ Number_toString (CartItem.price i) +:+ "," +:+
          quote "name" +:+ ":" +:+ quote (CartItem.name i) +:+ "," +:+
          quote "vendor" +:+ ":" +:+ quote (CartItem.vendor i) +:+ "}".

(** A cart item of a valid checkout request: its price and its quantity are
    finite Numbers that are not negative. *)
Definition valid_item (i : CartItem.t) : Prop :=
  nonnegative_double (CartItem.price i) = true /\
  nonnegative_double (CartItem.quantity i) = true.

(** The fields of an item that an Order keeps. *)
Definition item_tuple (i : CartItem.t) : string * number * number * string * string :=
  (CartItem.sku i, CartItem.quantity i, CartItem.price i,
   CartItem.name i, CartItem.vendor i).

(** The same fields read back from one element of [order.items]. *)
Definition tuple_of_json (v : jsvalue)
  : option (string * number * number * string * string) :=
  match get_prop v "sku", get_prop v "qty", get_prop v "price",
        get_prop v "name", get_prop v "vendor" with
  | inr (JStr s), inr (JNum q), inr (JNum p), inr (JStr n), inr (JStr d) =>
      Some (s, q, p, n, d)
  | _, _, _, _, _ => None
  end.

Definition tuples_of_json (v : jsvalue)
  : option (list (string * number * number * string * string)) :=
  match v with
  | JArr l => mapM tuple_of_json l
  | _ => None
  end.

Definition items_json (items : list CartItem.t) : string :=
  default EmptyString (JSON_stringify (JArr (map compact_item items))).

Definition checkout_metadata (c : Customer.t) (a : Address.t)
  (items : list CartItem.t) : gmap string string :=
  <["items_json" := items_json items]>
  (<["shipping_notes" := or_default (Address.notes a) EmptyString]>
  (<["shipping_state" := Address.state a]>
  (<["shipping_city" := Address.city a]>
  (<["shipping_zip" := Address.zip a]>
  (<["shipping_colonia" := Address.colonia a]>
  (<["shipping_street" := Address.street a]>
  (<["customer_phone" := Customer.phone c]>
  (<["customer_email" := Customer.email c]>
  (<["customer_name" := Customer.name c]> ∅))))))))).

Definition reading_undefined (prop : string) : JsError :=
  Error ("Cannot read properties of undefined (reading '" +:+ prop +:+ "')").

(** The argument of [sessions.create]; evaluating [customer.name] or
    [customer.address.street] on an absent object throws. *)
Definition session_params (items : list CartItem.t) (customer : option Customer.t)
  : JsError + SessionParams :=
  match customer with
  | None => inl (reading_undefined "name")
  | Some c =>
      match Customer.address c with
      | None => inl (reading_undefined "street")
      | Some a =>
          inr {| payment_method_types := ["card"];
                 line_items := map line_item items;
                 mode := "payment";
                 success_url := YOUR_DOMAIN +:+
                   "/order-confirmation.html?session_id={CHECKOUT_SESSION_ID}";
                 cancel_url := YOUR_DOMAIN +:+ "/checkout.html";
                 submit_type := "pay";
                 params_metadata := checkout_metadata c a items;
                 params_customer_email := Customer.email c |}
      end
  end.

Definition createCheckoutSession (req : Request CheckoutBody) : proc Response :=
  cors req (
    if negb (String.eqb (method req) "POST")
    then respond 405 (json_error "Method not allowed")
    else
      stripe ← getStripe;
      if negb stripe
      then respond 500 (json_error "Stripe is not configured in environment variables")
      else
        try_catch
          (match body_items (body req) with
           | None | Some [] => respond 400 (json_error "El carrito está vacío")
           | Some items =>
               params ← settle (session_params items (body_customer (body req)));
               session ← AwaitSession params settle;
               respond 200 (Json (JObj [("url", JStr (url session))]))
           end)
          (fun err =>
             log LogError "Error createCheckoutSession:";;
             respond 500 (json_error (message err)))).

(** *** FUNCTION 5: stripeWebhook *)

Definition syntax_error : JsError := Error "Unexpected token in JSON".

(** [JSON.parse(metadata.items_json)]; an absent property is the text
    [undefined], which is not JSON. *)
Definition parse_items (md : gmap string string) : JsError + jsvalue :=
  match JSON_parse (default "undefined" (md !! "items_json")) with
  | Some v => inr v
  | None => inl syntax_error
  end.

Definition order_of_session (session : Session) (parsed : jsvalue) : Order :=
  let md := metadata session in
  {| stripeSessionId := id session;
     paymentIntentId := payment_intent session;
     amountTotal := div (amount_total session) (of_Z 100);
     status := "paid";
     customerInfo :=
       {| info_name := md !! "customer_name";
          info_email := md !! "customer_email";
          info_phone := md !! "customer_phone" |};
     shippingAddress :=
       {| ship_street := md !! "shipping_street";
          ship_colonia := md !! "shipping_colonia";
          ship_zip := md !! "shipping_zip";
          ship_city := md !! "shipping_city";
          ship_state := md !! "shipping_state";
          ship_notes := md !! "shipping_notes" |};
     items := parsed;
     ingramStatus := "pending" |}.

Definition received : payload := Json (JObj [("received", JBool true)]).

Definition acknowledged : Response := {| statusCode := 200; sent := received |}.

(** The outcome of signature verification for [req]. *)
Definition verdict {B : Type} (req : Request B) : JsError + StripeEvent :=
  constructEvent (rawBody req) (headers req !! "stripe-signature")
    (STRIPE_WEBHOOK_SECRET env).

Definition stripeWebhook {B : Type} (req : Request B) : proc Response :=
  stripe ← getStripe;
  if negb stripe then respond 500 (Text "Stripe is not configured")
  else
    match verdict req with
    | inl err =>
        log LogError "Webhook signature verification failed:";;
        respond 400 (Text ("Webhook Error: " +:+ message err))
    | inr event =>
        if String.eqb (type event) "checkout.session.completed" then
          let session := data_object event in
          log LogInfo ("Pago Exitoso! Sesión ID: " +:+ id session);;
          failed ← try_catch
            (parsed ← settle (parse_items (metadata session));
             orderRef ← AwaitAdd "orders"
               (OrderDoc (order_of_session session parsed)) settle;
             log LogInfo ("Orden guardada en Firestore. Documento: " +:+ orderRef);;
             mret None)
            (fun dbError =>
               log LogError "Error guardando la orden en Firestore:";;
               mret (Some {| statusCode := 500;
                             sent := Json (JObj [("error", JStr "Database write failed");
                                                 ("details", JStr (message dbError))]) |}));
          match failed with
          | Some r => mret r
          | None => respond 200 received
          end
        else respond 200 received
    end.

End Handlers.

(** Code suspended on the write of [order] that acknowledges once the write
    has succeeded. *)
Definition writing (order : Order) (p : proc Response) : Prop :=
  exists k, p = AwaitAdd "orders" (OrderDoc order) k /\
    forall docid now w, exists m,
      run_sync (k (inr docid)) now w = (set_mem m w, Ret acknowledged).

(** The state of one delivery handled by [handler]: not started, writing
    its order, or acknowledged. *)
Definition delivery_state (handler : proc Response) (order : Order)
  (t : bool * proc Response) : Prop :=
  t = (false, handler) \/
  (fst t = true /\ writing order (snd t)) \/
  t = (true, Ret acknowledged).

(** Every acknowledged delivery has added its own order to the store. *)
Definition deliveries_invariant (handler : proc Response) (order : Order)
  (base : list document) (st : Sched Response) : Prop :=
  Forall (delivery_state handler order) (tasks st) /\
  collection (world st) "orders" =
    base ++ repeat (OrderDoc order) (settled_count (tasks st)).

(** The state of one caller of [getAccessToken]: not started, waiting for
    the reply to its exchange, or settled. *)
Definition caller_state (env : Env) (t : bool * proc string) : Prop :=
  t = (false, getAccessToken env) \/
  t = (true, AwaitToken "client_credentials" (IM_CLIENT_ID env)
               (IM_CLIENT_SECRET env) token_callback) \/
  (fst t = true /\ finished (snd t) = true).

(** Every request of a schedule starts while no valid token is cached. *)
Fixpoint starts_miss {R : Type} (evs : list event) (st : Sched R) : Prop :=
  match evs with
  | [] => True
  | ev :: rest =>
      match ev with
      | Start _ now => cache_valid (mem (world st)) now = false
      | Resume _ _ _ => True
      end /\
      match step ev st with
      | Some st' => starts_miss rest st'
      | None => True
      end
  end.

(** No reply in a schedule reports a failed store write. *)
Definition writes_succeed (ev : event) : Prop :=
  match ev with
  | Resume _ _ (AddReply (inl _)) => False
  | _ => True
  end.

(** A request of a schedule that starts while the token cached in [m] is
    valid. *)
Definition start_hits (m : Memory) (ev : event) : Prop :=
  match ev with
  | Start _ now => cache_valid m now = true
  | Resume _ _ _ => True
  end.

(** The state of one caller of [getAccessToken] served from the cache [m]:
    not started, or returned with the cached token. *)
Definition served (env : Env) (m : Memory) (t : bool * proc string) : Prop :=
  t = (false, getAccessToken env) \/
  exists tok, cachedToken m = Some tok /\ t = (true, Ret tok).

(** What an event does to the cached token and its expiry: a successful
    credential exchange answered at [now] stores its token for 55 minutes;
    nothing else touches the cache. *)
Definition cache_step (c : option string * Z) (ev : event) : option string * Z :=
  match ev with
  | Resume _ now (TokenReply (inr data)) =>
      (Some (access_token data), now + 55 * 60 * 1000)
  | _ => c
  end.

(** The cached token and its expiry. *)
Definition cache_of (m : Memory) : option string * Z :=
  (cachedToken m, tokenExpiry m).

(** The orders of the deliveries that have been answered, in the order of
    the deliveries. *)
Fixpoint answered_orders (os : list Order) (ts : list (bool * proc Response)) :
  list document :=
  match os, ts with
  | o :: os', t :: ts' =>
      (if finished (snd t) then [OrderDoc o] else []) ++ answered_orders os' ts'
  | _, _ => []
  end.

(** A handler that serves a delivery by writing [order]: started in any
    world, it issues the write and waits for its reply. *)
Definition serves (order : Order) (handler : proc Response) : Prop :=
  finished handler = false /\
  forall now w, exists m p,
    run_sync handler now w = (issue (CallAdd "orders" (OrderDoc order)) (set_mem m w), p) /\
    writing order p.

(** Every answered delivery has added its own order to the store; the
    orders are stored in the order in which their writes were answered. *)
Definition concurrent_invariant (hs : list (proc Response)) (os : list Order)
  (base : list document) (st : Sched Response) : Prop :=
  Forall3 (fun h o t => serves o h /\ delivery_state h o t) hs os (tasks st) /\
  exists written,
    collection (world st) "orders" = base ++ written /\
    Permutation written (answered_orders os (tasks st)).

End Functions.

(** ** Sample data: a configured deployment, a cart and its paid session *)

Module Examples.
Import Num NumberText JSON Runtime Globals Functions.

Definition env0 : Env :=
  {| INGRAM_CLIENT_ID := Some "client-id";
     INGRAM_CLIENT_SECRET := Some "client-secret";
     INGRAM_SECRET_KEY := Some "im-secret";
     INGRAM_CUSTOMER_NUMBER := None;
     INGRAM_COUNTRY_CODE := Some "MX";
     STRIPE_SECRET_KEY := Some "sk_test_1";
     STRIPE_WEBHOOK_SECRET := Some "whsec_1" |}.

(** The same deployment without the payment processor key. *)
Definition env_no_stripe : Env :=
  {| INGRAM_CLIENT_ID := INGRAM_CLIENT_ID env0;
     INGRAM_CLIENT_SECRET := INGRAM_CLIENT_SECRET env0;
     INGRAM_SECRET_KEY := INGRAM_SECRET_KEY env0;
     INGRAM_CUSTOMER_NUMBER := INGRAM_CUSTOMER_NUMBER env0;
     INGRAM_COUNTRY_CODE := INGRAM_COUNTRY_CODE env0;
     STRIPE_SECRET_KEY := None;
     STRIPE_WEBHOOK_SECRET := STRIPE_WEBHOOK_SECRET env0 |}.

(** The same deployment without the client id of the distributor. *)
Definition env_no_client_id : Env :=
  {| INGRAM_CLIENT_ID := None;
     INGRAM_CLIENT_SECRET := INGRAM_CLIENT_SECRET env0;
     INGRAM_SECRET_KEY := INGRAM_SECRET_KEY env0;
     INGRAM_CUSTOMER_NUMBER := INGRAM_CUSTOMER_NUMBER env0;
     INGRAM_COUNTRY_CODE := INGRAM_COUNTRY_CODE env0;
     STRIPE_SECRET_KEY := STRIPE_SECRET_KEY env0;
     STRIPE_WEBHOOK_SECRET := STRIPE_WEBHOOK_SECRET env0 |}.

(** A cold start: nothing cached, nothing stored. *)
Definition mem0 : Memory :=
  {| cachedToken := None; tokenExpiry := 0; apiClient := None; console := [] |}.

Definition w0 : World :=
  {| mem := mem0; firestore := ∅; stripe_sessions := []; calls := [] |}.

Definition request {B : Type} (m : string) (q h : list (string * string)) (b : B)
  : Request B :=
  {| method := m; query := list_to_map q; headers := list_to_map h;
     rawBody := EmptyString; body := b |}.

(** The Number a decimal literal denotes. *)
Definition literal (s : string) : number :=
  default S754_nan (parse_number_token s).

Definition widget : CartItem.t :=
  {| CartItem.sku := "A1"; CartItem.name := "Widget"; CartItem.vendor := "Acme";
     CartItem.price := literal "19.995"; CartItem.quantity := literal "2" |}.

Definition home : Address.t :=
  {| Address.street := "Av. Reforma 1"; Address.colonia := "Centro";
     Address.zip := "06000"; Address.city := "CDMX"; Address.state := "CDMX";
     Address.notes := None |}.

Definition ana : Customer.t :=
  {| Customer.name := "Ana"; Customer.email := "ana@example.com";
     Customer.phone := "5550000"; Customer.address := Some home |}.

Definition cart : CheckoutBody :=
  {| body_items := Some [widget]; body_customer := Some ana |}.

(** The session the payment processor holds for [cart], once paid. *)
Definition sess_123 : Session :=
  {| id := "sess_123";
     url := "https://checkout.stripe.com/c/pay/sess_123";
     payment_intent := "pi_1";
     amount_total := literal "4000";
     metadata := checkout_metadata ana home [widget] |}.

Definition completed : StripeEvent :=
  {| type := "checkout.session.completed"; data_object := sess_123 |}.

(** A session created elsewhere on the same account: no [items_json]. *)
Definition foreign_session : Session :=
  {| id := "sess_999";
     url := "https://checkout.stripe.com/c/pay/sess_999";
     payment_intent := "pi_9";
     amount_total := literal "500";
     metadata := ∅ |}.

Definition foreign_completed : StripeEvent :=
  {| type := "checkout.session.completed"; data_object := foreign_session |}.

Definition refunded : StripeEvent :=
  {| type := "charge.refunded"; data_object := sess_123 |}.

(** A verifier for the samples: the header [sig_ok] stands for a signature
    that verifies against the configured secret, and the payload decodes to
    [ev]. *)
Definition verifier (ev : StripeEvent) (raw : string) (sig secret : option string)
  : JsError + StripeEvent :=
  match sig, secret with
  | Some "sig_ok", Some _ => inr ev
  | _, _ =>
      inl (Error "No signatures found matching the expected signature for payload")
  end.

Definition signed_delivery : Request unit :=
  request "POST" [] [("stripe-signature", "sig_ok")] tt.

Definition forged_delivery : Request unit :=
  request "POST" [] [("stripe-signature", "sig_bad")] tt.

Definition token (t : string) (seconds : Z) : answer :=
  TokenReply (inr {| access_token := t; expires_in := seconds |}).

(** The empty string cached as a token, until the clock reads 5000000. *)
Definition w_empty_token : World :=
  set_mem (set_expiry 5000000 (set_token EmptyString mem0)) w0.

(** An upstream failure whose response came without a body: the details
    answered are the response itself. *)
Definition failed_response : jsvalue :=
  JObj [("status", JNum (of_Z 500)); ("text", JStr EmptyString);
        ("body", JStr EmptyString)].

Definition upstream_failure : JsError :=
  mkError "Internal Server Error" failed_response.

(** A warm start: the token [T1] is cached until the clock reads 5000000. *)
Definition w_warm : World :=
  set_mem (set_expiry 5000000 (set_token "T1" mem0)) w0.

(** A second product and the paid session of a cart that holds it. *)
Definition gadget : CartItem.t :=
  {| CartItem.sku := "B2"; CartItem.name := "Gadget"; CartItem.vendor := "Acme";
     CartItem.price := literal "5.50"; CartItem.quantity := literal "1" |}.

Definition sess_456 : Session :=
  {| id := "sess_456";
     url := "https://checkout.stripe.com/c/pay/sess_456";
     payment_intent := "pi_2";
     amount_total := literal "550";
     metadata := checkout_metadata ana home [gadget] |}.

Definition completed_456 : StripeEvent :=
  {| type := "checkout.session.completed"; data_object := sess_456 |}.

(** A verifier that decodes the payload: [evt_456] is the completion of
    [sess_456], any other payload that of [sess_123]. *)
Definition payload_verifier (raw : string) (sig secret : option string)
  : JsError + StripeEvent :=
  verifier (if String.eqb raw "evt_456" then completed_456 else completed)
    raw sig secret.

Definition signed_payload (raw : string) : Request unit :=
  {| method := "POST"; query := ∅;
     headers := {["stripe-signature" := "sig_ok"]};
     rawBody := raw; body := tt |}.

End Examples.

(* ===================================================================== *)
(** * Part II. Properties                                                 *)
(* ===================================================================== *)

Import Num NumberText JSON Runtime Globals Functions.

(** ** The runtime *)

Lemma replay_finished {R : Type} (script : list (Z * answer)) (w : World) (p : proc R) :
  finished p = true -> replay script (w, p) = (w, p).
Proof.
  intros Hf. destruct script as [|[t a] rest]; [reflexivity|].
  destruct p; try discriminate; reflexivity.
Qed.

Lemma replay_ret {R : Type} (script : list (Z * answer)) (w : World) (r : R) :
  replay script (w, Ret r) = (w, Ret r).
Proof. now apply replay_finished. Qed.

(** A request that has returned ignores the rest of its script. *)
Ltac settled :=
  simpl; rewrite ?replay_ret; repeat (first [eexists | split]); simpl; eauto.

(** With both credentials set, name them. *)
Ltac with_credentials Hcred :=
  unfold credentials_set in Hcred;
  destruct (IM_CLIENT_ID _) as [?cid|]; [|discriminate Hcred];
  destruct (IM_CLIENT_SECRET _) as [?sec|]; [|discriminate Hcred].

(** With a credential missing, split on which. *)
Ltac without_credentials Hcred :=
  unfold credentials_set in Hcred;
  destruct (IM_CLIENT_ID _) as [?cid|];
    [destruct (IM_CLIENT_SECRET _) as [?sec|]; [discriminate Hcred|]|].

(** ** FUNCTION 4: a checkout request without its customer *)

(** C10. A checkout request with a non-empty cart whose customer object, or
    whose customer's address object, is absent is answered with status 500
    (not 400), and nothing is sent to the payment processor: no call is
    issued and no session is created. *)
Theorem createCheckoutSession_missing_customer
  (env : Env) (req : Request CheckoutBody) (items : list CartItem.t)
  (now : Z) (script : list (Z * answer)) (w : World) :
  method req = "POST" ->
  body_items (body req) = Some items ->
  items <> [] ->
  (body_customer (body req) = None \/
   exists c, body_customer (body req) = Some c /\ Customer.address c = None) ->
  exists w' r,
    exec (createCheckoutSession env req) now script w = (w', Ret r) /\
    statusCode r = 500 /\
    calls w' = calls w /\
    stripe_sessions w' = stripe_sessions w.
Proof.
  intros Hm Hi Hne Hc.
  unfold exec, createCheckoutSession, cors. rewrite Hm. simpl.
  unfold getStripe.
  destruct (truthy_opt (STRIPE_SECRET_KEY env)) eqn:Hk; simpl.
  - rewrite Hi. destruct items as [|i items]; [done|].
    destruct Hc as [Hc|(c & Hc & Ha)]; rewrite Hc; simpl; [|rewrite Ha; simpl];
      settled.
  - settled.
Qed.

Lemma createCheckoutSession_missing_customer_witness :
  exists w' r,
    exec (createCheckoutSession Examples.env0
            (Examples.request "POST" [] []
               {| body_items := Some [Examples.widget]; body_customer := None |}))
         1000 [] Examples.w0 = (w', Ret r) /\
    statusCode r = 500 /\
    calls w' = calls Examples.w0 /\
    stripe_sessions w' = stripe_sessions Examples.w0.
Proof.
  apply (createCheckoutSession_missing_customer Examples.env0
           (Examples.request "POST" [] []
              {| body_items := Some [Examples.widget]; body_customer := None |})
           [Examples.widget]).
  - reflexivity.
  - reflexivity.
  - discriminate.
  - left. reflexivity.
Defined.

(** ** FUNCTION 2: the size of the sku list *)

Lemma destructure_get_prop (v x : jsvalue) (k src : string) :
  get_prop v k = inr x -> destructure v k src = inr x.
Proof. destruct v; simpl; first [discriminate | trivial]. Qed.

(** Skus that are strings are sent as they are. *)
Lemma request_products_strings (skus : list string) :
  request_products (map JStr skus) =
    inr (map (fun sku => JObj [("ingramPartNumber", JStr sku)]) skus).
Proof. induction skus as [|sku skus IH]; simpl; [|rewrite IH]; reflexivity. Qed.





Lemma collection_add (w : World) (c : string) (d : document) :
  collection (add_document c d w) c = collection w c ++ [d].
Proof. unfold collection, add_document. simpl. now rewrite lookup_insert_eq. Qed.

Lemma collection_add_ne (w : World) (c c' : string) (d : document) :
  c <> c' -> collection (add_document c d w) c' = collection w c'.
Proof.
  intros Hne. unfold collection, add_document. simpl.
  now rewrite lookup_insert_ne.
Qed.

(** ** FUNCTION 3: the distributor webhook *)

(** C9. Whatever the signature header of a distributor event is, the event
    is recorded and acknowledged: when the store accepts the write the
    answer is 200 and the audit log has grown by the record of this event;
    the answer is 500 only when the write fails.  A signature that does not
    match the shared secret only leaves a warning on the console. *)
Theorem ingramWebhook_signature_advisory
  (env : Env) (req : Request jsvalue) (now now1 : Z) (r : JsError + string)
  (w : World) :
  method req = "POST" ->
  body req <> JUndefined -> body req <> JNull ->
  let signature := header_or (headers req !! "x-hub-signature")
                             (headers req !! "authorization") in
  exists w' resp,
    exec (ingramWebhook env req) now [(now1, AddReply r)] w = (w', Ret resp) /\
    (signature_mismatch env signature = true ->
     In mismatch_warning (console (mem w'))) /\
    match r with
    | inr _ =>
        statusCode resp = 200 /\
        exists kind,
          collection w' "ingram_events" =
            collection w "ingram_events" ++
            [EventDoc {| eventType := kind; rawPayload := body req |}]
    | inl _ =>
        statusCode resp = 500 /\ firestore w' = firestore w
    end.
Proof.
  intros Hm Hu Hn signature.
  unfold exec, ingramWebhook. rewrite Hm. simpl.
  fold signature.
  assert (Hp : forall k, exists v, get_prop (body req) k = inr v).
  { intros k. destruct (body req); try contradiction; simpl; eauto. }
  destruct (Hp "topic") as [topic Ht]. destruct (Hp "eventType") as [et He].
  destruct (signature_mismatch env signature) eqn:Hsig; simpl;
    rewrite Ht; simpl; destruct (truthy topic) eqn:Htr; simpl; rewrite ?He; simpl.
  all: destruct r as [e|docid]; simpl.
  all: do 2 eexists; split; [reflexivity|]; simpl.
  all: split;
    [ first [ discriminate
            | intros _; unfold mismatch_warning; rewrite !in_app_iff; simpl; tauto ]
    | split; [reflexivity|] ].
  all: try reflexivity.
  all: eexists; rewrite collection_add; reflexivity.
Qed.

Lemma ingramWebhook_signature_advisory_witness :
  exists w' resp,
    exec (ingramWebhook Examples.env0
            (Examples.request "POST" [] [("x-hub-signature", "sha1=forged")]
               (JObj [("topic", JStr "OrderStatus")])))
         1000 [(2000, AddReply (inr "doc1"))] Examples.w0 = (w', Ret resp) /\
    In mismatch_warning (console (mem w')) /\
    statusCode resp = 200 /\
    collection w' "ingram_events" =
      [EventDoc {| eventType := JStr "OrderStatus";
                   rawPayload := JObj [("topic", JStr "OrderStatus")] |}].
Proof.
  destruct (ingramWebhook_signature_advisory Examples.env0
              (Examples.request "POST" [] [("x-hub-signature", "sha1=forged")]
                 (JObj [("topic", JStr "OrderStatus")]))
              1000 2000 (inr "doc1") Examples.w0)
    as (w' & resp & Hexec & Hwarn & Hcode & kind & Hlog);
    [reflexivity | discriminate | discriminate |].
  exists w', resp. split; [exact Hexec|].
  split; [apply Hwarn; reflexivity|].
  split; [exact Hcode|].
  vm_compute in Hexec. injection Hexec as Hw Hr. subst w'.
  reflexivity.
Defined.

(** ** FUNCTION 5: the payment webhook *)

Ltac outcome :=
  repeat split; intros;
  repeat match goal with
         | H : _ \/ _ |- _ => destruct H
         | H : exists _, _ |- _ => destruct H
         | H : _ /\ _ |- _ => destruct H
         end;
  try congruence; eauto 10.

Section StripeWebhook.

Context {B : Type}.
Variable env : Env.
Variable constructEvent :
  string -> option string -> option string -> JsError + StripeEvent.
Variable req : Request B.

Let verdict : JsError + StripeEvent := verdict env constructEvent req.

(** The status of every delivery.  A delivery to the payment webhook is
    answered with a non-success status exactly when the payment processor key
    is not configured, or signature verification fails, or the event is a
    completion event whose item list does not parse or whose order write
    fails.  A failed verification is answered with 400 without any store
    write or outgoing call; every other failure is answered with 500. *)
Lemma stripeWebhook_status (now now1 : Z) (db : JsError + string) (w : World) :
  exists w' resp,
    exec (stripeWebhook env constructEvent req) now [(now1, AddReply db)] w
      = (w', Ret resp) /\
    (success resp = false <->
       truthy_opt (STRIPE_SECRET_KEY env) = false \/
       (exists err, verdict = inl err) \/
       (exists ev, verdict = inr ev /\
          type ev = "checkout.session.completed" /\
          ((exists e, parse_items (metadata (data_object ev)) = inl e) \/
           (exists e, db = inl e)))) /\
    (success resp = true -> statusCode resp = 200) /\
    (truthy_opt (STRIPE_SECRET_KEY env) = true ->
     (exists err, verdict = inl err) ->
     statusCode resp = 400 /\ firestore w' = firestore w /\ calls w' = calls w) /\
    (success resp = false ->
     ~ (truthy_opt (STRIPE_SECRET_KEY env) = true /\ exists err, verdict = inl err) ->
     statusCode resp = 500).
Proof.
  unfold exec, stripeWebhook, getStripe. fold verdict.
  destruct (truthy_opt (STRIPE_SECRET_KEY env)) eqn:Hk; simpl.
  2:{ do 2 eexists. split; [reflexivity|]. unfold success. cbn. outcome. }
  destruct verdict as [err|ev] eqn:Hv; simpl.
  { do 2 eexists. split; [reflexivity|]. unfold success. cbn. outcome.
    exfalso; eauto. }
  destruct (String.eqb (type ev) "checkout.session.completed") eqn:Ht; simpl.
  2:{ do 2 eexists. split; [reflexivity|]. unfold success. cbn.
      apply String.eqb_neq in Ht. outcome. }
  apply String.eqb_eq in Ht.
  destruct (parse_items (metadata (data_object ev))) as [pe|parsed] eqn:Hp; simpl.
  { do 2 eexists. split; [reflexivity|]. unfold success. cbn. outcome. }
  destruct db as [e|docid]; simpl.
  { do 2 eexists. split; [reflexivity|]. unfold success. cbn. outcome. }
  do 2 eexists. split; [reflexivity|]. unfold success. cbn. outcome.
Qed.

(** C3, as the code has it.  Take a delivery whose completion event, if it
    is one, carries an item list that parses, as every session created by
    [createCheckoutSession] does.  It is answered with a non-success status
    exactly when the payment processor key is not configured (500), or
    signature verification fails (400, without any store write or outgoing
    call), or the order write fails (500).  Every other delivery, a
    non-completion event or a completion event whose order is written, is
    answered with 200. *)
Theorem stripeWebhook_outcomes (now now1 : Z) (db : JsError + string) (w : World) :
  (forall ev, verdict = inr ev -> type ev = "checkout.session.completed" ->
     exists parsed, parse_items (metadata (data_object ev)) = inr parsed) ->
  exists w' resp,
    exec (stripeWebhook env constructEvent req) now [(now1, AddReply db)] w
      = (w', Ret resp) /\
    (success resp = false <->
       truthy_opt (STRIPE_SECRET_KEY env) = false \/
       (exists err, verdict = inl err) \/
       (exists ev, verdict = inr ev /\
          type ev = "checkout.session.completed" /\ exists e, db = inl e)) /\
    (success resp = true -> statusCode resp = 200) /\
    (truthy_opt (STRIPE_SECRET_KEY env) = true ->
     (exists err, verdict = inl err) ->
     statusCode resp = 400 /\ firestore w' = firestore w /\ calls w' = calls w) /\
    (success resp = false ->
     ~ (truthy_opt (STRIPE_SECRET_KEY env) = true /\ exists err, verdict = inl err) ->
     statusCode resp = 500).
Proof.
  intros Hreadable.
  destruct (stripeWebhook_status now now1 db w)
    as (w' & resp & Hexec & Hiff & Hok & Hsig & Hfail).
  exists w', resp. split; [exact Hexec|]. split; [|auto].
  rewrite Hiff. split.
  - intros [H|[H|(ev & Hv & Ht & [[e He]|He])]].
    + left. exact H.
    + right. left. exact H.
    + destruct (Hreadable ev Hv Ht) as (parsed & Hp). congruence.
    + right. right. exists ev. auto.
  - intros [H|[H|(ev & Hv & Ht & He)]].
    + left. exact H.
    + right. left. exact H.
    + right. right. exists ev. auto.
Qed.

End StripeWebhook.

Lemma stripeWebhook_outcomes_witness :
  exists w' resp,
    exec (stripeWebhook Examples.env0 (Examples.verifier Examples.completed)
            Examples.signed_delivery)
         1000 [(2000, AddReply (inl (Error "unavailable")))] Examples.w0
      = (w', Ret resp) /\
    success resp = false /\ statusCode resp = 500.
Proof.
  destruct (stripeWebhook_outcomes Examples.env0
              (Examples.verifier Examples.completed) Examples.signed_delivery
              1000 2000 (inl (Error "unavailable")) Examples.w0)
    as (w' & resp & Hexec & Hiff & _ & _ & Hfail).
  - intros ev Hv _. injection Hv as <-. eexists. vm_compute. reflexivity.
  - assert (Hf : success resp = false).
    { apply Hiff. right. right. exists Examples.completed. eauto. }
    exists w', resp. split; [exact Hexec|]. split; [exact Hf|].
    apply Hfail; [exact Hf|]. intros [_ [err Herr]]. discriminate Herr.
Defined.

(** C3 as stated fails: without the payment processor key a delivery is
    answered with 500 although its signature verifies and no write failed
    (none was attempted); and a verified completion event of a session that
    carries no item list is answered with 500 without any write either. *)
Lemma stripeWebhook_other_failures :
  (exists w' resp,
     exec (stripeWebhook Examples.env_no_stripe (Examples.verifier Examples.completed)
             Examples.signed_delivery)
          1000 [(2000, AddReply (inr "doc1"))] Examples.w0 = (w', Ret resp) /\
     success resp = false /\
     Functions.verdict Examples.env_no_stripe (Examples.verifier Examples.completed)
       Examples.signed_delivery = inr Examples.completed /\
     calls w' = []) /\
  (exists w' resp,
     exec (stripeWebhook Examples.env0 (Examples.verifier Examples.foreign_completed)
             Examples.signed_delivery)
          1000 [(2000, AddReply (inr "doc1"))] Examples.w0 = (w', Ret resp) /\
     success resp = false /\
     Functions.verdict Examples.env0 (Examples.verifier Examples.foreign_completed)
       Examples.signed_delivery = inr Examples.foreign_completed /\
     calls w' = []).
Proof.
  split; do 2 eexists; (split; [vm_compute; reflexivity|]); repeat split.
Qed.

(** ** The token cache *)

Lemma cache_valid_spec (m : Memory) (now : Z) :
  cache_valid m now = true <->
  exists tok, cachedToken m = Some tok /\ tok <> EmptyString /\ now < tokenExpiry m.
Proof.
  unfold cache_valid. rewrite andb_true_iff, Z.ltb_lt. split.
  - intros [Ht Hlt]. destruct (cachedToken m) as [tok|]; [|discriminate].
    exists tok. split; [reflexivity|]. split; [|exact Hlt].
    intros ->. discriminate.
  - intros (tok & -> & Hne & Hlt). split; [|exact Hlt].
    destruct tok; [contradiction|reflexivity].
Qed.

(** C4, as the code has it.  [getAccessToken] returns the cached token
    without any outgoing call when a token that is not empty is cached and
    the clock is before the stored expiry.  Otherwise, with the client id
    and secret configured, it issues a credential exchange, and on success
    it stores the new token with an expiry 55 minutes after the reply,
    whatever lifetime the reply declares; with one of the two missing it
    fails at once, without any outgoing call, and leaves the cache as it
    was.  A token is never served from the cache at or after the stored
    expiry. *)
Theorem getAccessToken_cache (env : Env) (now : Z) (w : World) :
  (forall tok,
     cachedToken (mem w) = Some tok -> tok <> EmptyString ->
     now < tokenExpiry (mem w) ->
     forall script, exec (getAccessToken env) now script w = (w, Ret tok)) /\
  (cache_valid (mem w) now = false -> credentials_set env = true ->
   (exists w1 p,
      exec (getAccessToken env) now [] w = (w1, p) /\
      finished p = false /\
      calls w1 = calls w ++
        [CallToken "client_credentials" (IM_CLIENT_ID env) (IM_CLIENT_SECRET env)]) /\
   (forall now1 data, exists w',
      exec (getAccessToken env) now [(now1, TokenReply (inr data))] w
        = (w', Ret (access_token data)) /\
      cachedToken (mem w') = Some (access_token data) /\
      tokenExpiry (mem w') = now1 + 55 * 60 * 1000)) /\
  (cache_valid (mem w) now = false -> credentials_set env = false ->
   forall script, exists w1 err,
     exec (getAccessToken env) now script w = (w1, Throw err) /\
     calls w1 = calls w /\
     cachedToken (mem w1) = cachedToken (mem w) /\
     tokenExpiry (mem w1) = tokenExpiry (mem w)) /\
  (tokenExpiry (mem w) <= now -> cache_valid (mem w) now = false) /\
  (cache_valid (mem w) now = true <->
   exists tok, cachedToken (mem w) = Some tok /\ tok <> EmptyString /\
               now < tokenExpiry (mem w)).
Proof.
  split; [|split; [|split; [|split]]].
  - intros tok Hc Hne Hlt script.
    assert (Hv : cache_valid (mem w) now = true).
    { apply cache_valid_spec. exists tok. auto. }
    unfold exec, getAccessToken. simpl. rewrite Hv, Hc. simpl.
    apply replay_ret.
  - intros Hv Hcred. unfold credentials_set in Hcred.
    unfold exec, getAccessToken, getAccesstoken. simpl. rewrite Hv. simpl.
    destruct (IM_CLIENT_ID env) as [cid|]; [|discriminate].
    destruct (IM_CLIENT_SECRET env) as [sec|]; [|discriminate].
    simpl. split.
    + do 2 eexists. split; [reflexivity|]. split; reflexivity.
    + intros now1 data. eexists. split; [reflexivity|]. split; reflexivity.
  - intros Hv Hcred script. unfold credentials_set in Hcred.
    unfold exec, getAccessToken, getAccesstoken. simpl. rewrite Hv. simpl.
    destruct (IM_CLIENT_ID env) as [cid|]; simpl.
    + destruct (IM_CLIENT_SECRET env) as [sec|]; [discriminate|]. simpl.
      rewrite replay_finished by reflexivity.
      do 2 eexists. split; [reflexivity|]. repeat split.
    + rewrite replay_finished by reflexivity.
      do 2 eexists. split; [reflexivity|]. repeat split.
  - intros Hle. unfold cache_valid.
    apply andb_false_intro2. apply Z.ltb_ge. exact Hle.
  - apply cache_valid_spec.
Qed.

Lemma getAccessToken_cache_witness :
  exists w',
    exec (getAccessToken Examples.env0) 1000 [(2000, Examples.token "T1" 3600)]
         Examples.w0 = (w', Ret "T1") /\
    cachedToken (mem w') = Some "T1" /\
    tokenExpiry (mem w') = 3302000 /\
    (forall script,
       exec (getAccessToken Examples.env0) 3301999 script w' = (w', Ret "T1")) /\
    cache_valid (mem w') 3302000 = false /\
    (forall script, exists w1 err,
       exec (getAccessToken Examples.env_no_client_id) 1000 script Examples.w0
         = (w1, Throw err) /\
       calls w1 = []).
Proof.
  destruct (getAccessToken_cache Examples.env0 1000 Examples.w0)
    as (_ & Hmiss & _).
  destruct (Hmiss eq_refl eq_refl) as (_ & Hreply).
  destruct (Hreply 2000 {| access_token := "T1"; expires_in := 3600 |})
    as (w' & Hexec & Htok & Hexp).
  exists w'. split; [exact Hexec|]. split; [exact Htok|]. split; [exact Hexp|].
  destruct (getAccessToken_cache Examples.env0 3301999 w') as (Hhit & _).
  destruct (getAccessToken_cache Examples.env0 3302000 w') as (_ & _ & _ & Hnever & _).
  destruct (getAccessToken_cache Examples.env_no_client_id 1000 Examples.w0)
    as (_ & _ & Hunset & _).
  split; [|split].
  - intros script. apply (Hhit "T1" Htok); [discriminate|].
    rewrite Hexp. reflexivity.
  - apply Hnever. rewrite Hexp. reflexivity.
  - intros script.
    destruct (Hunset eq_refl eq_refl script) as (w1 & err & Hrun & Hcalls & _).
    exists w1, err. split; [exact Hrun | exact Hcalls].
Defined.

(** C4 as stated fails.  The reply declares a lifetime of 30 minutes, the
    stored expiry is 55 minutes after the reply, which is not the declared
    lifetime less any safety margin, and the token is still served from the
    cache when the declared lifetime is over.  A cached token that is the
    empty string is not served although the stored expiry is ahead: an
    exchange is started.  And with the client id missing no exchange is
    performed although no valid token is cached. *)
Lemma getAccessToken_ignores_declared_lifetime :
  (exists w',
     exec (getAccessToken Examples.env0) 1000 [(2000, Examples.token "T1" 1800)]
          Examples.w0 = (w', Ret "T1") /\
     tokenExpiry (mem w') = 2000 + 3300000 /\
     (forall margin, 0 <= margin ->
        tokenExpiry (mem w') <> 2000 + 1800 * 1000 - margin) /\
     exec (getAccessToken Examples.env0) (2000 + 1800 * 1000) [] w' = (w', Ret "T1")) /\
  (exists w1 p,
     cachedToken (mem Examples.w_empty_token) = Some EmptyString /\
     1000 < tokenExpiry (mem Examples.w_empty_token) /\
     exec (getAccessToken Examples.env0) 1000 [] Examples.w_empty_token = (w1, p) /\
     finished p = false /\
     calls w1 =
       [CallToken "client_credentials" (Some "client-id") (Some "client-secret")]) /\
  (exists w1 err,
     cache_valid (mem Examples.w0) 1000 = false /\
     exec (getAccessToken Examples.env_no_client_id) 1000 [] Examples.w0
       = (w1, Throw err) /\
     calls w1 = []).
Proof.
  split; [|split].
  - eexists. split; [vm_compute; reflexivity|]. split; [reflexivity|].
    split; [|reflexivity]. simpl. intros margin Hm. lia.
  - do 2 eexists. split; [reflexivity|]. split; [reflexivity|].
    split; [vm_compute; reflexivity|]. split; reflexivity.
  - do 2 eexists. split; [reflexivity|]. split; [vm_compute; reflexivity|].
    reflexivity.
Qed.

(** ** FUNCTION 1: the page of a catalog search *)

Lemma SFcompare_defined (x y : number) :
  x <> S754_nan -> y <> S754_nan -> SFcompare x y <> None.
Proof.
  intros Hx Hy. destruct x as [s|s| |s m e], y as [s'|s'| |s' m' e'];
    simpl; try congruence; try destruct s; try destruct s'; congruence.
Qed.

Lemma Math_min_le (x y : number) :
  Num.truthy x = true -> number_le y y = true ->
  number_le (Math_min x y) y = true.
Proof.
  intros Ht Hy.
  assert (Hx : x <> S754_nan) by (intros ->; discriminate).
  assert (Hy' : y <> S754_nan) by (intros ->; discriminate).
  pose proof (SFcompare_defined x y Hx Hy') as Hd.
  unfold number_le, Math_min, SFleb in *.
  destruct (SFcompare x y) as [[]|] eqn:Hc; try congruence.
  - destruct x as [[]| | |]; auto; now rewrite Hc.
  - now rewrite Hc.
Qed.

Lemma Math_min_clamp (x y : number) :
  Num.truthy x = true -> SFltb x y = false -> y <> S754_nan ->
  Math_min x y = y.
Proof.
  intros Ht Hlt Hy.
  assert (Hx : x <> S754_nan) by (intros ->; discriminate).
  pose proof (SFcompare_defined x y Hx Hy) as Hd.
  unfold Math_min, SFltb in *.
  destruct (SFcompare x y) as [[]|] eqn:Hc; try congruence.
  destruct x as [[]| | |]; auto; discriminate.
Qed.

Lemma number_or_truthy (x d : number) :
  Num.truthy d = true -> Num.truthy (number_or x d) = true.
Proof. intros Hd. unfold number_or. now destruct (Num.truthy x) eqn:Hx. Qed.

Lemma one_le_truthy (x : number) :
  number_le (of_Z 1) x = true -> Num.truthy x = true.
Proof.
  destruct x as [s|s| |s m e]; try reflexivity; intros H; vm_compute in H;
    discriminate H.
Qed.

Lemma Math_min_ge (l x y : number) :
  number_le l x = true -> number_le l y = true ->
  number_le l (Math_min x y) = true.
Proof.
  intros Hx Hy. unfold Math_min.
  assert (Hnx : x <> S754_nan).
  { intros ->. unfold number_le, SFleb in Hx. destruct l; discriminate. }
  assert (Hny : y <> S754_nan).
  { intros ->. unfold number_le, SFleb in Hy. destruct l; discriminate. }
  pose proof (SFcompare_defined x y Hnx Hny) as Hd.
  destruct (SFcompare x y) as [[]|]; try congruence.
  destruct x as [[]| | |]; assumption.
Qed.

(** ** FUNCTION 4: amounts in cents *)

(** [Math.round] yields the integer nearest to its argument, the upper one
    on a tie. *)
Lemma Math_round_nearest (x : number) (y : Q) :
  value x = Some y ->
  exists n, Math_round x = Int n /\
    (inject_Z n - (1 # 2) <= y)%Q /\ (y < inject_Z n + (1 # 2))%Q.
Proof.
  destruct x as [s|s| |s m e]; simpl; try discriminate.
  - intros [= <-]. exists 0. split; [reflexivity|]. split; [discriminate|reflexivity].
  - intros [= <-]. set (sm := cond_Zopp s (Z.pos m)).
    destruct (0 <=? e) eqn:He.
    + exists (sm * 2 ^ e). split; [reflexivity|].
      unfold Qle, Qlt, Qminus, Qplus, Qopp, inject_Z. simpl. lia.
    + apply Z.leb_gt in He.
      assert (HD : 0 < 2 ^ (- e)) by (apply Z.pow_pos_nonneg; lia).
      assert (H2 : 2 ^ (1 - e) = 2 * 2 ^ (- e)).
      { replace (1 - e) with (Z.succ (- e)) by lia. apply Z.pow_succ_r. lia. }
      eexists. split; [reflexivity|]. rewrite H2.
      set (D := 2 ^ (- e)) in *.
      pose proof (Z.div_mod (2 * sm + D) (2 * D) ltac:(lia)) as Hdm.
      pose proof (Z.mod_pos_bound (2 * sm + D) (2 * D) ltac:(lia)) as Hb.
      set (n := (2 * sm + D) / (2 * D)) in *.
      unfold Qle, Qlt, Qminus, Qplus, Qopp, inject_Z. simpl.
      rewrite Z2Pos.id by exact HD. lia.
Qed.

Lemma line_item_amount (item : CartItem.t) : amount_in_cents item (line_item item).
Proof.
  unfold amount_in_cents. simpl. repeat split.
  intros y Hy. now apply Math_round_nearest.
Qed.

Lemma line_items_amounts (items : list CartItem.t) :
  Forall2 amount_in_cents items (map line_item items).
Proof.
  induction items as [|j items IH]; simpl; constructor;
    auto using line_item_amount.
Qed.

(** C6. For a checkout request that reaches the payment processor, every
    cart item is sent as a line item whose amount is [unitPrice * 100]
    rounded to the nearest integer, the upper one on a tie; for the price
    19.995 the amount is 2000. *)
Theorem createCheckoutSession_unit_amount
  (env : Env) (req : Request CheckoutBody) (items : list CartItem.t)
  (c : Customer.t) (a : Address.t) (now : Z) (w : World) :
  method req = "POST" ->
  truthy_opt (STRIPE_SECRET_KEY env) = true ->
  body_items (body req) = Some items -> items <> [] ->
  body_customer (body req) = Some c -> Customer.address c = Some a ->
  (exists w' p params,
     exec (createCheckoutSession env req) now [] w = (w', p) /\
     finished p = false /\
     calls w' = calls w ++ [CallSession params] /\
     Forall2 amount_in_cents items (line_items params)) /\
  unit_amount (line_item Examples.widget) = Int 2000.
Proof.
  intros Hm Hk Hi Hne Hc Ha. split; [|reflexivity].
  unfold exec, createCheckoutSession, cors, getStripe. rewrite Hm, Hk. simpl.
  rewrite Hi. destruct items as [|i items]; [done|]. clear Hne.
  rewrite Hc. simpl. rewrite Ha. simpl.
  do 3 eexists. split; [reflexivity|]. split; [reflexivity|].
  split; [reflexivity|]. simpl.
  apply (line_items_amounts (i :: items)).
Qed.

Lemma createCheckoutSession_unit_amount_witness :
  exists w' p params,
    exec (createCheckoutSession Examples.env0
            (Examples.request "POST" [] [] Examples.cart))
         1000 [] Examples.w0 = (w', p) /\
    calls w' = [CallSession params] /\
    Forall2 amount_in_cents [Examples.widget] (line_items params) /\
    unit_amount (line_item Examples.widget) = Int 2000.
Proof.
  destruct (createCheckoutSession_unit_amount Examples.env0
              (Examples.request "POST" [] [] Examples.cart)
              [Examples.widget] Examples.ana Examples.home 1000 Examples.w0)
    as ((w' & p & params & Hexec & _ & Hcalls & Hall) & Hex);
    [reflexivity | reflexivity | reflexivity | discriminate
    | reflexivity | reflexivity |].
  exists w', p, params. repeat split; assumption.
Defined.

(** ** The scheduler *)

Section Scheduler.

Context {R : Type}.
Implicit Types (st : Sched R) (ts : list (bool * proc R)) (t : bool * proc R).

Lemma step_inv ev st st' :
  step ev st = Some st' ->
  exists i flag p w' p',
    tasks st !! i = Some (flag, p) /\
    world st' = w' /\
    tasks st' = <[i := (true, p')]> (tasks st) /\
    match ev with
    | Start j now => j = i /\ flag = false /\ run_sync p now (world st) = (w', p')
    | Resume j now a =>
        j = i /\ flag = true /\
        exists w1 p1, deliver p a (world st) = Some (w1, p1) /\
                      run_sync p1 now w1 = (w', p')
    end.
Proof.
  destruct ev as [i now|i now a]; simpl.
  - destruct (tasks st !! i) as [[[] p]|] eqn:Hi; try discriminate.
    destruct (run_sync p now (world st)) as [w' p'] eqn:Hr.
    intros [= <-]. exists i, false, p, w', p'. simpl. repeat split; auto.
  - destruct (tasks st !! i) as [[[] p]|] eqn:Hi; try discriminate.
    destruct (deliver p a (world st)) as [[w1 p1]|] eqn:Hd; try discriminate.
    destruct (run_sync p1 now w1) as [w' p'] eqn:Hr.
    intros [= <-]. exists i, true, p, w', p'. simpl. repeat split; eauto.
Qed.

Lemma deliver_unfinished (p : proc R) a w x :
  deliver p a w = Some x -> finished p = false.
Proof. destruct p; simpl; congruence. Qed.

Lemma settled_count_insert ts i t t' :
  ts !! i = Some t ->
  (settled_count (<[i := t']> ts) + (if finished (snd t) then 1 else 0) =
   settled_count ts + (if finished (snd t') then 1 else 0))%nat.
Proof.
  revert i. induction ts as [|u ts IH]; intros [|i] Hi; simpl in *; try discriminate.
  - injection Hi as ->. lia.
  - specialize (IH i Hi). lia.
Qed.

Lemma started_count_insert ts i t t' :
  ts !! i = Some t ->
  (started_count (<[i := t']> ts) + (if fst t then 1 else 0) =
   started_count ts + (if fst t' then 1 else 0))%nat.
Proof.
  revert i. induction ts as [|u ts IH]; intros [|i] Hi; simpl in *; try discriminate.
  - injection Hi as ->. lia.
  - specialize (IH i Hi). lia.
Qed.

Lemma settled_count_all ts :
  Forall (fun t => finished (snd t) = true) ts -> settled_count ts = length ts.
Proof. induction 1 as [|t ts Ht _ IH]; simpl; [reflexivity|]. rewrite Ht, IH. reflexivity. Qed.

Lemma settled_count_none ts :
  Forall (fun t => finished (snd t) = false) ts -> settled_count ts = 0%nat.
Proof. induction 1 as [|t ts Ht _ IH]; simpl; [reflexivity|]. rewrite Ht, IH. reflexivity. Qed.

Lemma run_length evs st st' :
  run evs st = Some st' -> length (tasks st') = length (tasks st).
Proof.
  revert st. induction evs as [|ev evs IH]; intros st; simpl.
  - now intros [= <-].
  - destruct (step ev st) as [st1|] eqn:Hs; [|discriminate].
    intros Hr. rewrite (IH _ Hr).
    apply step_inv in Hs as (i & flag & p & w' & p' & _ & _ & -> & _).
    apply length_insert.
Qed.

(** A step can only be proved to keep an invariant; a run then keeps it. *)
Lemma run_invariant (I : Sched R -> Prop) (ok : event -> Prop) evs st st' :
  (forall ev s s', ok ev -> I s -> step ev s = Some s' -> I s') ->
  Forall ok evs -> I st -> run evs st = Some st' -> I st'.
Proof.
  intros Hstep Hok. revert st. induction Hok as [|ev evs Hev _ IH]; intros st Hi; simpl.
  - now intros [= <-].
  - destruct (step ev st) as [st1|] eqn:Hs; [|discriminate].
    apply IH. eapply Hstep; eauto.
Qed.

End Scheduler.

(** ** Repeated delivery of one completion event *)

Section Deliveries.

Context {B : Type}.
Variable env : Env.
Variable constructEvent :
  string -> option string -> option string -> JsError + StripeEvent.
Variable req : Request B.
Variable ev : StripeEvent.
Variable parsed : jsvalue.

Hypothesis configured : truthy_opt (STRIPE_SECRET_KEY env) = true.
Hypothesis verified : verdict env constructEvent req = inr ev.
Hypothesis completion : type ev = "checkout.session.completed".
Hypothesis readable : parse_items (metadata (data_object ev)) = inr parsed.

Let handler : proc Response := stripeWebhook env constructEvent req.
Let order : Order := order_of_session (data_object ev) parsed.

Lemma stripeWebhook_start (now : Z) (w : World) :
  exists m p,
    run_sync handler now w = (issue (CallAdd "orders" (OrderDoc order)) (set_mem m w), p) /\
    writing order p.
Proof.
  unfold handler, stripeWebhook, getStripe. rewrite configured. simpl.
  rewrite verified, completion. simpl. rewrite readable. simpl.
  do 2 eexists. split; [reflexivity|].
  eexists. split; [reflexivity|].
  intros docid now' w'. simpl. eexists. reflexivity.
Qed.

Lemma handler_unfinished : finished handler = false.
Proof.
  unfold handler, stripeWebhook, getStripe. rewrite configured. simpl.
  rewrite verified, completion. reflexivity.
Qed.

Lemma deliveries_step (base : list document) (e : event) (s s' : Sched Response) :
  writes_succeed e -> deliveries_invariant handler order base s -> step e s = Some s' ->
  deliveries_invariant handler order base s'.
Proof.
  intros Hok [Hts Hdb] Hs.
  apply step_inv in Hs as (i & flag & p & w' & p' & Hi & Hw & Ht & He).
  pose proof (proj1 (Forall_lookup _ _) Hts i _ Hi) as Hst.
  unfold deliveries_invariant. rewrite Ht, Hw.
  destruct e as [j now|j now a].
  - destruct He as (-> & -> & Hr).
    destruct Hst as [Hst|[[Hst _]|Hst]]; try discriminate.
    injection Hst as ->.
    destruct (stripeWebhook_start now (world s)) as (m & q & Hq & Hwr).
    rewrite Hq in Hr. injection Hr as <- <-.
    split.
    + apply Forall_insert; [assumption|]. right; left. split; [reflexivity|exact Hwr].
    + pose proof (settled_count_insert _ _ _ (true, q) Hi) as Hc.
      simpl in Hc. rewrite handler_unfinished in Hc.
      destruct Hwr as (k & -> & _). simpl in Hc.
      replace (settled_count (<[i:=(true, AwaitAdd "orders" (OrderDoc order) k)]> (tasks s)))
        with (settled_count (tasks s)) by lia.
      exact Hdb.
  - destruct He as (-> & -> & w1 & p1 & Hd & Hr).
    destruct Hst as [Hst|[[_ Hst]|Hst]]; try discriminate.
    2:{ injection Hst as ->. discriminate. }
    simpl in Hst. destruct Hst as (k & -> & Hk).
    destruct a as [r|r|[err|docid]|r]; simpl in Hd; try discriminate.
    { contradiction. }
    injection Hd as <- <-.
    destruct (Hk docid now (add_document "orders" (OrderDoc order) (world s)))
      as (m & Hrun).
    rewrite Hrun in Hr. injection Hr as <- <-.
    split.
    + apply Forall_insert; [assumption|]. right; right. reflexivity.
    + pose proof (settled_count_insert _ _ _ (true, Ret acknowledged) Hi) as Hc.
      simpl in Hc.
      replace (settled_count (<[i:=(true, Ret acknowledged)]> (tasks s)))
        with (S (settled_count (tasks s))) by lia.
      change (collection (set_mem m (add_document "orders" (OrderDoc order) (world s))) "orders")
        with (collection (add_document "orders" (OrderDoc order) (world s)) "orders").
      rewrite collection_add, Hdb, <- app_assoc. f_equal.
      simpl. symmetry. apply repeat_cons.
Qed.


(** C1, as the code has it.  With the payment processor key configured,
    when one verified completion event whose metadata holds an item list
    that parses is delivered K times, in any interleaving of the
    deliveries, and every store write succeeds, each delivery creates its
    own Order: the [orders] collection grows by K Orders for the session
    (not by one), each with status [paid] and distributor status [pending],
    and every delivery is answered 200. *)
Theorem stripeWebhook_one_order_per_delivery
  (K : nat) (w : World) (evs : list event) (st : Sched Response) :
  Forall writes_succeed evs ->
  run evs (spawn w (repeat handler K)) = Some st ->
  Forall (fun t => finished (snd t) = true) (tasks st) ->
  collection (world st) "orders" =
    collection w "orders" ++ repeat (OrderDoc order) K /\
  Forall (fun t => snd t = Ret acknowledged) (tasks st) /\
  stripeSessionId order = id (data_object ev) /\
  status order = "paid" /\
  ingramStatus order = "pending".
Proof.
  intros Hok Hrun Hfin.
  assert (Hinit : deliveries_invariant handler order (collection w "orders") (spawn w (repeat handler K))).
  { split; simpl.
    - apply Forall_map, Forall_forall. intros p Hp. left.
      apply list_elem_of_In, repeat_spec in Hp. now subst.
    - rewrite settled_count_none, app_nil_r; [reflexivity|].
      apply Forall_map, Forall_forall. intros p Hp.
      apply list_elem_of_In, repeat_spec in Hp. subst. apply handler_unfinished. }
  pose proof (run_invariant (deliveries_invariant handler order (collection w "orders"))
                writes_succeed evs _ _
                (fun e s s' => deliveries_step _ e s s') Hok Hinit Hrun)
    as [Hts Hdb].
  apply run_length in Hrun as Hlen. simpl in Hlen.
  rewrite length_map, repeat_length in Hlen.
  rewrite settled_count_all, Hlen in Hdb by exact Hfin.
  split; [exact Hdb|]. split; [|repeat split].
  apply Forall_forall. intros t Ht.
  pose proof (proj1 (Forall_forall _ _) Hts t Ht) as Hst.
  pose proof (proj1 (Forall_forall _ _) Hfin t Ht) as Hf.
  destruct Hst as [-> | [[_ (k & Hk & _)] | ->]]; simpl in *.
  - rewrite handler_unfinished in Hf. discriminate.
  - rewrite Hk in Hf. discriminate.
  - reflexivity.
Qed.

End Deliveries.

Lemma stripeWebhook_one_order_per_delivery_witness :
  exists st,
    run [Start 0 1000; Start 1 1001; Resume 1 1500 (AddReply (inr "doc-b"));
         Start 2 1600; Resume 0 1700 (AddReply (inr "doc-a"));
         Resume 2 1800 (AddReply (inr "doc-c"))]
        (spawn Examples.w0
           (repeat (stripeWebhook Examples.env0 (Examples.verifier Examples.completed)
                      Examples.signed_delivery) 3)) = Some st /\
    collection (world st) "orders" =
      repeat (OrderDoc (order_of_session Examples.sess_123
                          (JArr [compact_item Examples.widget]))) 3 /\
    Forall (fun t => snd t = Ret acknowledged) (tasks st).
Proof.
  match goal with
  | |- exists st, run ?evs ?s0 = _ /\ _ =>
      destruct (run evs s0) as [st|] eqn:Hrun;
        [|vm_compute in Hrun; discriminate Hrun]
  end.
  exists st. split; [reflexivity|].
  pose proof (fun Hok Hfin =>
    stripeWebhook_one_order_per_delivery Examples.env0
      (Examples.verifier Examples.completed) Examples.signed_delivery
      Examples.completed (JArr [compact_item Examples.widget])
      eq_refl eq_refl eq_refl ltac:(vm_compute; reflexivity)
      3 Examples.w0 _ st Hok Hrun Hfin) as Hthm.
  destruct Hthm as (Horders & Hresp & _).
  - repeat constructor.
  - vm_compute in Hrun. injection Hrun as <-. repeat constructor.
  - split; [exact Horders | exact Hresp].
Defined.

(** C1 as stated fails: the completion event of session [sess_123],
    delivered twice, two seconds apart, leaves two Orders for that session. *)
Lemma stripeWebhook_duplicate_order :
  exists st o,
    run [Start 0 1000; Resume 0 1100 (AddReply (inr "doc-a"));
         Start 1 3000; Resume 1 3100 (AddReply (inr "doc-b"))]
        (spawn Examples.w0
           (repeat (stripeWebhook Examples.env0 (Examples.verifier Examples.completed)
                      Examples.signed_delivery) 2)) = Some st /\
    collection (world st) "orders" = [OrderDoc o; OrderDoc o] /\
    stripeSessionId o = "sess_123" /\
    Forall (fun t => snd t = Ret acknowledged) (tasks st).
Proof.
  do 2 eexists. split; [vm_compute; reflexivity|].
  split; [reflexivity|]. split; [reflexivity|]. repeat constructor.
Qed.

(** ** Concurrent callers of the token cache *)

Lemma settled_stable {R : Type} (evs : list event) (st st' : Sched R) i (p : proc R) :
  run evs st = Some st' ->
  tasks st !! i = Some (true, p) -> finished p = true ->
  tasks st' !! i = Some (true, p).
Proof.
  revert st. induction evs as [|ev evs IH]; intros st; simpl.
  - now intros [= <-].
  - destruct (step ev st) as [st1|] eqn:Hs; [|discriminate].
    intros Hrun Hi Hf. apply (IH st1 Hrun); [|exact Hf].
    apply step_inv in Hs as (j & flag & q & w' & q' & Hj & _ & -> & He).
    destruct (decide (j = i)) as [->|Hne].
    + rewrite Hi in Hj. injection Hj as <- <-.
      destruct ev as [k now|k now a].
      * destruct He as (_ & Hflag & _). discriminate.
      * destruct He as (_ & _ & w1 & p1 & Hd & _).
        apply deliver_unfinished in Hd. congruence.
    + now rewrite list_lookup_insert_ne.
Qed.

Lemma token_calls_snoc (l : list extcall) (c : extcall) :
  token_calls (l ++ [c]) = (token_calls l + (if is_token_call c then 1 else 0))%nat.
Proof.
  unfold token_calls. rewrite List.filter_app, length_app. simpl.
  now destruct (is_token_call c).
Qed.

Section TokenCallers.

Variable env : Env.

Hypothesis configured : credentials_set env = true.

Let caller : proc string := getAccessToken env.
Let suspended : proc string :=
  AwaitToken "client_credentials" (IM_CLIENT_ID env) (IM_CLIENT_SECRET env)
    token_callback.

Lemma getAccessToken_start_miss (now : Z) (w : World) :
  cache_valid (mem w) now = false ->
  exists m,
    run_sync caller now w =
      (issue (CallToken "client_credentials" (IM_CLIENT_ID env) (IM_CLIENT_SECRET env))
             (set_mem m w), suspended).
Proof.
  intros Hv. pose proof configured as Hcred. unfold credentials_set in Hcred.
  unfold caller, suspended, getAccessToken, getAccesstoken. simpl. rewrite Hv.
  destruct (IM_CLIENT_ID env) as [cid|]; [|discriminate].
  destruct (IM_CLIENT_SECRET env) as [sec|]; [|discriminate].
  simpl. eexists. reflexivity.
Qed.

Lemma token_callback_run (r : JsError + TokenData) (now : Z) (w : World) :
  exists m, run_sync (token_callback r) now w = (set_mem m w, token_result r).
Proof. destruct r as [e|data]; simpl; eexists; reflexivity. Qed.

Lemma callers_step (ev : event) (s s' : Sched string) :
  Forall (caller_state env) (tasks s) ->
  match ev with
  | Start _ now => cache_valid (mem (world s)) now = false
  | Resume _ _ _ => True
  end ->
  step ev s = Some s' ->
  Forall (caller_state env) (tasks s') /\
  (token_calls (calls (world s')) + started_count (tasks s) =
   token_calls (calls (world s)) + started_count (tasks s'))%nat /\
  match ev with
  | Start _ _ => True
  | Resume i _ a =>
      exists r, a = TokenReply r /\ tasks s' !! i = Some (true, token_result r)
  end.
Proof.
  intros Hts Hmiss Hs.
  apply step_inv in Hs as (i & flag & p & w' & p' & Hi & Hw & Ht & He).
  pose proof (proj1 (Forall_lookup _ _) Hts i _ Hi) as Hst.
  pose proof (lookup_lt_Some _ _ _ Hi) as Hlt.
  pose proof (started_count_insert _ _ _ (true, p') Hi) as Hc. simpl in Hc.
  rewrite Ht, Hw.
  destruct ev as [j now|j now a].
  - destruct He as (-> & -> & Hr).
    destruct Hst as [Hst|[Hst|[Hst _]]]; try discriminate.
    injection Hst as ->.
    destruct (getAccessToken_start_miss now (world s) Hmiss) as (m & Hq).
    unfold caller, suspended in Hq. rewrite Hq in Hr. injection Hr as <- <-.
    split; [|split; [|exact I]].
    + apply Forall_insert; [assumption|]. right; left. reflexivity.
    + simpl. rewrite token_calls_snoc. simpl. lia.
  - destruct He as (-> & -> & w1 & p1 & Hd & Hr).
    destruct Hst as [Hst|[Hst|[_ Hst]]]; try discriminate.
    2:{ apply deliver_unfinished in Hd. simpl in Hst. congruence. }
    injection Hst as ->.
    destruct a as [r|r|r|r]; simpl in Hd; try discriminate.
    injection Hd as <- <-.
    destruct (token_callback_run r now (world s)) as (m & Hrun).
    rewrite Hrun in Hr. injection Hr as <- <-.
    split; [|split].
    + apply Forall_insert; [assumption|]. right; right. split; [reflexivity|].
      destruct r; reflexivity.
    + simpl. lia.
    + exists r. split; [reflexivity|]. now apply list_lookup_insert_eq.
Qed.

Lemma callers_run (evs : list event) (s s' : Sched string) :
  Forall (caller_state env) (tasks s) ->
  starts_miss evs s ->
  run evs s = Some s' ->
  Forall (caller_state env) (tasks s') /\
  (token_calls (calls (world s')) + started_count (tasks s) =
   token_calls (calls (world s)) + started_count (tasks s'))%nat /\
  forall i now r, In (Resume i now (TokenReply r)) evs ->
    tasks s' !! i = Some (true, token_result r).
Proof.
  revert s. induction evs as [|ev evs IH]; intros s Hts Hmiss; simpl.
  - intros [= <-]. repeat split; [assumption|]. intros i now r [].
  - destruct (step ev s) as [s1|] eqn:Hs; [|discriminate].
    intros Hrun. simpl in Hmiss. rewrite Hs in Hmiss. destruct Hmiss as [Hm Hrest].
    destruct (callers_step ev s s1 Hts Hm Hs) as (Hts1 & Hcount1 & Hres1).
    destruct (IH s1 Hts1 Hrest Hrun) as (Hts' & Hcount & Hres).
    split; [exact Hts'|]. split; [lia|].
    intros i now r [->|Hin]; [|eauto].
    destruct Hres1 as (r' & [= <-] & Hi).
    apply (settled_stable evs s1 s' i _ Hrun Hi). destruct r; reflexivity.
Qed.

(** C2, as the code has it.  With the client id and secret configured,
    when N callers of [getAccessToken] each start while no valid token is
    cached, in any interleaving with the replies, N credential exchanges
    are performed, one per caller (not one in all), and each caller
    receives the token, or the failure, of its own exchange. *)
Theorem getAccessToken_one_exchange_per_caller
  (N : nat) (w : World) (evs : list event) (st : Sched string) :
  starts_miss evs (spawn w (repeat caller N)) ->
  run evs (spawn w (repeat caller N)) = Some st ->
  Forall (fun t => finished (snd t) = true) (tasks st) ->
  token_calls (calls (world st)) = (token_calls (calls w) + N)%nat /\
  forall i now r, In (Resume i now (TokenReply r)) evs ->
    tasks st !! i = Some (true, token_result r).
Proof.
  intros Hmiss Hrun Hfin.
  assert (Hinit : Forall (caller_state env) (tasks (spawn w (repeat caller N)))).
  { simpl. apply Forall_map, Forall_forall. intros p Hp. left.
    apply list_elem_of_In, repeat_spec in Hp. now subst. }
  destruct (callers_run evs _ st Hinit Hmiss Hrun) as (Hts & Hcount & Hres).
  split; [|exact Hres].
  assert (H0 : started_count (tasks (spawn w (repeat caller N))) = 0%nat).
  { simpl. clear. induction N; simpl; auto. }
  assert (HN : started_count (tasks st) = N).
  { apply run_length in Hrun. simpl in Hrun.
    rewrite length_map, repeat_length in Hrun. rewrite <- Hrun.
    clear - Hts Hfin. induction (tasks st) as [|t ts IH]; [reflexivity|].
    apply Forall_cons in Hts as [Ht Hts]. apply Forall_cons in Hfin as [Hf Hfin].
    simpl. rewrite (IH Hfin Hts).
    destruct Ht as [-> | [-> | [-> _]]]; simpl in *; try discriminate; reflexivity. }
  rewrite H0, HN in Hcount. simpl in Hcount. lia.
Qed.

End TokenCallers.

Lemma getAccessToken_one_exchange_per_caller_witness :
  exists st,
    run [Start 0 1000; Start 1 1001; Start 2 1002;
         Resume 1 2000 (Examples.token "token-b" 3600);
         Resume 0 2001 (TokenReply (inl (Error "timeout")));
         Resume 2 2002 (Examples.token "token-c" 3600)]
        (spawn Examples.w0 (repeat (getAccessToken Examples.env0) 3)) = Some st /\
    token_calls (calls (world st)) = 3%nat /\
    tasks st !! 0%nat = Some (true, Throw (Error "Auth error: timeout")) /\
    tasks st !! 1%nat = Some (true, Ret "token-b") /\
    tasks st !! 2%nat = Some (true, Ret "token-c").
Proof.
  match goal with
  | |- exists st, run ?evs ?s0 = _ /\ _ =>
      destruct (run evs s0) as [st|] eqn:Hrun;
        [|vm_compute in Hrun; discriminate Hrun]
  end.
  exists st. split; [reflexivity|].
  pose proof (fun Hmiss Hfin =>
    getAccessToken_one_exchange_per_caller Examples.env0 eq_refl 3 Examples.w0 _ st
      Hmiss Hrun Hfin) as Hthm.
  destruct Hthm as (Hcount & Hres).
  - vm_compute. repeat split.
  - vm_compute in Hrun. injection Hrun as <-. repeat constructor.
  - split; [exact Hcount|].
    split; [apply (Hres 0%nat 2001 (inl (Error "timeout"))); simpl; tauto|].
    split; [apply (Hres 1%nat 2000 (inr {| access_token := "token-b"; expires_in := 3600 |}));
            simpl; tauto|].
    apply (Hres 2%nat 2002 (inr {| access_token := "token-c"; expires_in := 3600 |}));
      simpl; tauto.
Defined.

(** C2 as stated fails: two callers that start on a cold cache perform two
    credential exchanges, and each receives the token of its own exchange.
    With the client id missing they perform none, and each fails at once. *)
Lemma getAccessToken_two_exchanges :
  (exists st,
     run [Start 0 1000; Start 1 1001;
          Resume 0 2000 (Examples.token "token-a" 3600);
          Resume 1 2001 (Examples.token "token-b" 3600)]
         (spawn Examples.w0 (repeat (getAccessToken Examples.env0) 2)) = Some st /\
     calls (world st) =
       [CallToken "client_credentials" (Some "client-id") (Some "client-secret");
        CallToken "client_credentials" (Some "client-id") (Some "client-secret")] /\
     token_calls (calls (world st)) = 2%nat /\
     tasks st = [(true, Ret "token-a"); (true, Ret "token-b")]) /\
  (exists st err,
     run [Start 0 1000; Start 1 1001]
         (spawn Examples.w0 (repeat (getAccessToken Examples.env_no_client_id) 2))
       = Some st /\
     token_calls (calls (world st)) = 0%nat /\
     tasks st = [(true, Throw err); (true, Throw err)]).
Proof.
  split.
  - eexists. split; [vm_compute; reflexivity|]. repeat split.
  - do 2 eexists. split; [vm_compute; reflexivity|]. repeat split.
Qed.

(** ** Text: strings and digits *)

#[local] Arguments append _ _ : simpl nomatch.

Lemma sapp_assoc (a b c : string) : (a +:+ b) +:+ c = a +:+ (b +:+ c).
Proof. induction a as [|x a IH]; simpl; [reflexivity|]. now rewrite IH. Qed.

Lemma sapp_nil_r (a : string) : a +:+ EmptyString = a.
Proof. induction a as [|x a IH]; simpl; [reflexivity|]. now rewrite IH. Qed.

Lemma slength_app (a b : string) :
  String.length (a +:+ b) = (String.length a + String.length b)%nat.
Proof. induction a as [|x a IH]; simpl; [reflexivity|]. now rewrite IH. Qed.

Lemma string_forallb_app (p : ascii -> bool) (a b : string) :
  string_forallb p (a +:+ b) = string_forallb p a && string_forallb p b.
Proof.
  induction a as [|x a IH]; simpl; [reflexivity|].
  now rewrite IH, andb_assoc.
Qed.

Lemma span_all (p : ascii -> bool) (s rest : string) :
  string_forallb p s = true -> stops p rest ->
  span p (s +:+ rest) = (s, rest).
Proof.
  intros Hs Hr. induction s as [|c s IH]; simpl in *.
  - destruct rest as [|c r]; simpl in *; [reflexivity|]. now rewrite Hr.
  - apply andb_prop in Hs as [Hc Hs]. rewrite Hc, (IH Hs). reflexivity.
Qed.

Lemma span_whole (p : ascii -> bool) (s : string) :
  string_forallb p s = true -> span p s = (s, EmptyString).
Proof.
  intros Hs. rewrite <- (sapp_nil_r s) at 1. now apply span_all.
Qed.

Lemma uint_digits (d : Decimal.uint) :
  string_forallb is_digit (NilEmpty.string_of_uint d) = true.
Proof. induction d; simpl; auto. Qed.

Lemma digits_of_N_digits (n : N) : string_forallb is_digit (digits_of_N n) = true.
Proof. apply uint_digits. Qed.

Lemma digit_is_number_char (s : string) :
  string_forallb is_digit s = true -> string_forallb is_number_char s = true.
Proof.
  induction s as [|c s IH]; simpl; [reflexivity|].
  intros H. apply andb_prop in H as [Hc Hs].
  rewrite (IH Hs). unfold is_number_char. now rewrite Hc.
Qed.

Lemma N_to_uint_nonnil (n : N) : N.to_uint n <> Decimal.Nil.
Proof.
  destruct n as [|p]; [discriminate|]. apply Unsigned.to_uint_nonnil.
Qed.

Lemma digits_of_N_nonempty (n : N) : digits_of_N n <> EmptyString.
Proof.
  unfold digits_of_N. pose proof (N_to_uint_nonnil n) as H.
  destruct (N.to_uint n); simpl; congruence.
Qed.

Lemma N_of_digits_of_N (n : N) : N_of_digits (digits_of_N n) = Some n.
Proof.
  unfold N_of_digits. pose proof (digits_of_N_nonempty n) as Hne.
  destruct (digits_of_N n) eqn:Hd; [contradiction|].
  rewrite <- Hd. unfold digits_of_N. rewrite NilEmpty.usu. simpl.
  now rewrite DecimalN.Unsigned.of_to.
Qed.

(** The decimal digits of a number have no leading zero. *)
Lemma digits_of_N_leading (n : N) : int_part_ok (digits_of_N n) = true.
Proof.
  unfold digits_of_N. destruct n as [|p]; [reflexivity|].
  assert (Hnorm : Decimal.unorm (Pos.to_uint p) = Pos.to_uint p).
  { rewrite <- (DecimalPos.Unsigned.to_of (Pos.to_uint p)).
    rewrite DecimalPos.Unsigned.of_to. reflexivity. }
  pose proof (Unsigned.to_uint_nonzero p) as Hnz.
  change (N.to_uint (N.pos p)) with (Pos.to_uint p).
  destruct (Pos.to_uint p) as [|d|d|d|d|d|d|d|d|d|d] eqn:Hd;
    try (simpl; destruct (NilEmpty.string_of_uint d); reflexivity).
  - exfalso. now apply (Unsigned.to_uint_nonnil p).
  - exfalso. unfold Decimal.unorm in Hnorm. simpl in Hnorm.
    destruct (Decimal.nzhead d) as [|u|u|u|u|u|u|u|u|u|u] eqn:Hh;
      try discriminate Hnorm.
    + injection Hnorm as <-. now apply Hnz.
    + now apply (nzhead_nonzero d u).
Qed.

(** *** String literals *)

Lemma quote_app (k rest : string) :
  quote k +:+ rest = String "034" (escape k +:+ String "034" rest).
Proof. unfold quote. simpl. now rewrite sapp_assoc. Qed.

Lemma read_string_escape (s rest : string) :
  read_string (escape s +:+ String "034" rest) = Some (s, rest).
Proof.
  induction s as [|c s IH]; [reflexivity|].
  simpl escape. rewrite sapp_assoc.
  destruct c as [[] [] [] [] [] [] [] []]; simpl; rewrite IH; reflexivity.
Qed.

(** *** Numbers *)

Lemma digits2_pos_log2 (p : positive) :
  Z.pos (digits2_pos p) = Z.log2 (Z.pos p) + 1.
Proof.
  assert (H : forall q, digits2_pos q = Pos.size q).
  { induction q; simpl; congruence. }
  rewrite H. destruct p; simpl; lia.
Qed.

Lemma bounded_canonical (m : positive) (e : Z) :
  bounded prec emax m e = true -> fexp prec emax (Z.log2 (Z.pos m) + 1 + e) = e.
Proof.
  unfold bounded, canonical_mantissa. intros H.
  apply andb_prop in H as [H _]. apply Z.eqb_eq in H.
  now rewrite <- digits2_pos_log2.
Qed.

Lemma exact_double_canonical (s : bool) (m : positive) (e : Z) :
  bounded prec emax m e = true ->
  exact_double s m e = Some (S754_finite s m e).
Proof.
  intros Hb. unfold exact_double. rewrite (bounded_canonical m e Hb).
  rewrite Z.leb_refl, Z.sub_diag, Z.mul_1_r. simpl Z.to_pos.
  now rewrite Hb.
Qed.

Lemma exact_double_shifted (s : bool) (m : positive) (e : Z) :
  0 <= e -> bounded prec emax m e = true ->
  exact_double s (Z.to_pos (Z.pos m * 2 ^ e)) 0 = Some (S754_finite s m e).
Proof.
  intros He Hb.
  destruct (Z.eq_dec e 0) as [->|Hne].
  { rewrite Z.pow_0_r, Z.mul_1_r. simpl Z.to_pos.
    now apply exact_double_canonical. }
  assert (Hpow : 0 < 2 ^ e) by (apply Z.pow_pos_nonneg; lia).
  assert (Hpos : 0 < Z.pos m * 2 ^ e) by lia.
  unfold exact_double. rewrite Z2Pos.id by exact Hpos.
  rewrite Z.log2_mul_pow2 by lia.
  replace (e + Z.log2 (Z.pos m) + 1 + 0) with (Z.log2 (Z.pos m) + 1 + e) by lia.
  rewrite (bounded_canonical m e Hb).
  destruct (e <=? 0) eqn:Hle; [apply Z.leb_le in Hle; lia|].
  rewrite Z.sub_0_r, Z.mod_mul, Z.div_mul by lia.
  rewrite Z.eqb_refl. simpl Z.to_pos. simpl Z.ltb. cbn [andb].
  now rewrite Hb.
Qed.

Lemma not_minus_digit (c : ascii) : is_digit c = true -> Ascii.eqb c "-" = false.
Proof.
  destruct c as [[] [] [] [] [] [] [] []]; vm_compute;
    first [reflexivity | discriminate].
Qed.

Lemma digits_head (n : N) :
  exists c r, digits_of_N n = String c r /\ is_digit c = true.
Proof.
  pose proof (digits_of_N_nonempty n) as Hne.
  pose proof (digits_of_N_digits n) as Hd.
  destruct (digits_of_N n) as [|c r]; [contradiction|].
  simpl in Hd. apply andb_prop in Hd as [Hc _]. eauto.
Qed.

Lemma strip_minus_digits (n : N) (rest : string) :
  strip_minus (digits_of_N n +:+ rest) = (false, digits_of_N n +:+ rest).
Proof.
  destruct (digits_head n) as (c & r & Hd & Hc). rewrite Hd. simpl.
  now rewrite (not_minus_digit c Hc).
Qed.

(** The number token made of the digits of [M], a suffix read as no
    fraction, and an exponent. *)
Lemma parse_integer_token (M : N) (rest : string) (ex : Z) :
  stops is_digit rest ->
  read_fraction rest = Some (EmptyString, rest) ->
  read_exponent rest = Some (ex, EmptyString) ->
  parse_number_token (digits_of_N M +:+ rest) = Some (decimal_to_double false M ex).
Proof.
  intros Hstop Hfrac Hexp. unfold parse_number_token.
  rewrite strip_minus_digits.
  rewrite (span_all is_digit _ rest (digits_of_N_digits M) Hstop).
  rewrite digits_of_N_leading, Hfrac, Hexp, sapp_nil_r, N_of_digits_of_N.
  simpl. now rewrite Z.sub_0_r.
Qed.

Lemma parse_exact_decimal (m : positive) (e : Z) :
  bounded prec emax m e = true ->
  parse_number_token (exact_decimal m e) = Some (S754_finite false m e) /\
  string_forallb is_number_char (exact_decimal m e) = true.
Proof.
  intros Hb. unfold exact_decimal. destruct (0 <=? e) eqn:He.
  - apply Z.leb_le in He.
    assert (Hpow : 0 < 2 ^ e) by (apply Z.pow_pos_nonneg; lia).
    split; [|apply digit_is_number_char, digits_of_N_digits].
    rewrite <- (sapp_nil_r (digits_of_N _)).
    rewrite parse_integer_token with (ex := 0); try reflexivity.
    unfold decimal_to_double.
    destruct (Z.to_N (Z.pos m * 2 ^ e)) as [|p] eqn:Hp; [lia|].
    simpl. rewrite Pos.mul_1_r.
    assert (p = Z.to_pos (Z.pos m * 2 ^ e)) as -> by lia.
    now rewrite exact_double_shifted.
  - apply Z.leb_gt in He.
    assert (Hpow : 0 < 5 ^ (- e)) by (apply Z.pow_pos_nonneg; lia).
    split.
    + rewrite parse_integer_token with (ex := e).
      * unfold decimal_to_double.
        destruct (Z.to_N (Z.pos m * 5 ^ (- e))) as [|p] eqn:Hp; [lia|].
        assert (Z.pos p = Z.pos m * 5 ^ (- e)) as Hpe by lia.
        destruct (0 <=? e) eqn:He'; [apply Z.leb_le in He'; lia|].
        rewrite Hpe, Z.mod_mul, Z.eqb_refl, Z.div_mul by lia.
        simpl Z.to_pos. now rewrite exact_double_canonical.
      * reflexivity.
      * reflexivity.
      * simpl. unfold read_exponent_digits.
        rewrite (span_whole is_digit _ (digits_of_N_digits _)).
        rewrite N_of_digits_of_N. f_equal. f_equal. lia.
    + rewrite !string_forallb_app, !(digit_is_number_char _ (digits_of_N_digits _)).
      reflexivity.
Qed.

Lemma same_number_eq (x y : number) : same_number x y = true -> x = y.
Proof.
  destruct x as [a|a| |a m e], y as [b|b| |b m' e']; simpl; try discriminate;
    try reflexivity.
  - intros H. apply Bool.eqb_prop in H. congruence.
  - intros H. apply Bool.eqb_prop in H. congruence.
  - intros H. apply andb_prop in H as [H He]. apply andb_prop in H as [Hs Hm].
    apply Bool.eqb_prop in Hs. apply Pos.eqb_eq in Hm. apply Z.eqb_eq in He.
    congruence.
Qed.

(** The text of a positive double is a number token that reads back as the
    double. *)
Lemma positive_toString_reads_back (m : positive) (e : Z) :
  bounded prec emax m e = true ->
  parse_number_token (positive_toString m e) = Some (S754_finite false m e) /\
  string_forallb is_number_char (positive_toString m e) = true.
Proof.
  intros Hb. unfold positive_toString.
  destruct (shortest _ _ _ _ _ _) as [[ds n0]|]; [|now apply parse_exact_decimal].
  destruct (string_forallb is_number_char (format_digits ds n0) && _) eqn:Hc;
    [|now apply parse_exact_decimal].
  apply andb_prop in Hc as [Hchars Hread]. split; [|exact Hchars].
  destruct (parse_number_token (format_digits ds n0)) as [y|]; [|discriminate].
  now rewrite (same_number_eq _ _ Hread).
Qed.

Lemma Number_toString_reads_back (x : number) :
  nonnegative_double x = true ->
  parse_number_token (Number_toString x) = Some x /\
  string_forallb is_number_char (Number_toString x) = true /\
  is_finite x = true.
Proof.
  destruct x as [[]| | |[] m e]; simpl; try discriminate.
  - intros _. repeat split.
  - intros Hb. destruct (positive_toString_reads_back m e Hb). auto.
Qed.

(** A number token starts with a digit or a minus sign. *)
Lemma parse_number_token_head (t : string) (x : number) :
  parse_number_token t = Some x ->
  exists c r, t = String c r /\ is_digit c || Ascii.eqb c "-" = true.
Proof.
  destruct t as [|c r]; [discriminate|]. intros H. exists c, r. split; [reflexivity|].
  destruct (Ascii.eqb c "-") eqn:Hm; [apply orb_true_r|].
  unfold parse_number_token, strip_minus in H. rewrite Hm in H. simpl in H.
  destruct (is_digit c); [reflexivity|]. discriminate.
Qed.

(** *** Values *)

Lemma digit_not_ws (c : ascii) :
  is_digit c || Ascii.eqb c "-" = true -> is_ws c = false.
Proof.
  destruct c as [[] [] [] [] [] [] [] []]; vm_compute;
    first [reflexivity | discriminate].
Qed.

Lemma separator_stops (rest : string) : separator rest -> stops is_number_char rest.
Proof. intros (r & [-> | [-> | ->]]); reflexivity. Qed.

Lemma parse_value_number (fuel : nat) (c : ascii) (r : string) :
  is_digit c || Ascii.eqb c "-" = true ->
  parse_value (S fuel) (String c r) =
    let '(tok, r') := span is_number_char (String c r) in
    match parse_number_token tok with
    | Some x => Some (JNum x, r')
    | None => None
    end.
Proof.
  intros Hc. simpl. rewrite (digit_not_ws c Hc), Hc. reflexivity.
Qed.

Lemma parse_number_value (x : number) (fuel : nat) (rest : string) :
  nonnegative_double x = true -> separator rest ->
  parse_value (S fuel) (Number_toString x +:+ rest) = Some (JNum x, rest).
Proof.
  intros Hx Hsep.
  destruct (Number_toString_reads_back x Hx) as (Hread & Hchars & _).
  destruct (parse_number_token_head _ _ Hread) as (c & r & Ht & Hc).
  rewrite Ht. change (String c r +:+ rest) with (String c (r +:+ rest)).
  rewrite (parse_value_number fuel c _ Hc).
  change (String c (r +:+ rest)) with (String c r +:+ rest). rewrite <- Ht.
  rewrite (span_all _ _ _ Hchars (separator_stops _ Hsep)), Hread. reflexivity.
Qed.

Lemma parse_string_value (s : string) (fuel : nat) (rest : string) :
  parse_value (S fuel) (quote s +:+ rest) = Some (JStr s, rest).
Proof. rewrite quote_app. simpl. now rewrite read_string_escape. Qed.

Lemma parse_value_object (fuel : nat) (k rest : string) :
  parse_value (S fuel) ("{" +:+ quote k +:+ rest) =
    match parse_members fuel (quote k +:+ rest) with
    | Some (l, r) => Some (build_object l, r)
    | None => None
    end.
Proof. rewrite quote_app. reflexivity. Qed.

Lemma parse_value_array (fuel : nat) (rest : string) :
  parse_value (S fuel) ("[" +:+ "{" +:+ rest) =
    match parse_elements fuel ("{" +:+ rest) with
    | Some (l, r) => Some (JArr l, r)
    | None => None
    end.
Proof. reflexivity. Qed.

Lemma parse_members_more (fuel : nat) (k vt : string) (v : jsvalue) (more : string) :
  parse_value fuel (vt +:+ "," +:+ more) = Some (v, "," +:+ more) ->
  parse_members (S fuel) (quote k +:+ ":" +:+ vt +:+ "," +:+ more) =
    match parse_members fuel more with
    | Some (l, r) => Some ((k, v) :: l, r)
    | None => None
    end.
Proof.
  intros Hv. rewrite quote_app. simpl in Hv |- *.
  rewrite read_string_escape. simpl. rewrite Hv. reflexivity.
Qed.

Lemma parse_members_last (fuel : nat) (k vt : string) (v : jsvalue) (rest : string) :
  parse_value fuel (vt +:+ "}" +:+ rest) = Some (v, "}" +:+ rest) ->
  parse_members (S fuel) (quote k +:+ ":" +:+ vt +:+ "}" +:+ rest) =
    Some ([(k, v)], rest).
Proof.
  intros Hv. rewrite quote_app. simpl in Hv |- *.
  rewrite read_string_escape. simpl. rewrite Hv. reflexivity.
Qed.

Lemma parse_elements_more (fuel : nat) (vt : string) (v : jsvalue) (more : string) :
  parse_value fuel (vt +:+ "," +:+ more) = Some (v, "," +:+ more) ->
  parse_elements (S fuel) (vt +:+ "," +:+ more) =
    match parse_elements fuel more with
    | Some (l, r) => Some (v :: l, r)
    | None => None
    end.
Proof. intros Hv. simpl in Hv |- *. rewrite Hv. reflexivity. Qed.

Lemma parse_elements_last (fuel : nat) (vt : string) (v : jsvalue) (rest : string) :
  parse_value fuel (vt +:+ "]" +:+ rest) = Some (v, "]" +:+ rest) ->
  parse_elements (S fuel) (vt +:+ "]" +:+ rest) = Some ([v], rest).
Proof. intros Hv. simpl in Hv |- *. rewrite Hv. reflexivity. Qed.

Lemma serialize_array (l : list jsvalue) :
  serialize (JArr l) =
    Some ("[" +:+ join "," (map (fun e => default "null" (serialize e)) l) +:+ "]").
Proof.
  simpl. do 3 f_equal.
Qed.

#[local] Arguments parse_value : simpl never.
#[local] Arguments parse_members : simpl never.
#[local] Arguments parse_elements : simpl never.

(** *** The item list of a checkout session *)

Lemma nonnegative_finite (x : number) : nonnegative_double x = true -> is_finite x = true.
Proof. destruct x as [[]| | |[] m e]; simpl; congruence. Qed.

Lemma serialize_compact_item (i : CartItem.t) :
  valid_item i -> serialize (compact_item i) = Some (item_text i).
Proof.
  intros [Hp Hq]. unfold compact_item, item_text. cbn [serialize].
  rewrite (nonnegative_finite _ Hp), (nonnegative_finite _ Hq).
  cbn [join]. rewrite !sapp_assoc. reflexivity.
Qed.

Lemma parse_item (i : CartItem.t) (fuel : nat) (rest : string) :
  valid_item i ->
  parse_value (7 + fuel) (item_text i +:+ rest) = Some (compact_item i, rest).
Proof.
  intros [Hp Hq]. unfold item_text. rewrite !sapp_assoc.
  cbn [Nat.add]. rewrite parse_value_object.
  rewrite (parse_members_more _ _ _ (JStr (CartItem.sku i)))
    by apply parse_string_value.
  rewrite (parse_members_more _ _ _ (JNum (CartItem.quantity i)))
    by (apply parse_number_value; [exact Hq | eexists; left; reflexivity]).
  rewrite (parse_members_more _ _ _ (JNum (CartItem.price i)))
    by (apply parse_number_value; [exact Hp | eexists; left; reflexivity]).
  rewrite (parse_members_more _ _ _ (JStr (CartItem.name i)))
    by apply parse_string_value.
  rewrite (parse_members_last _ _ _ (JStr (CartItem.vendor i)))
    by apply parse_string_value.
  reflexivity.
Qed.

Lemma item_text_head (i : CartItem.t) :
  exists r, item_text i = "{" +:+ r.
Proof. eexists. reflexivity. Qed.

Lemma item_text_length (i : CartItem.t) : (2 <= String.length (item_text i))%nat.
Proof.
  unfold item_text. rewrite quote_app. simpl.
  do 2 apply le_n_S. apply Nat.le_0_l.
Qed.

Lemma join_cons (sep x y : string) (r : list string) :
  join sep (x :: y :: r) = x +:+ sep +:+ join sep (y :: r).
Proof. reflexivity. Qed.

Lemma join_length (texts : list string) :
  Forall (fun t => (2 <= String.length t)%nat) texts ->
  (2 * length texts <= String.length (join "," texts))%nat.
Proof.
  induction 1 as [|t texts Ht Hts IH]; [simpl; lia|].
  destruct texts as [|u texts].
  - simpl. lia.
  - rewrite join_cons, !slength_app.
    change (length (t :: u :: texts)) with (S (length (u :: texts))).
    change (String.length ",") with 1%nat. lia.
Qed.

Lemma serialize_items (items : list CartItem.t) :
  Forall valid_item items ->
  map (fun e => default "null" (serialize e)) (map compact_item items) =
  map item_text items.
Proof.
  induction 1 as [|i items Hi _ IH]; [reflexivity|].
  cbn [map]. now rewrite IH, (serialize_compact_item i Hi).
Qed.

Lemma parse_items_text (items : list CartItem.t) (fuel : nat) (rest : string) :
  Forall valid_item items -> items <> [] ->
  parse_elements (length items + 7 + fuel)
    (join "," (map item_text items) +:+ "]" +:+ rest) =
  Some (map compact_item items, rest).
Proof.
  intros Hall. revert fuel. induction Hall as [|i [|j items] Hi Hall IH]; intros fuel Hne.
  - contradiction.
  - cbn [map join length Nat.add].
    apply parse_elements_last. now apply parse_item.
  - cbn [map] in IH |- *. rewrite join_cons, !sapp_assoc.
    replace (length (i :: j :: items) + 7 + fuel)%nat
      with (S (7 + (length (j :: items) + fuel)))%nat by (simpl; lia).
    rewrite (parse_elements_more _ _ (compact_item i)) by now apply parse_item.
    replace (7 + (length (j :: items) + fuel))%nat
      with (length (j :: items) + 7 + fuel)%nat by lia.
    now rewrite IH.
Qed.

(** [JSON.parse(JSON.stringify(compact items))] gives the compact items. *)
Lemma items_json_roundtrip (items : list CartItem.t) :
  Forall valid_item items ->
  JSON_parse (items_json items) = Some (JArr (map compact_item items)).
Proof.
  intros Hall. unfold items_json, JSON_stringify.
  rewrite serialize_array, (serialize_items items Hall). cbn [default from_option id].
  destruct items as [|i items]; [reflexivity|].
  unfold JSON_parse.
  set (texts := map item_text (i :: items)).
  assert (Hlen : (2 * length (i :: items) <= String.length (join "," texts))%nat).
  { unfold texts. rewrite <- (length_map item_text).
    apply join_length, Forall_map, Forall_forall. intros; apply item_text_length. }
  assert (Hhead : exists r, join "," texts = "{" +:+ r).
  { unfold texts. cbn [map join]. destruct (map item_text items); eexists; reflexivity. }
  destruct Hhead as (r & Hr).
  unfold Datatypes.id. rewrite !slength_app. cbn [String.length].
  set (L := String.length (join "," texts)) in *.
  replace (2 * (1 + (L + 1)) + 2)%nat
    with (S (length (i :: items) + 7 + (2 * L - length (i :: items) - 2)))%nat
    by (simpl in *; lia).
  rewrite Hr, sapp_assoc, parse_value_array, <- sapp_assoc, <- Hr.
  rewrite <- (sapp_nil_r "]").
  unfold texts. rewrite parse_items_text by (assumption || discriminate).
  reflexivity.
Qed.

Lemma tuples_of_compact_items (items : list CartItem.t) :
  tuples_of_json (JArr (map compact_item items)) = Some (map item_tuple items).
Proof.
  unfold tuples_of_json.
  induction items as [|i items IH]; [reflexivity|].
  cbn [map mapM]. rewrite IH. reflexivity.
Qed.

Lemma parse_items_checkout_metadata (c : Customer.t) (a : Address.t)
  (items : list CartItem.t) :
  Forall valid_item items ->
  parse_items (checkout_metadata c a items) = inr (JArr (map compact_item items)).
Proof.
  intros Hall. unfold parse_items, checkout_metadata.
  rewrite lookup_insert_eq. cbn [default from_option].
  unfold Datatypes.id. now rewrite (items_json_roundtrip items Hall).
Qed.

(** C5. For a valid checkout request, the items that
    [createCheckoutSession] embeds in the metadata of the checkout session
    are the items that [stripeWebhook] rebuilds from that metadata when the
    session completes: the Order written holds, item by item, the sku,
    quantity, unit price, name and vendor of the request, the price being
    the same Number. *)
Theorem checkout_items_roundtrip
  (env : Env)
  (constructEvent : string -> option string -> option string -> JsError + StripeEvent)
  (req : Request CheckoutBody) (items : list CartItem.t)
  (c : Customer.t) (a : Address.t) (now : Z) (w : World) :
  method req = "POST" ->
  truthy_opt (STRIPE_SECRET_KEY env) = true ->
  body_items (body req) = Some items -> items <> [] ->
  body_customer (body req) = Some c -> Customer.address c = Some a ->
  Forall valid_item items ->
  exists w1 p params,
    session_params items (body_customer (body req)) = inr params /\
    exec (createCheckoutSession env req) now [] w = (w1, p) /\
    calls w1 = calls w ++ [CallSession params] /\
    forall (B : Type) (req' : Request B) (ev : StripeEvent)
           (now' now1 : Z) (docid : string) (w2 : World),
      verdict env constructEvent req' = inr ev ->
      type ev = "checkout.session.completed" ->
      metadata (data_object ev) = params_metadata params ->
      exists w3 order,
        exec (stripeWebhook env constructEvent req') now'
             [(now1, AddReply (inr docid))] w2 = (w3, Ret acknowledged) /\
        collection w3 "orders" = collection w2 "orders" ++ [OrderDoc order] /\
        Runtime.items order = JArr (map compact_item items) /\
        tuples_of_json (Runtime.items order) = Some (map item_tuple items).
Proof.
  intros Hm Hk Hi Hne Hc Ha Hall.
  unfold exec, createCheckoutSession, cors, getStripe. rewrite Hm, Hk. simpl.
  rewrite Hi. destruct items as [|i items]; [done|]. clear Hne.
  rewrite Hc. simpl. rewrite Ha. simpl.
  do 3 eexists. split; [reflexivity|]. split; [reflexivity|].
  split; [reflexivity|].
  intros B req' ev now' now1 docid w2 Hv Ht Hmd. simpl in Hmd.
  unfold stripeWebhook, getStripe. rewrite Hk. simpl.
  rewrite Hv, Ht. simpl. rewrite Hmd.
  rewrite (parse_items_checkout_metadata c a (i :: items) Hall). simpl.
  do 2 eexists. split; [reflexivity|].
  split; [unfold collection; simpl; now rewrite lookup_insert_eq|].
  split; [reflexivity|].
  apply (tuples_of_compact_items (i :: items)).
Qed.

Lemma checkout_items_roundtrip_witness :
  exists w3 order,
    exec (stripeWebhook Examples.env0 (Examples.verifier Examples.completed)
            Examples.signed_delivery)
         5000 [(5100, AddReply (inr "doc1"))] Examples.w0 = (w3, Ret acknowledged) /\
    collection w3 "orders" = [OrderDoc order] /\
    tuples_of_json (Runtime.items order) =
      Some [("A1", Examples.literal "2", Examples.literal "19.995", "Widget", "Acme")].
Proof.
  destruct (checkout_items_roundtrip Examples.env0
              (Examples.verifier Examples.completed)
              (Examples.request "POST" [] [] Examples.cart)
              [Examples.widget] Examples.ana Examples.home 1000 Examples.w0)
    as (w1 & p & params & Hparams & _ & _ & Hhook);
    [reflexivity | reflexivity | reflexivity | discriminate
    | reflexivity | reflexivity
    | repeat constructor; vm_compute; reflexivity |].
  injection Hparams as <-.
  destruct (Hhook unit Examples.signed_delivery Examples.completed
              5000 5100 "doc1" Examples.w0)
    as (w3 & order & Hexec & Horders & _ & Htuples);
    [reflexivity | reflexivity | reflexivity |].
  exists w3, order. split; [exact Hexec|]. split; [exact Horders|]. exact Htuples.
Defined.

(** ** The token cache: failures, reuse and concurrent hits *)

Lemma replay_throw {R : Type} (script : list (Z * answer)) (w : World) (e : JsError) :
  replay script (w, @Throw R e) = (w, Throw e).
Proof. now apply replay_finished. Qed.

(** X1. A failed credential exchange is not cached.  With the client id
    and secret configured, when no valid token is cached and the exchange
    fails, [getAccessToken] rejects with [Auth error: <message>], and the
    cached token and its expiry are left as they were, so the cache is valid
    afterwards exactly when it was before: the next caller retries the
    exchange. *)
Theorem getAccessToken_failed_exchange
  (env : Env) (now now1 : Z) (err : JsError) (script : list (Z * answer)) (w : World) :
  credentials_set env = true ->
  cache_valid (mem w) now = false ->
  exists w',
    exec (getAccessToken env) now ((now1, TokenReply (inl err)) :: script) w
      = (w', Throw (Error ("Auth error: " +:+ error_text err))) /\
    cachedToken (mem w') = cachedToken (mem w) /\
    tokenExpiry (mem w') = tokenExpiry (mem w) /\
    calls w' = calls w ++
      [CallToken "client_credentials" (IM_CLIENT_ID env) (IM_CLIENT_SECRET env)] /\
    forall now2, cache_valid (mem w') now2 = cache_valid (mem w) now2.
Proof.
  intros Hcred Hv. unfold exec, getAccessToken, getAccesstoken. simpl.
  rewrite Hv. with_credentials Hcred. simpl.
  rewrite replay_throw.
  eexists. split; [reflexivity|]. simpl.
  repeat split.
Qed.

Lemma getAccessToken_failed_exchange_witness :
  exists w',
    exec (getAccessToken Examples.env0) 1000
         [(2000, TokenReply (inl (Error "invalid_client")))] Examples.w0
      = (w', Throw (Error "Auth error: invalid_client")) /\
    cachedToken (mem w') = None /\
    token_calls (calls w') = 1%nat.
Proof.
  destruct (getAccessToken_failed_exchange Examples.env0 1000 2000
              (Error "invalid_client") [] Examples.w0 eq_refl eq_refl)
    as (w' & Hexec & Htok & _ & Hcalls & _).
  exists w'. split; [exact Hexec|]. split; [exact Htok|].
  rewrite Hcalls. reflexivity.
Defined.

Lemma getAccessToken_hit (env : Env) (now : Z) (script : list (Z * answer))
  (w : World) (tok : string) :
  cachedToken (mem w) = Some tok -> cache_valid (mem w) now = true ->
  exec (getAccessToken env) now script w = (w, Ret tok).
Proof.
  intros Hc Hv. unfold exec, getAccessToken. simpl. rewrite Hv, Hc. simpl.
  apply replay_ret.
Qed.

Lemma getAccessToken_exchanged (env : Env) (now now1 : Z) (data : TokenData)
  (script : list (Z * answer)) (w : World) :
  credentials_set env = true ->
  cache_valid (mem w) now = false ->
  exists m,
    exec (getAccessToken env) now ((now1, TokenReply (inr data)) :: script) w =
      (issue (CallToken "client_credentials" (IM_CLIENT_ID env) (IM_CLIENT_SECRET env))
         (set_mem m w), Ret (access_token data)) /\
    cachedToken m = Some (access_token data) /\
    tokenExpiry m = now1 + 3300000 /\
    apiClient m = apiClient (mem w).
Proof.
  intros Hcred Hv. unfold exec, getAccessToken, getAccesstoken. simpl.
  rewrite Hv. with_credentials Hcred. simpl.
  rewrite replay_ret. eexists. split; [reflexivity|]. repeat split.
Qed.

(** X2. The reuse window of a fresh token.  With the client id and secret
    configured, after a successful exchange answered at [now1], a later
    call is served from the cache, without any outgoing call, when the
    token is not empty and the clock is before [now1] plus 55 minutes; when
    the token is the empty string, or from that instant on, a later call
    starts a new exchange. *)
Theorem getAccessToken_reuse_window
  (env : Env) (now now1 : Z) (data : TokenData) (w : World) :
  credentials_set env = true ->
  cache_valid (mem w) now = false ->
  exists w',
    exec (getAccessToken env) now [(now1, TokenReply (inr data))] w
      = (w', Ret (access_token data)) /\
    forall now2,
      (access_token data <> EmptyString -> now2 < now1 + 3300000 ->
       forall script,
         exec (getAccessToken env) now2 script w' = (w', Ret (access_token data))) /\
      (access_token data = EmptyString \/ now1 + 3300000 <= now2 ->
       exists w2 p,
         exec (getAccessToken env) now2 [] w' = (w2, p) /\
         finished p = false /\
         calls w2 = calls w' ++
           [CallToken "client_credentials" (IM_CLIENT_ID env) (IM_CLIENT_SECRET env)]).
Proof.
  intros Hcred Hv.
  destruct (getAccessToken_exchanged env now now1 data [] w Hcred Hv)
    as (m & Hexec & Htok & Hexp & _).
  eexists. split; [exact Hexec|].
  intros now2. split.
  - intros Hne Hlt script. apply getAccessToken_hit; simpl; [exact Htok|].
    unfold cache_valid. rewrite Htok, Hexp. simpl.
    destruct (access_token data); [contradiction|]. simpl.
    apply Z.ltb_lt. exact Hlt.
  - intros Hor.
    assert (Hb : cache_valid m now2 = false).
    { unfold cache_valid. rewrite Htok, Hexp. simpl.
      destruct Hor as [->|Hle]; [reflexivity|].
      apply andb_false_intro2, Z.ltb_ge. exact Hle. }
    unfold exec, getAccessToken, getAccesstoken. simpl. rewrite Hb.
    with_credentials Hcred. simpl.
    do 2 eexists. repeat split.
Qed.

Lemma getAccessToken_reuse_window_witness :
  exists w',
    exec (getAccessToken Examples.env0) 1000 [(2000, Examples.token "T1" 3600)]
         Examples.w0 = (w', Ret "T1") /\
    exec (getAccessToken Examples.env0) 3301999 [] w' = (w', Ret "T1") /\
    exists w2 p,
      exec (getAccessToken Examples.env0) 3302000 [] w' = (w2, p) /\
      finished p = false /\ token_calls (calls w2) = 2%nat.
Proof.
  destruct (getAccessToken_reuse_window Examples.env0 1000 2000
              {| access_token := "T1"; expires_in := 3600 |} Examples.w0
              eq_refl eq_refl)
    as (w' & Hexec & Hnext).
  exists w'. split; [exact Hexec|].
  split.
  - destruct (Hnext 3301999) as [Hhit _]. apply Hhit; [discriminate|reflexivity].
  - destruct (Hnext 3302000) as [_ Hmiss].
    destruct Hmiss as (w2 & p & Hrun & Hfin & Hcalls); [right; discriminate|].
    exists w2, p. split; [exact Hrun|]. split; [exact Hfin|].
    rewrite Hcalls. vm_compute in Hexec. injection Hexec as <-. reflexivity.
Defined.

Lemma served_step (env : Env) (w : World) (ev : event) (s s' : Sched string) :
  start_hits (mem w) ev ->
  world s = w -> Forall (served env (mem w)) (tasks s) ->
  step ev s = Some s' ->
  world s' = w /\ Forall (served env (mem w)) (tasks s') /\
  started_count (tasks s') = S (started_count (tasks s)).
Proof.
  intros Hhit Hw Hts Hs.
  apply step_inv in Hs as (i & flag & p & w' & p' & Hi & Hw' & Ht & He).
  pose proof (proj1 (Forall_lookup _ _) Hts i _ Hi) as Hst.
  pose proof (started_count_insert _ _ _ (true, p') Hi) as Hc. simpl in Hc.
  rewrite Ht, Hw'.
  destruct ev as [j now|j now a].
  - destruct He as (-> & -> & Hr). simpl in Hhit.
    destruct Hst as [Hst|(tok & _ & Hst)]; [|discriminate].
    injection Hst as ->. rewrite Hw in Hr.
    assert (Hc' : exists tok, cachedToken (mem w) = Some tok).
    { unfold cache_valid in Hhit. destruct (cachedToken (mem w)); [eauto|discriminate]. }
    destruct Hc' as (tok & Hc').
    pose proof (getAccessToken_hit env now [] w tok Hc' Hhit) as Hrun.
    change (run_sync (getAccessToken env) now w = (w, Ret tok)) in Hrun.
    rewrite Hrun in Hr. injection Hr as <- <-.
    split; [reflexivity|]. split; [|lia].
    apply Forall_insert; [assumption|]. right. eauto.
  - destruct He as (-> & -> & w1 & p1 & Hd & _).
    apply deliver_unfinished in Hd.
    destruct Hst as [Hst|(tok & _ & Hst)]; [discriminate|].
    injection Hst as ->. discriminate.
Qed.

Lemma served_run (env : Env) (w : World) (evs : list event) (s st : Sched string) :
  Forall (start_hits (mem w)) evs ->
  world s = w -> Forall (served env (mem w)) (tasks s) ->
  run evs s = Some st ->
  world st = w /\ Forall (served env (mem w)) (tasks st) /\
  started_count (tasks st) = (started_count (tasks s) + length evs)%nat.
Proof.
  intros Hhits. revert s. induction Hhits as [|ev evs Hev _ IH]; intros s Hw Hts; simpl.
  - intros [= <-]. repeat split; auto.
  - destruct (step ev s) as [s1|] eqn:Hs; [|discriminate].
    intros Hrun.
    destruct (served_step env w ev s s1 Hev Hw Hts Hs) as (Hw1 & Hts1 & Hc1).
    destruct (IH s1 Hw1 Hts1 Hrun) as (Hw' & Hts' & Hc).
    repeat split; [assumption..|lia].
Qed.

(** X3. Concurrent callers of [getAccessToken] that each start while the
    cached token is valid perform no credential exchange at all: in any
    schedule the world is left as it was, every caller that has started has
    returned the cached token, and no reply is ever awaited. *)
Theorem getAccessToken_concurrent_hits
  (env : Env) (N : nat) (w : World) (evs : list event) (st : Sched string) :
  Forall (start_hits (mem w)) evs ->
  run evs (spawn w (repeat (getAccessToken env) N)) = Some st ->
  world st = w /\
  Forall (served env (mem w)) (tasks st) /\
  started_count (tasks st) = length evs.
Proof.
  intros Hhits Hrun.
  destruct (served_run env w evs (spawn w (repeat (getAccessToken env) N)) st Hhits)
    as (Hw & Hts & Hc); [reflexivity| |exact Hrun|].
  - simpl. apply Forall_map, Forall_forall. intros p Hp. left.
    apply list_elem_of_In, repeat_spec in Hp. now subst.
  - split; [exact Hw|]. split; [exact Hts|]. rewrite Hc.
    simpl. clear. induction N; simpl; auto.
Qed.

Lemma getAccessToken_concurrent_hits_witness :
  exists st,
    run [Start 1 1000; Start 0 1001; Start 2 1002]
        (spawn Examples.w_warm (repeat (getAccessToken Examples.env0) 3)) = Some st /\
    world st = Examples.w_warm /\
    tasks st = [(true, Ret "T1"); (true, Ret "T1"); (true, Ret "T1")].
Proof.
  match goal with
  | |- exists st, run ?evs ?s0 = _ /\ _ =>
      destruct (run evs s0) as [st|] eqn:Hrun;
        [|vm_compute in Hrun; discriminate Hrun]
  end.
  exists st. split; [reflexivity|].
  pose proof (fun Hhits =>
    getAccessToken_concurrent_hits Examples.env0 3 Examples.w_warm _ st
      Hhits Hrun) as Hthm.
  destruct Hthm as (Hw & _ & _).
  - repeat constructor.
  - split; [exact Hw|].
    vm_compute in Hrun. injection Hrun as <-. reflexivity.
Defined.

(** ** The token cache under concurrency: the last reply wins *)

Lemma cache_step_callers (env : Env) (ev : event) (s s' : Sched string) :
  Forall (caller_state env) (tasks s) ->
  step ev s = Some s' ->
  Forall (caller_state env) (tasks s') /\
  cache_of (mem (world s')) = cache_step (cache_of (mem (world s))) ev.
Proof.
  intros Hts Hs.
  apply step_inv in Hs as (i & flag & p & w' & p' & Hi & Hw & Ht & He).
  pose proof (proj1 (Forall_lookup _ _) Hts i _ Hi) as Hst.
  rewrite Ht, Hw.
  destruct ev as [j now|j now a].
  - destruct He as (-> & -> & Hr).
    destruct Hst as [Hst|[Hst|[Hst _]]]; try discriminate.
    injection Hst as ->.
    destruct (cache_valid (mem (world s)) now) eqn:Hv.
    + assert (Hc : exists tok, cachedToken (mem (world s)) = Some tok).
      { unfold cache_valid in Hv.
        destruct (cachedToken (mem (world s))); [eauto|discriminate]. }
      destruct Hc as (tok & Hc).
      pose proof (getAccessToken_hit env now [] (world s) tok Hc Hv) as Hrun.
      change (run_sync (getAccessToken env) now (world s) = (world s, Ret tok)) in Hrun.
      rewrite Hrun in Hr. injection Hr as <- <-.
      split; [|reflexivity].
      apply Forall_insert; [assumption|]. right; right. split; reflexivity.
    + unfold getAccessToken, getAccesstoken in Hr. simpl in Hr. rewrite Hv in Hr.
      destruct (IM_CLIENT_ID env) as [cid|] eqn:Hid;
        [destruct (IM_CLIENT_SECRET env) as [sec|] eqn:Hsec|];
        simpl in Hr; injection Hr as <- <-; (split; [|reflexivity]);
        (apply Forall_insert; [exact Hts|]).
      * right; left. rewrite Hid, Hsec. reflexivity.
      * right; right. split; reflexivity.
      * right; right. split; reflexivity.
  - destruct He as (-> & -> & w1 & p1 & Hd & Hr).
    destruct Hst as [Hst|[Hst|[_ Hst]]]; try discriminate.
    2:{ apply deliver_unfinished in Hd. simpl in Hst. congruence. }
    injection Hst as ->.
    destruct a as [r|r|r|r]; simpl in Hd; try discriminate.
    injection Hd as <- <-.
    destruct r as [err|data]; simpl in Hr; injection Hr as <- <-.
    + split; [|reflexivity].
      apply Forall_insert; [assumption|]. right; right. split; reflexivity.
    + split; [|reflexivity].
      apply Forall_insert; [assumption|]. right; right. split; reflexivity.
Qed.

(** X4. The token cache under concurrency.  Whatever the interleaving of
    N callers of [getAccessToken] and of the replies to their exchanges, the
    cache ends up holding the token of the successful reply delivered last,
    valid for 55 minutes from that delivery; a caller served from the cache
    and a failed exchange leave it as it is. *)
Theorem getAccessToken_last_reply_wins
  (env : Env) (N : nat) (w : World) (evs : list event) (st : Sched string) :
  run evs (spawn w (repeat (getAccessToken env) N)) = Some st ->
  cache_of (mem (world st)) = fold_left cache_step evs (cache_of (mem w)).
Proof.
  assert (Hinit : Forall (caller_state env)
                    (tasks (spawn w (repeat (getAccessToken env) N)))).
  { simpl. apply Forall_map, Forall_forall. intros p Hp. left.
    apply list_elem_of_In, repeat_spec in Hp. now subst. }
  change (mem w) with (mem (world (spawn w (repeat (getAccessToken env) N)))).
  revert Hinit. generalize (spawn w (repeat (getAccessToken env) N)).
  induction evs as [|ev evs IH]; intros s Hts; simpl.
  - now intros [= <-].
  - destruct (step ev s) as [s1|] eqn:Hs; [|discriminate].
    intros Hrun.
    destruct (cache_step_callers env ev s s1 Hts Hs) as [Hts1 Hc1].
    rewrite <- Hc1. now apply IH.
Qed.

Lemma getAccessToken_last_reply_wins_witness :
  exists st,
    run [Start 0 1000; Start 1 1001;
         Resume 1 2000 (Examples.token "token-b" 3600);
         Resume 0 2500 (Examples.token "token-a" 3600)]
        (spawn Examples.w0 (repeat (getAccessToken Examples.env0) 2)) = Some st /\
    cachedToken (mem (world st)) = Some "token-a" /\
    tokenExpiry (mem (world st)) = 3302500.
Proof.
  match goal with
  | |- exists st, run ?evs ?s0 = _ /\ _ =>
      destruct (run evs s0) as [st|] eqn:Hrun;
        [|vm_compute in Hrun; discriminate Hrun]
  end.
  exists st. split; [reflexivity|].
  pose proof (getAccessToken_last_reply_wins Examples.env0 2 Examples.w0 _ st Hrun)
    as Hthm.
  unfold cache_of in Hthm. simpl in Hthm. injection Hthm as Htok Hexp.
  split; assumption.
Defined.

(** ** The SDK client *)

(** X5. [getApiClient] configures the shared SDK client with the active
    token.  On a cache hit no call is issued and the client carries the
    cached token; on a miss, with the client id and secret configured, it
    carries the token of the reply, which is also the one cached.  The
    client is stored as the shared instance with the sandbox base path and
    the distributor headers.  When the exchange fails the error is passed
    on and the shared client is left untouched; so it is, and no call is
    issued, when a credential is missing. *)
Theorem getApiClient_client
  (env : Env) (now : Z) (script : list (Z * answer)) (w : World) :
  (forall tok, cachedToken (mem w) = Some tok -> cache_valid (mem w) now = true ->
     exists w' client,
       exec (getApiClient env) now script w = (w', Ret client) /\
       calls w' = calls w /\
       apiClient (mem w') = Some client /\
       accessToken client = tok /\
       basePath client = "https://api.ingrammicro.com:443/sandbox" /\
       defaultHeaders client = ingram_headers env) /\
  (cache_valid (mem w) now = false -> credentials_set env = true ->
   forall now1 r,
     match r with
     | inr data =>
         exists w' client,
           exec (getApiClient env) now ((now1, TokenReply r) :: script) w
             = (w', Ret client) /\
           apiClient (mem w') = Some client /\
           accessToken client = access_token data /\
           cachedToken (mem w') = Some (access_token data) /\
           basePath client = "https://api.ingrammicro.com:443/sandbox" /\
           defaultHeaders client = ingram_headers env
     | inl err =>
         exists w',
           exec (getApiClient env) now ((now1, TokenReply r) :: script) w
             = (w', Throw (Error ("Auth error: " +:+ error_text err))) /\
           apiClient (mem w') = apiClient (mem w) /\
           cachedToken (mem w') = cachedToken (mem w)
     end) /\
  (cache_valid (mem w) now = false -> credentials_set env = false ->
   exists w' err,
     exec (getApiClient env) now script w = (w', Throw err) /\
     calls w' = calls w /\
     apiClient (mem w') = apiClient (mem w) /\
     cachedToken (mem w') = cachedToken (mem w)).
Proof.
  split; [|split].
  - intros tok Hc Hv. unfold exec, getApiClient, getAccessToken. simpl.
    rewrite Hv, Hc. simpl. rewrite replay_ret.
    do 2 eexists. split; [reflexivity|]. repeat split.
  - intros Hv Hcred now1 [err|data];
      unfold exec, getApiClient, getAccessToken, getAccesstoken; simpl;
      rewrite Hv; with_credentials Hcred; simpl.
    + rewrite replay_throw. eexists. split; [reflexivity|]. split; reflexivity.
    + rewrite replay_ret. do 2 eexists. split; [reflexivity|]. repeat split.
  - intros Hv Hcred.
    unfold exec, getApiClient, getAccessToken, getAccesstoken; simpl;
      rewrite Hv; without_credentials Hcred; simpl; rewrite replay_throw;
      do 2 eexists; (split; [reflexivity|]); repeat split.
Qed.

Lemma getApiClient_client_witness :
  (exists w' client,
     exec (getApiClient Examples.env0) 1000 [] Examples.w_warm = (w', Ret client) /\
     calls w' = [] /\ accessToken client = "T1") /\
  (exists w' client,
     exec (getApiClient Examples.env0) 1000 [(2000, Examples.token "T2" 3600)]
          Examples.w0 = (w', Ret client) /\
     apiClient (mem w') = Some client /\ accessToken client = "T2") /\
  (exists w' err,
     exec (getApiClient Examples.env_no_client_id) 1000 [] Examples.w0
       = (w', Throw err) /\
     calls w' = [] /\ apiClient (mem w') = None).
Proof.
  split; [|split].
  - destruct (getApiClient_client Examples.env0 1000 [] Examples.w_warm) as [Hhit _].
    destruct (Hhit "T1" eq_refl eq_refl) as (w' & client & Hexec & Hcalls & _ & Htok & _).
    exists w', client. auto.
  - destruct (getApiClient_client Examples.env0 1000 [] Examples.w0) as (_ & Hmiss & _).
    destruct (Hmiss eq_refl eq_refl 2000
                (inr {| access_token := "T2"; expires_in := 3600 |}))
      as (w' & client & Hexec & Hc & Htok & _).
    exists w', client. auto.
  - destruct (getApiClient_client Examples.env_no_client_id 1000 [] Examples.w0)
      as (_ & _ & Hunset).
    destruct (Hunset eq_refl eq_refl) as (w' & err & Hexec & Hcalls & Hclient & _).
    exists w', err. auto.
Defined.

Lemma or_default_nonempty (o : option string) (d : string) :
  d <> EmptyString -> or_default o d <> EmptyString.
Proof.
  intros Hd. unfold or_default. destruct o as [[|c s]|]; simpl; congruence.
Qed.

(** X6. The headers sent to the distributor.  [IM-SenderID] is [Pandishu];
    [IM-SecretKey] is the configured secret; the customer number and the
    country code are the configured values, or [SBX] and [US] when the
    variable is unset or empty, so neither header is ever empty; there is no
    other header. *)
Theorem ingram_headers_lookup (env : Env) :
  ingram_headers env !! "IM-SenderID" = Some "Pandishu" /\
  ingram_headers env !! "IM-SecretKey" = INGRAM_SECRET_KEY env /\
  (exists c, ingram_headers env !! "IM-CustomerNumber" = Some c /\ c <> EmptyString /\
     (forall s, INGRAM_CUSTOMER_NUMBER env = Some s -> s <> EmptyString -> c = s) /\
     (INGRAM_CUSTOMER_NUMBER env = None \/
      INGRAM_CUSTOMER_NUMBER env = Some EmptyString -> c = "SBX")) /\
  (exists c, ingram_headers env !! "IM-CountryCode" = Some c /\ c <> EmptyString /\
     (forall s, INGRAM_COUNTRY_CODE env = Some s -> s <> EmptyString -> c = s) /\
     (INGRAM_COUNTRY_CODE env = None \/
      INGRAM_COUNTRY_CODE env = Some EmptyString -> c = "US")) /\
  (forall k, k <> "IM-SenderID" -> k <> "IM-SecretKey" ->
     k <> "IM-CustomerNumber" -> k <> "IM-CountryCode" ->
     ingram_headers env !! k = None).
Proof.
  assert (Hbase : forall key : option string,
            let h : gmap string string :=
              match key with
              | Some k => <["IM-SecretKey" := k]>
                  (<["IM-SenderID" := "Pandishu"]>
                    (<["IM-CountryCode" := IM_COUNTRY_CODE env]>
                      (<["IM-CustomerNumber" := IM_CUSTOMER_NUM env]> ∅)))
              | None => <["IM-SenderID" := "Pandishu"]>
                    (<["IM-CountryCode" := IM_COUNTRY_CODE env]>
                      (<["IM-CustomerNumber" := IM_CUSTOMER_NUM env]> ∅))
              end in
            h !! "IM-SenderID" = Some "Pandishu" /\
            h !! "IM-SecretKey" = key /\
            h !! "IM-CustomerNumber" = Some (IM_CUSTOMER_NUM env) /\
            h !! "IM-CountryCode" = Some (IM_COUNTRY_CODE env) /\
            forall k, k <> "IM-SenderID" -> k <> "IM-SecretKey" ->
              k <> "IM-CustomerNumber" -> k <> "IM-CountryCode" -> h !! k = None).
  { intros [key|]; cbv zeta; repeat split;
      try (intros k H1 H2 H3 H4);
      rewrite ?lookup_insert_eq; rewrite ?lookup_insert_ne by congruence;
      rewrite ?lookup_insert_eq; rewrite ?lookup_insert_ne by congruence;
      rewrite ?lookup_insert_eq; rewrite ?lookup_insert_ne by congruence;
      rewrite ?lookup_insert_eq; rewrite ?lookup_empty; reflexivity. }
  destruct (Hbase (INGRAM_SECRET_KEY env)) as (H1 & H2 & H3 & H4 & H5).
  change (ingram_headers env !! "IM-SenderID" = Some "Pandishu") in H1.
  split; [exact H1|]. split; [exact H2|].
  split; [|split; [|exact H5]].
  - exists (IM_CUSTOMER_NUM env). split; [exact H3|]. unfold IM_CUSTOMER_NUM.
    split; [apply or_default_nonempty; discriminate|]. split.
    + intros s -> Hs. destruct s; [contradiction|reflexivity].
    + intros [-> | ->]; reflexivity.
  - exists (IM_COUNTRY_CODE env). split; [exact H4|]. unfold IM_COUNTRY_CODE.
    split; [apply or_default_nonempty; discriminate|]. split.
    + intros s -> Hs. destruct s; [contradiction|reflexivity].
    + intros [-> | ->]; reflexivity.
Qed.

(** ** The method gates *)

(** X7. The method gates.  [searchProducts] answers any method other than
    GET, and [getPriceAndAvailability], [createCheckoutSession] and
    [ingramWebhook] any method other than POST, with status 405, leaving the
    world as it was: nothing is logged, stored or sent.  (The CORS
    middleware answers a preflight request before the first three.) *)
Theorem method_gates (env : Env) (now : Z) (script : list (Z * answer)) (w : World) :
  (forall (B : Type) (req : Request B),
     method req <> "GET" -> method req <> "OPTIONS" ->
     exec (searchProducts env req) now script w =
       (w, Ret {| statusCode := 405; sent := json_error "Method not allowed" |})) /\
  (forall req : Request jsvalue,
     method req <> "POST" -> method req <> "OPTIONS" ->
     exec (getPriceAndAvailability env req) now script w =
       (w, Ret {| statusCode := 405; sent := json_error "Method not allowed" |})) /\
  (forall req : Request CheckoutBody,
     method req <> "POST" -> method req <> "OPTIONS" ->
     exec (createCheckoutSession env req) now script w =
       (w, Ret {| statusCode := 405; sent := json_error "Method not allowed" |})) /\
  (forall req : Request jsvalue,
     method req <> "POST" ->
     exec (ingramWebhook env req) now script w =
       (w, Ret {| statusCode := 405; sent := Text "Method Not Allowed" |})).
Proof.
  assert (Hne : forall m k : string, m <> k -> String.eqb m k = false)
    by (intros m k; apply String.eqb_neq).
  split; [|split; [|split]].
  - intros B req Hg Ho. unfold exec, searchProducts, cors.
    rewrite (Hne _ _ Hg), (Hne _ _ Ho). simpl. apply replay_ret.
  - intros req Hp Ho. unfold exec, getPriceAndAvailability, cors.
    rewrite (Hne _ _ Hp), (Hne _ _ Ho). simpl. apply replay_ret.
  - intros req Hp Ho. unfold exec, createCheckoutSession, cors.
    rewrite (Hne _ _ Hp), (Hne _ _ Ho). simpl. apply replay_ret.
  - intros req Hp. unfold exec, ingramWebhook.
    rewrite (Hne _ _ Hp). simpl. apply replay_ret.
Qed.

Lemma method_gates_witness :
  exec (searchProducts Examples.env0 (Examples.request "POST" [] [] tt))
       1000 [] Examples.w0 =
    (Examples.w0, Ret {| statusCode := 405; sent := json_error "Method not allowed" |}) /\
  exec (ingramWebhook Examples.env0 (Examples.request "GET" [] [] JNull))
       1000 [] Examples.w0 =
    (Examples.w0, Ret {| statusCode := 405; sent := Text "Method Not Allowed" |}).
Proof.
  destruct (method_gates Examples.env0 1000 [] Examples.w0) as (Hs & _ & _ & Hi).
  split.
  - apply (Hs unit (Examples.request "POST" [] [] tt)); discriminate.
  - apply (Hi (Examples.request "GET" [] [] JNull)); discriminate.
Defined.

(** ** FUNCTION 1: the outcome of a catalog search *)

(** [err.response?.body || err.response || null], case by case. *)
Lemma error_details_cases (err : JsError) :
  error_details err =
    (let body := get_optional (response err) "body" in
     if truthy body then body
     else if truthy (response err) then response err else JNull).
Proof.
  unfold error_details, js_or. cbv zeta.
  destruct (truthy (get_optional (response err) "body")) eqn:Hb.
  - now rewrite Hb.
  - reflexivity.
Qed.

(** X8. The outcome of a catalog search.  With a cached token the search
    call is the only call issued; its correlation id carries the clock
    reading after the client was obtained.  A result is passed on unchanged
    with status 200; a failure is answered with status 500, the upstream
    message (or [Internal error]) and, as details, the body of the upstream
    response when it is truthy, else the response itself, else [null].  On
    a cold cache, with the client id and secret configured, a failed
    credential exchange is answered with status 500 and no search is sent,
    and a successful one is followed by the search; with a credential
    missing the answer is 500 at once and nothing is sent upstream. *)
Theorem searchProducts_outcomes
  {B : Type} (env : Env) (req : Request B) (now now1 now2 : Z)
  (script : list (Z * answer)) (w : World) :
  method req = "GET" ->
  let search_call t :=
    CallSearch (IM_CUSTOMER_NUM env) (IM_COUNTRY_CODE env)
      ("pandishu-search-" +:+ pretty t) (search_opts (query req)) in
  let token_call :=
    CallToken "client_credentials" (IM_CLIENT_ID env) (IM_CLIENT_SECRET env) in
  let details (err : JsError) :=
    let body := get_optional (response err) "body" in
    if truthy body then body
    else if truthy (response err) then response err else JNull in
  let answered (r : JsError + jsvalue) (resp : Response) :=
    match r with
    | inr data => resp = {| statusCode := 200; sent := Json data |}
    | inl err =>
        statusCode resp = 500 /\
        sent resp = Json (JObj [("error", JStr (message_or err "Internal error"));
                                ("details", details err)])
    end in
  (cache_valid (mem w) now = true ->
   forall r, exists w' resp,
     exec (searchProducts env req) now ((now1, CatalogReply r) :: script) w
       = (w', Ret resp) /\
     answered r resp /\
     calls w' = calls w ++ [search_call now]) /\
  (cache_valid (mem w) now = false -> credentials_set env = true ->
   (forall err, exists w' resp,
      exec (searchProducts env req) now ((now1, TokenReply (inl err)) :: script) w
        = (w', Ret resp) /\
      statusCode resp = 500 /\
      sent resp = Json (JObj [("error", JStr ("Auth error: " +:+ error_text err));
                              ("details", JNull)]) /\
      calls w' = calls w ++ [token_call]) /\
   (forall data r, exists w' resp,
      exec (searchProducts env req) now
           ((now1, TokenReply (inr data)) :: (now2, CatalogReply r) :: script) w
        = (w', Ret resp) /\
      answered r resp /\
      calls w' = calls w ++ [token_call; search_call now1])) /\
  (cache_valid (mem w) now = false -> credentials_set env = false ->
   exists w' resp,
     exec (searchProducts env req) now script w = (w', Ret resp) /\
     statusCode resp = 500 /\
     calls w' = calls w).
Proof.
  intros Hm search_call token_call details answered.
  assert (Hd : forall err, error_details err = details err)
    by exact error_details_cases.
  split; [|split]; intros Hv.
  - intros r. unfold exec, searchProducts, cors. rewrite Hm. simpl.
    unfold getApiClient, getAccessToken. simpl. rewrite Hv. simpl.
    destruct r as [err|data]; simpl; rewrite replay_ret;
      do 2 eexists; (split; [reflexivity|]); simpl; rewrite ?Hd; repeat split.
  - intros Hcred. split.
    + intros err. unfold exec, searchProducts, cors. rewrite Hm. simpl.
      unfold getApiClient, getAccessToken, getAccesstoken. simpl. rewrite Hv.
      subst token_call. with_credentials Hcred. simpl.
      rewrite replay_ret. do 2 eexists. split; [reflexivity|]. repeat split.
    + intros data r. unfold exec, searchProducts, cors. rewrite Hm. simpl.
      unfold getApiClient, getAccessToken, getAccesstoken. simpl. rewrite Hv.
      subst token_call. with_credentials Hcred. simpl.
      destruct r as [err|res]; simpl; rewrite replay_ret;
        do 2 eexists; (split; [reflexivity|]); simpl; rewrite <- app_assoc;
        rewrite ?Hd; repeat split.
  - intros Hcred. unfold exec, searchProducts, cors. rewrite Hm. simpl.
    unfold getApiClient, getAccessToken, getAccesstoken. simpl. rewrite Hv.
    without_credentials Hcred; simpl; rewrite replay_ret;
      do 2 eexists; (split; [reflexivity|]); split; reflexivity.
Qed.

Lemma searchProducts_outcomes_witness :
  (exists w',
     exec (searchProducts Examples.env0
             (Examples.request "GET" [("keyword", "laptop")] [] tt))
          1000 [(2000, CatalogReply (inr (JObj [("recordsFound", JNum (of_Z 0))])))]
          Examples.w_warm
       = (w', Ret {| statusCode := 200;
                     sent := Json (JObj [("recordsFound", JNum (of_Z 0))]) |}) /\
     calls w' =
       [CallSearch "SBX" "MX" "pandishu-search-1000"
          (search_opts {[ "keyword" := "laptop" ]})]) /\
  (exists w' resp,
     exec (searchProducts Examples.env0
             (Examples.request "GET" [("keyword", "laptop")] [] tt))
          1000 [(2000, TokenReply (inl (Error "invalid_client")))] Examples.w0
       = (w', Ret resp) /\
     statusCode resp = 500 /\ token_calls (calls w') = 1%nat /\
     length (calls w') = 1%nat) /\
  (exists w' resp,
     exec (searchProducts Examples.env0
             (Examples.request "GET" [("keyword", "laptop")] [] tt))
          1000 [(2000, CatalogReply (inl Examples.upstream_failure))]
          Examples.w_warm
       = (w', Ret resp) /\
     statusCode resp = 500 /\
     sent resp = Json (JObj [("error", JStr "Internal Server Error");
                             ("details", Examples.failed_response)])) /\
  (exists w' resp,
     exec (searchProducts Examples.env_no_client_id
             (Examples.request "GET" [("keyword", "laptop")] [] tt))
          1000 [] Examples.w0
       = (w', Ret resp) /\
     statusCode resp = 500 /\ calls w' = []).
Proof.
  set (req := Examples.request "GET" [("keyword", "laptop")] [] tt).
  split; [|split; [|split]].
  - destruct (searchProducts_outcomes Examples.env0 req 1000 2000 3000 []
                Examples.w_warm eq_refl) as [Hhit _].
    destruct (Hhit eq_refl (inr (JObj [("recordsFound", JNum (of_Z 0))])))
      as (w' & resp & Hexec & -> & Hcalls).
    exists w'. split; [exact Hexec|]. rewrite Hcalls. reflexivity.
  - destruct (searchProducts_outcomes Examples.env0 req 1000 2000 3000 []
                Examples.w0 eq_refl) as (_ & Hmiss & _).
    destruct (Hmiss eq_refl eq_refl) as [Hfail _].
    destruct (Hfail (Error "invalid_client")) as (w' & resp & Hexec & Hcode & _ & Hcalls).
    exists w', resp. split; [exact Hexec|]. split; [exact Hcode|].
    rewrite Hcalls. split; reflexivity.
  - destruct (searchProducts_outcomes Examples.env0 req 1000 2000 3000 []
                Examples.w_warm eq_refl) as [Hhit _].
    destruct (Hhit eq_refl (inl Examples.upstream_failure))
      as (w' & resp & Hexec & [Hcode Hsent] & _).
    exists w', resp. split; [exact Hexec|]. split; [exact Hcode|exact Hsent].
  - destruct (searchProducts_outcomes Examples.env_no_client_id req 1000 2000 3000 []
                Examples.w0 eq_refl) as (_ & _ & Hunset).
    exact (Hunset eq_refl eq_refl).
Defined.

(** ** Integers as Numbers, and [parseInt] on decimal text *)

Lemma binary_round_aux_canonical (s : bool) (m : positive) (e : Z) :
  bounded prec emax m e = true ->
  binary_round_aux prec emax s (Z.pos m) e loc_Exact = S754_finite s m e.
Proof.
  intros Hb. pose proof (bounded_canonical m e Hb) as Hc.
  unfold bounded in Hb. apply andb_prop in Hb as [_ He].
  unfold binary_round_aux, shr_fexp. simpl Zdigits2.
  rewrite digits2_pos_log2, Hc, Z.sub_diag. simpl.
  rewrite digits2_pos_log2, Hc, Z.sub_diag. simpl. rewrite He. reflexivity.
Qed.

Lemma iter_xO_pow2 (m k : positive) :
  Z.pos (Pos.iter xO m k) = Z.pos m * 2 ^ Z.pos k.
Proof.
  rewrite (Pos.iter_swap_gen _ _ Z.pos xO (Z.mul 2)) by reflexivity.
  change (Pos.iter (Z.mul 2) (Z.pos m) k) with (Z.shiftl (Z.pos m) (Z.pos k)).
  apply Z.shiftl_mul_pow2. lia.
Qed.

Lemma bits_pos (p : positive) : 1 <= bits p.
Proof. unfold bits. pose proof (Z.log2_nonneg (Z.pos p)). lia. Qed.

Lemma bits_spec (p : positive) : 2 ^ (bits p - 1) <= Z.pos p < 2 ^ bits p.
Proof.
  unfold bits. replace (Z.log2 (Z.pos p) + 1 - 1) with (Z.log2 (Z.pos p)) by lia.
  replace (Z.log2 (Z.pos p) + 1) with (Z.succ (Z.log2 (Z.pos p))) by lia.
  apply Z.log2_spec. lia.
Qed.

(** An integer below [2^53] is a Number, exactly. *)
Lemma of_Z_exact (p : positive) :
  bits p <= 53 ->
  of_Z (Z.pos p) =
    S754_finite false (Z.to_pos (Z.pos p * 2 ^ (53 - bits p))) (bits p - 53).
Proof.
  intros Hd. pose proof (bits_pos p) as H1.
  unfold of_Z, binary_normalize, binary_round.
  rewrite digits2_pos_log2. fold (bits p).
  assert (Hf : fexp prec emax (bits p + 0) = bits p - 53).
  { unfold fexp, emin, prec, emax. lia. }
  rewrite Hf. unfold shl_align.
  destruct (bits p - 53 - 0) as [|k|k] eqn:Hk; try lia.
  - assert (Hb : bits p = 53) by lia. rewrite Hb. simpl Z.sub.
    rewrite Z.mul_1_r. simpl Z.to_pos.
    apply binary_round_aux_canonical.
    unfold bounded, canonical_mantissa. rewrite digits2_pos_log2. fold (bits p).
    rewrite Hb. reflexivity.
  - assert (Hs : 53 - bits p = Z.pos k) by lia.
    rewrite Hs, <- iter_xO_pow2. simpl Z.to_pos.
    apply binary_round_aux_canonical.
    unfold bounded, canonical_mantissa. rewrite digits2_pos_log2.
    rewrite iter_xO_pow2, Z.log2_mul_pow2 by lia.
    replace (Z.pos k + Z.log2 (Z.pos p) + 1 + (bits p - 53)) with (bits p)
      by (unfold bits in *; lia).
    unfold fexp, emin, prec, emax.
    apply andb_true_intro. split; [apply Z.eqb_eq | apply Z.leb_le]; lia.
Qed.

(** Below [2^53] the order of Numbers is the order of the integers. *)
Lemma of_Z_compare (p q : positive) :
  bits p <= 53 -> bits q <= 53 ->
  SFcompare (of_Z (Z.pos p)) (of_Z (Z.pos q)) = Some (Z.pos p ?= Z.pos q).
Proof.
  intros Hp Hq. rewrite (of_Z_exact p Hp), (of_Z_exact q Hq).
  cbn [SFcompare]. f_equal.
  pose proof (bits_spec p) as [Hp1 Hp2]. pose proof (bits_spec q) as [Hq1 Hq2].
  pose proof (bits_pos p). pose proof (bits_pos q).
  destruct (Z.compare_spec (bits p - 53) (bits q - 53)) as [He|Hl|Hg].
  - assert (Hbits : bits p = bits q) by lia. rewrite Hbits.
    assert (Hpow : 0 < 2 ^ (53 - bits q)) by (apply Z.pow_pos_nonneg; lia).
    change (Pos.compare_cont Eq ?a ?b) with (Pos.compare a b).
    rewrite <- Z2Pos.inj_compare by lia.
    symmetry. apply Zmult_compare_compat_r. lia.
  - symmetry. apply Z.compare_lt_iff.
    assert (2 ^ bits p <= 2 ^ (bits q - 1)) by (apply Z.pow_le_mono_r; lia). lia.
  - symmetry. apply Z.compare_gt_iff.
    assert (2 ^ bits q <= 2 ^ (bits p - 1)) by (apply Z.pow_le_mono_r; lia). lia.
Qed.

Lemma bits_below (p : positive) (k : Z) : Z.pos p < 2 ^ k -> bits p <= k.
Proof.
  intros Hlt. pose proof (bits_spec p) as [Hlo _]. pose proof (bits_pos p).
  destruct (Z_le_gt_dec (bits p) k) as [|Hgt]; [assumption|].
  assert (2 ^ k <= 2 ^ (bits p - 1)).
  { destruct (Z_le_gt_dec 0 k); [apply Z.pow_le_mono_r; lia|].
    rewrite (Z.pow_neg_r 2 k) by lia. apply Z.pow_nonneg. lia. }
  lia.
Qed.

Lemma read_radix_acc (d : Decimal.uint) (acc : positive) :
  read_radix 10 (NilEmpty.string_of_uint d) (Some (Z.pos acc)) =
    Some (Z.pos (Pos.of_uint_acc d acc)).
Proof.
  revert acc. induction d; intros acc; simpl; [reflexivity|..];
    rewrite <- IHd; f_equal; f_equal; lia.
Qed.

Lemma read_radix_zero (d : Decimal.uint) :
  read_radix 10 (NilEmpty.string_of_uint d) (Some 0) = Some (Z.of_N (Pos.of_uint d)).
Proof.
  induction d; simpl; try reflexivity; try exact IHd;
    apply (read_radix_acc d).
Qed.

Lemma read_radix_digits (n : N) :
  read_radix 10 (digits_of_N n) None = Some (Z.of_N n).
Proof.
  unfold digits_of_N.
  rewrite <- (DecimalN.Unsigned.of_to n) at 2.
  pose proof (N_to_uint_nonnil n) as Hne.
  unfold N.of_uint.
  destruct (N.to_uint n) as [|d|d|d|d|d|d|d|d|d|d]; [contradiction|..].
  all: simpl; first [apply read_radix_zero | apply read_radix_acc].
Qed.

(** [parseInt] of the decimal digits of [n] is the Number [n]. *)
Lemma parseInt_digits (n : N) : parseInt (Some (digits_of_N n)) = of_Z (Z.of_N n).
Proof.
  pose proof (read_radix_digits n) as Hr.
  destruct n as [|p]; [reflexivity|].
  pose proof (digits_of_N_leading (N.pos p)) as Hl.
  destruct (digits_head (N.pos p)) as (c & r & Hd & Hc).
  rewrite Hd in *.
  assert (Hz : Ascii.eqb c "0" = true -> r = EmptyString).
  { intros Hz. destruct r; [reflexivity|]. simpl in Hl. rewrite Hz in Hl. discriminate. }
  unfold parseInt.
  destruct c as [[] [] [] [] [] [] [] []]; try (vm_compute in Hc; discriminate Hc);
    cbn [default from_option trim_start is_js_space nat_of_ascii];
    try (rewrite (Hz eq_refl) in * ); simpl; simpl in Hr;
    first [discriminate Hr | rewrite Hr; reflexivity].
Qed.

Lemma of_Z_truthy (p : positive) : Z.pos p < 2 ^ 53 -> Num.truthy (of_Z (Z.pos p)) = true.
Proof. intros Hlt. now rewrite (of_Z_exact p (bits_below p 53 Hlt)). Qed.

Lemma Math_min_of_Z (p q : positive) :
  Z.pos p < 2 ^ 53 -> Z.pos q < 2 ^ 53 ->
  Math_min (of_Z (Z.pos p)) (of_Z (Z.pos q)) = of_Z (Z.pos (Pos.min p q)).
Proof.
  intros Hp Hq. unfold Math_min.
  rewrite (of_Z_compare p q (bits_below p 53 Hp) (bits_below q 53 Hq)).
  unfold Pos.min. change (Z.pos p ?= Z.pos q) with (p ?= q)%positive.
  destruct (Pos.compare_spec p q) as [->|Hlt|Hgt].
  - rewrite (of_Z_exact q (bits_below q 53 Hq)). reflexivity.
  - reflexivity.
  - reflexivity.
Qed.

(** X9. The page of a catalog search whose query gives it in decimal
    digits (any integer below 2^53): page number 0 is replaced by 1 and any
    other is sent as it is; page size 0 is replaced by 24, a page size from
    1 to 100 is sent as it is, and a larger one is replaced by 100. *)
Theorem searchProducts_decimal_page (q : gmap string string) (n : N) :
  Z.of_N n < 2 ^ 53 ->
  (q !! "pageNumber" = Some (digits_of_N n) ->
   pageNumber (search_opts q) = if (n =? 0)%N then of_Z 1 else of_Z (Z.of_N n)) /\
  (q !! "pageSize" = Some (digits_of_N n) ->
   pageSize (search_opts q) =
     if (n =? 0)%N then of_Z 24
     else if (n <=? 100)%N then of_Z (Z.of_N n) else of_Z 100).
Proof.
  intros Hn. unfold search_opts. cbn [pageNumber pageSize].
  split; intros ->; rewrite parseInt_digits; (destruct n as [|p]; [reflexivity|]).
  - cbn [N.eqb Z.of_N]. unfold number_or. now rewrite (of_Z_truthy p Hn).
  - cbn [N.eqb Z.of_N]. unfold number_or. rewrite (of_Z_truthy p Hn).
    change (of_Z 100) with (of_Z (Z.pos 100)).
    rewrite (Math_min_of_Z p 100 Hn) by reflexivity.
    unfold Pos.min, N.leb. cbn [N.compare].
    destruct (p ?= 100)%positive; reflexivity.
Qed.

Lemma searchProducts_decimal_page_witness :
  pageNumber (search_opts {[ "pageNumber" := "0" ]}) = of_Z 1 /\
  pageNumber (search_opts {[ "pageNumber" := "7" ]}) = of_Z 7 /\
  pageSize (search_opts {[ "pageSize" := "0" ]}) = of_Z 24 /\
  pageSize (search_opts {[ "pageSize" := "50" ]}) = of_Z 50 /\
  pageSize (search_opts {[ "pageSize" := "101" ]}) = of_Z 100.
Proof.
  split; [|split; [|split; [|split]]].
  - apply (searchProducts_decimal_page {[ "pageNumber" := "0" ]} 0);
      [reflexivity | reflexivity].
  - apply (searchProducts_decimal_page {[ "pageNumber" := "7" ]} 7);
      [reflexivity | reflexivity].
  - apply (searchProducts_decimal_page {[ "pageSize" := "0" ]} 0);
      [reflexivity | reflexivity].
  - apply (searchProducts_decimal_page {[ "pageSize" := "50" ]} 50);
      [reflexivity | reflexivity].
  - apply (searchProducts_decimal_page {[ "pageSize" := "101" ]} 101);
      [reflexivity | reflexivity].
Defined.

(** ** FUNCTION 2: the sku list and the outcome *)

(** X10. A POST request whose body has no [skus] property, or one that is
    not an array (a string, a number, an object), is answered with status
    400 and leaves the world as it was. *)
Theorem getPriceAndAvailability_requires_array
  (env : Env) (req : Request jsvalue) (v : jsvalue) (now : Z)
  (script : list (Z * answer)) (w : World) :
  method req = "POST" ->
  get_prop (body req) "skus" = inr v ->
  is_array v = None ->
  exec (getPriceAndAvailability env req) now script w =
    (w, Ret {| statusCode := 400; sent := json_error "Se requiere el array skus" |}).
Proof.
  intros Hm Hs Ha. apply (destructure_get_prop _ _ _ "req.body") in Hs.
  unfold exec, getPriceAndAvailability, cors. rewrite Hm. simpl.
  rewrite Hs. simpl. rewrite Ha. simpl. apply replay_ret.
Qed.

Lemma getPriceAndAvailability_requires_array_witness :
  exec (getPriceAndAvailability Examples.env0
          (Examples.request "POST" [] [] (JObj [("skus", JStr "SKU1,SKU2")])))
       1000 [] Examples.w0 =
    (Examples.w0,
     Ret {| statusCode := 400; sent := json_error "Se requiere el array skus" |}) /\
  exec (getPriceAndAvailability Examples.env0
          (Examples.request "POST" [] [] (JObj [])))
       1000 [] Examples.w0 =
    (Examples.w0,
     Ret {| statusCode := 400; sent := json_error "Se requiere el array skus" |}).
Proof.
  split.
  - apply (getPriceAndAvailability_requires_array Examples.env0
             (Examples.request "POST" [] [] (JObj [("skus", JStr "SKU1,SKU2")]))
             (JStr "SKU1,SKU2")); reflexivity.
  - apply (getPriceAndAvailability_requires_array Examples.env0
             (Examples.request "POST" [] [] (JObj [])) JUndefined); reflexivity.
Defined.

(** X11. The outcome of a price and availability request with 1 to 50
    skus.  The products sent upstream are the skus in their order, each as
    [{ingramPartNumber: String(sku)}] (a sku that is a string as it is,
    [null] as [null]), as the SDK builds them.  A result is passed on
    unchanged with status 200; a failure is answered with status 500 and
    the upstream message (or [Internal error]).  A sku that cannot be
    converted to a string is answered with status 500 once the token is at
    hand, and no distributor call is sent.  On a cold cache, with the client
    id and secret configured, a failed credential exchange is answered with
    status 500 and no distributor call is sent; with a credential missing
    the answer is 500 at once and nothing is sent upstream. *)
Theorem getPriceAndAvailability_outcomes
  (env : Env) (req : Request jsvalue) (l : list jsvalue) (now now1 now2 : Z)
  (script : list (Z * answer)) (w : World) :
  method req = "POST" ->
  get_prop (body req) "skus" = inr (JArr l) ->
  (1 <= length l <= 50)%nat ->
  let price_call t products :=
    CallPriceAvail (IM_CUSTOMER_NUM env) (IM_COUNTRY_CODE env)
      ("pandishu-pa-" +:+ pretty t) products in
  let token_call :=
    CallToken "client_credentials" (IM_CLIENT_ID env) (IM_CLIENT_SECRET env) in
  let failed (err : JsError) : Response :=
    {| statusCode := 500; sent := json_error (message_or err "Internal error") |} in
  let outcome (before : list extcall) (t : Z) (r : JsError + jsvalue)
              (w' : World) (resp : Response) :=
    match request_products l with
    | inr products =>
        calls w' = calls w ++ before ++ [price_call t products] /\
        match r with
        | inr data => resp = {| statusCode := 200; sent := Json data |}
        | inl err => resp = failed err
        end
    | inl err => calls w' = calls w ++ before /\ resp = failed err
    end in
  (cache_valid (mem w) now = true ->
   forall r, exists w' resp,
     exec (getPriceAndAvailability env req) now ((now1, CatalogReply r) :: script) w
       = (w', Ret resp) /\
     outcome [] now r w' resp) /\
  (cache_valid (mem w) now = false -> credentials_set env = true ->
   (forall err, exists w',
      exec (getPriceAndAvailability env req) now
           ((now1, TokenReply (inl err)) :: script) w
        = (w', Ret (failed (Error ("Auth error: " +:+ error_text err)))) /\
      calls w' = calls w ++ [token_call]) /\
   (forall data r, exists w' resp,
      exec (getPriceAndAvailability env req) now
           ((now1, TokenReply (inr data)) :: (now2, CatalogReply r) :: script) w
        = (w', Ret resp) /\
      outcome [token_call] now1 r w' resp)) /\
  (cache_valid (mem w) now = false -> credentials_set env = false ->
   exists w' resp,
     exec (getPriceAndAvailability env req) now script w = (w', Ret resp) /\
     statusCode resp = 500 /\
     calls w' = calls w) /\
  (forall skus : list string, l = map JStr skus ->
     request_products l =
       inr (map (fun sku => JObj [("ingramPartNumber", JStr sku)]) skus)).
Proof.
  intros Hm Hs Hlen price_call token_call failed outcome.
  apply (destructure_get_prop _ _ _ "req.body") in Hs.
  assert (Hstart : getPriceAndAvailability env req =
    try_catch
      (getApiClient env;;
       products ← settle (request_products l);
       now ← date_now;
       let correlationId := "pandishu-pa-" +:+ pretty now in
       r ← AwaitPriceAvail (IM_CUSTOMER_NUM env) (IM_COUNTRY_CODE env) correlationId
             products settle;
       respond 200 (Json r))
      (fun err =>
         log LogError ("getPriceAndAvailability error: " +:+ error_text err);;
         respond 500 (json_error (message_or err "Internal error")))).
  { unfold getPriceAndAvailability, cors. rewrite Hm. simpl. rewrite Hs. simpl.
    destruct l as [|s l]; [simpl in Hlen; lia|].
    destruct (50 <? length (s :: l))%nat eqn:Hlt; [|reflexivity].
    apply Nat.ltb_lt in Hlt. lia. }
  rewrite Hstart. clear Hstart. subst outcome. cbv beta.
  split; [|split; [|split]].
  - intros Hv r. unfold exec, getApiClient, getAccessToken. simpl. rewrite Hv. simpl.
    destruct (request_products l) as [bad|products]; simpl.
    + rewrite ?replay_ret. do 2 eexists. split; [reflexivity|].
      simpl. rewrite app_nil_r. split; reflexivity.
    + destruct r as [err|data]; simpl; rewrite replay_ret;
        do 2 eexists; (split; [reflexivity|]); split; reflexivity.
  - intros Hv Hcred. split.
    + intros err. unfold exec, getApiClient, getAccessToken, getAccesstoken. simpl.
      rewrite Hv. subst token_call. with_credentials Hcred. simpl.
      rewrite replay_ret. eexists. split; reflexivity.
    + intros data r. unfold exec, getApiClient, getAccessToken, getAccesstoken. simpl.
      rewrite Hv. subst token_call. with_credentials Hcred. simpl.
      destruct (request_products l) as [bad|products]; simpl.
      * rewrite ?replay_ret. do 2 eexists. split; [reflexivity|].
        split; reflexivity.
      * destruct r as [err|res]; simpl; rewrite replay_ret;
          do 2 eexists; (split; [reflexivity|]); simpl; rewrite <- app_assoc;
          split; reflexivity.
  - intros Hv Hcred. unfold exec, getApiClient, getAccessToken, getAccesstoken. simpl.
    rewrite Hv. without_credentials Hcred; simpl; rewrite replay_ret;
      do 2 eexists; (split; [reflexivity|]); split; reflexivity.
  - intros skus ->. apply request_products_strings.
Qed.

Lemma getPriceAndAvailability_outcomes_witness :
  (exists w',
     exec (getPriceAndAvailability Examples.env0
             (Examples.request "POST" [] []
                (JObj [("skus", JArr [JStr "A1"; JStr "B2"])])))
          1000 [(2000, Examples.token "T1" 3600); (3000, CatalogReply (inr (JArr [])))]
          Examples.w0
       = (w', Ret {| statusCode := 200; sent := Json (JArr []) |}) /\
     calls w' =
       [CallToken "client_credentials" (Some "client-id") (Some "client-secret");
        CallPriceAvail "SBX" "MX" "pandishu-pa-2000"
          [JObj [("ingramPartNumber", JStr "A1")];
           JObj [("ingramPartNumber", JStr "B2")]]]) /\
  (exists w',
     exec (getPriceAndAvailability Examples.env0
             (Examples.request "POST" [] []
                (JObj [("skus", JArr [JStr "A1"; JStr "B2"])])))
          1000 [(2000, TokenReply (inl (Error "invalid_client")))] Examples.w0
       = (w', Ret {| statusCode := 500;
                     sent := json_error "Auth error: invalid_client" |}) /\
     calls w' =
       [CallToken "client_credentials" (Some "client-id") (Some "client-secret")]) /\
  (exists w' resp,
     exec (getPriceAndAvailability Examples.env_no_client_id
             (Examples.request "POST" [] []
                (JObj [("skus", JArr [JStr "A1"; JStr "B2"])])))
          1000 [] Examples.w0
       = (w', Ret resp) /\
     statusCode resp = 500 /\ calls w' = []).
Proof.
  split; [|split].
  - destruct (getPriceAndAvailability_outcomes Examples.env0
                (Examples.request "POST" [] []
                   (JObj [("skus", JArr [JStr "A1"; JStr "B2"])]))
                [JStr "A1"; JStr "B2"] 1000 2000 3000 [] Examples.w0)
      as (_ & Hmiss & _); [reflexivity | reflexivity | simpl; lia |].
    destruct (Hmiss eq_refl eq_refl) as [_ Hok].
    destruct (Hok {| access_token := "T1"; expires_in := 3600 |} (inr (JArr [])))
      as (w' & resp & Hexec & Hcalls & ->).
    exists w'. split; [exact Hexec | exact Hcalls].
  - destruct (getPriceAndAvailability_outcomes Examples.env0
                (Examples.request "POST" [] []
                   (JObj [("skus", JArr [JStr "A1"; JStr "B2"])]))
                [JStr "A1"; JStr "B2"] 1000 2000 3000 [] Examples.w0)
      as (_ & Hmiss & _); [reflexivity | reflexivity | simpl; lia |].
    destruct (Hmiss eq_refl eq_refl) as [Hfail _].
    destruct (Hfail (Error "invalid_client")) as (w' & Hexec & Hcalls).
    exists w'. split; [exact Hexec | exact Hcalls].
  - destruct (getPriceAndAvailability_outcomes Examples.env_no_client_id
                (Examples.request "POST" [] []
                   (JObj [("skus", JArr [JStr "A1"; JStr "B2"])]))
                [JStr "A1"; JStr "B2"] 1000 2000 3000 [] Examples.w0)
      as (_ & _ & Hunset & _); [reflexivity | reflexivity | simpl; lia |].
    exact (Hunset eq_refl eq_refl).
Defined.

(** ** FUNCTION 3: what the distributor webhook records *)

Lemma prefix_spec (sub s : string) :
  String.prefix sub s = true <-> exists b, s = sub +:+ b.
Proof.
  revert s. induction sub as [|c sub IH]; intros s.
  - split; [eauto|]. intros _. now destruct s.
  - destruct s as [|d s]; [split; [discriminate | intros (b & Hb); discriminate]|].
    cbn [String.prefix]. destruct (ascii_dec c d) as [->|Hne].
    + rewrite IH. split; intros (b & Hb); exists b; simpl in *; congruence.
    + split; [discriminate|]. intros (b & Hb). simpl in Hb. congruence.
Qed.

(** [s.includes(sub)] holds exactly when [sub] occurs in [s]. *)
Lemma includes_spec (sub s : string) :
  includes sub s = true <-> exists a b, s = a +:+ sub +:+ b.
Proof.
  induction s as [|c s IH].
  - cbn [includes]. rewrite orb_false_r, prefix_spec. split.
    + intros (b & Hb). exists EmptyString, b. exact Hb.
    + intros (a & b & Hab). destruct a; [eauto|discriminate].
  - cbn [includes]. rewrite orb_true_iff, IH, prefix_spec. split.
    + intros [(b & Hb)|(a & b & Hab)].
      * exists EmptyString, b. exact Hb.
      * exists (String c a), b. simpl. now rewrite Hab.
    + intros (a & b & Hab). destruct a as [|d a].
      * left. eauto.
      * right. simpl in Hab. injection Hab as _ Hs. eauto.
Qed.

(** X12. What the distributor webhook records.  For a POST request with a
    body, once the store accepts the write the answer is 200 with
    [{status: 'received'}] and one document is added to [ingram_events]:
    its payload is the body as received and its event type is the body's
    [topic], else its [eventType], else ['unknown'], whichever comes first
    that is truthy, so it is never empty.  No other collection changes. *)
Theorem ingramWebhook_event_type
  (env : Env) (req : Request jsvalue) (topic kind : jsvalue) (now now1 : Z)
  (docid : string) (script : list (Z * answer)) (w : World) :
  method req = "POST" ->
  get_prop (body req) "topic" = inr topic ->
  get_prop (body req) "eventType" = inr kind ->
  let stored :=
    if truthy topic then topic else if truthy kind then kind else JStr "unknown" in
  exists w',
    exec (ingramWebhook env req) now ((now1, AddReply (inr docid)) :: script) w =
      (w', Ret {| statusCode := 200;
                  sent := Json (JObj [("status", JStr "received")]) |}) /\
    collection w' "ingram_events" =
      collection w "ingram_events" ++
      [EventDoc {| eventType := stored; rawPayload := body req |}] /\
    truthy stored = true /\
    (forall c, c <> "ingram_events" -> collection w' c = collection w c).
Proof.
  intros Hm Ht Hk stored.
  unfold exec, ingramWebhook. rewrite Hm. simpl. rewrite Ht. simpl.
  subst stored.
  destruct (signature_mismatch env _); simpl;
    destruct (truthy topic) eqn:Htr; simpl; rewrite ?Hk; simpl;
    rewrite replay_ret; eexists; (split; [reflexivity|]);
    unfold js_or; rewrite ?Htr; destruct (truthy kind) eqn:Hkind;
    (split; [now rewrite collection_add|]);
    (split; [first [exact Htr | exact Hkind | reflexivity]|]);
    intros c Hc; rewrite collection_add_ne by congruence; reflexivity.
Qed.

Lemma ingramWebhook_event_type_witness :
  exists w',
    exec (ingramWebhook Examples.env0
            (Examples.request "POST" [] []
               (JObj [("topic", JStr EmptyString); ("eventType", JStr "StockUpdate")])))
         1000 [(2000, AddReply (inr "doc1"))] Examples.w0 =
      (w', Ret {| statusCode := 200;
                  sent := Json (JObj [("status", JStr "received")]) |}) /\
    collection w' "ingram_events" =
      [EventDoc {| eventType := JStr "StockUpdate";
                   rawPayload := JObj [("topic", JStr EmptyString);
                                       ("eventType", JStr "StockUpdate")] |}].
Proof.
  destruct (ingramWebhook_event_type Examples.env0
              (Examples.request "POST" [] []
                 (JObj [("topic", JStr EmptyString); ("eventType", JStr "StockUpdate")]))
              (JStr EmptyString) (JStr "StockUpdate") 1000 2000 "doc1" [] Examples.w0)
    as (w' & Hexec & Hdocs & _); [reflexivity..|].
  exists w'. split; [exact Hexec|]. rewrite Hdocs. reflexivity.
Defined.

(** X13. When the distributor webhook warns.  The signature is the
    [x-hub-signature] header, else the [authorization] header.  The
    mismatch warning is logged exactly when a secret key is configured and
    not empty, the signature is not empty, and the secret key does not occur
    anywhere inside the signature. *)
Theorem ingramWebhook_warning
  (env : Env) (req : Request jsvalue) (topic kind : jsvalue) (now now1 : Z)
  (r : JsError + string) (w : World) :
  method req = "POST" ->
  get_prop (body req) "topic" = inr topic ->
  get_prop (body req) "eventType" = inr kind ->
  let signature := header_or (headers req !! "x-hub-signature")
                             (headers req !! "authorization") in
  exists w' resp,
    exec (ingramWebhook env req) now [(now1, AddReply r)] w = (w', Ret resp) /\
    (In mismatch_warning (console (mem w')) <->
       In mismatch_warning (console (mem w)) \/
       exists key, INGRAM_SECRET_KEY env = Some key /\ key <> EmptyString /\
         signature <> EmptyString /\
         forall a b, signature <> a +:+ key +:+ b).
Proof.
  intros Hm Ht Hk signature.
  assert (Hsig : signature_mismatch env signature = true <->
            exists key, INGRAM_SECRET_KEY env = Some key /\ key <> EmptyString /\
              signature <> EmptyString /\
              forall a b, signature <> a +:+ key +:+ b).
  { unfold signature_mismatch, IM_SECRET_KEY.
    destruct (INGRAM_SECRET_KEY env) as [key|]; [|split; [discriminate|]].
    2:{ intros (key & Hkey & _). discriminate. }
    rewrite !andb_true_iff, negb_true_iff. split.
    - intros [[H1 H2] H3]. exists key. split; [reflexivity|].
      split; [intros ->; discriminate|]. split; [intros E; rewrite E in H2; discriminate|].
      intros a b Hab.
      assert (includes key signature = true) by (apply includes_spec; eauto).
      congruence.
    - intros (key' & [= <-] & H1 & H2 & H3). split; [split|].
      + destruct key; [contradiction|reflexivity].
      + destruct signature; [contradiction|reflexivity].
      + destruct (includes key signature) eqn:Hi; [|reflexivity].
        apply includes_spec in Hi as (a & b & Hab). now apply H3 in Hab. }
  unfold exec, ingramWebhook. rewrite Hm. simpl. fold signature. rewrite Ht. simpl.
  destruct (signature_mismatch env signature); simpl;
    destruct (truthy topic); simpl; rewrite ?Hk; simpl;
    destruct r as [e|docid]; simpl;
    do 2 eexists; (split; [reflexivity|]); simpl;
    rewrite <- Hsig; unfold mismatch_warning; rewrite ?in_app_iff; simpl;
    intuition congruence.
Qed.

Lemma ingramWebhook_warning_witness :
  (exists w' resp,
     exec (ingramWebhook Examples.env0
             (Examples.request "POST" [] [("authorization", "Bearer im-secret")]
                (JObj [("topic", JStr "OrderStatus")])))
          1000 [(2000, AddReply (inr "doc1"))] Examples.w0 = (w', Ret resp) /\
     ~ In mismatch_warning (console (mem w'))) /\
  (exists w' resp,
     exec (ingramWebhook Examples.env0
             (Examples.request "POST" [] [("authorization", "Bearer other")]
                (JObj [("topic", JStr "OrderStatus")])))
          1000 [(2000, AddReply (inr "doc1"))] Examples.w0 = (w', Ret resp) /\
     In mismatch_warning (console (mem w'))).
Proof.
  split.
  - destruct (ingramWebhook_warning Examples.env0
                (Examples.request "POST" [] [("authorization", "Bearer im-secret")]
                   (JObj [("topic", JStr "OrderStatus")]))
                (JStr "OrderStatus") JUndefined 1000 2000 (inr "doc1") Examples.w0)
      as (w' & resp & Hexec & Hiff); [reflexivity..|].
    exists w', resp. split; [exact Hexec|].
    intros Hin. apply Hiff in Hin as [[]|(key & [= <-] & _ & _ & Hno)].
    apply (Hno "Bearer " EmptyString). reflexivity.
  - destruct (ingramWebhook_warning Examples.env0
                (Examples.request "POST" [] [("authorization", "Bearer other")]
                   (JObj [("topic", JStr "OrderStatus")]))
                (JStr "OrderStatus") JUndefined 1000 2000 (inr "doc1") Examples.w0)
      as (w' & resp & Hexec & Hiff); [reflexivity..|].
    exists w', resp. split; [exact Hexec|].
    vm_compute in Hexec. injection Hexec as <- _. simpl. tauto.
Defined.

(** X14. A POST request to the distributor webhook whose body is
    [undefined] or [null] is answered with status 500 and the message of
    the [TypeError] raised by reading [topic]; nothing is stored and no call
    is issued. *)
Theorem ingramWebhook_missing_body
  (env : Env) (req : Request jsvalue) (now : Z) (script : list (Z * answer))
  (w : World) :
  method req = "POST" ->
  body req = JUndefined \/ body req = JNull ->
  exists w' msg,
    exec (ingramWebhook env req) now script w =
      (w', Ret {| statusCode := 500; sent := json_error msg |}) /\
    get_prop (body req) "topic" = inl (Error msg) /\
    calls w' = calls w /\ firestore w' = firestore w.
Proof.
  intros Hm Hb. unfold exec, ingramWebhook. rewrite Hm. simpl.
  destruct Hb as [-> | ->]; simpl;
    destruct (signature_mismatch env _); simpl; rewrite replay_ret;
    do 2 eexists; (split; [reflexivity|]); repeat split.
Qed.

Lemma ingramWebhook_missing_body_witness :
  exists w',
    exec (ingramWebhook Examples.env0 (Examples.request "POST" [] [] JUndefined))
         1000 [] Examples.w0 =
      (w', Ret {| statusCode := 500;
                  sent := json_error
                    "Cannot read properties of undefined (reading 'topic')" |}) /\
    calls w' = [] /\ firestore w' = ∅.
Proof.
  destruct (ingramWebhook_missing_body Examples.env0
              (Examples.request "POST" [] [] JUndefined) 1000 [] Examples.w0)
    as (w' & msg & Hexec & Hmsg & Hcalls & Hstore); [reflexivity | left; reflexivity |].
  injection Hmsg as <-.
  exists w'. split; [exact Hexec|]. split; [exact Hcalls | exact Hstore].
Defined.

(** ** FUNCTION 4: the guards and the outcome of a checkout *)

(** X15. The guards of a checkout.  Without the payment processor key a
    POST request is answered with status 500, whatever its body, after a
    warning on the console, and nothing is sent; with the key, a request
    whose item list is absent or empty is answered with status 400 and
    leaves the world as it was, whatever its customer. *)
Theorem createCheckoutSession_guards
  (env : Env) (req : Request CheckoutBody) (now : Z)
  (script : list (Z * answer)) (w : World) :
  method req = "POST" ->
  (truthy_opt (STRIPE_SECRET_KEY env) = false ->
   exists w',
     exec (createCheckoutSession env req) now script w =
       (w', Ret {| statusCode := 500;
                   sent := json_error
                     "Stripe is not configured in environment variables" |}) /\
     console (mem w') =
       console (mem w) ++ [(LogWarn, "Missing STRIPE_SECRET_KEY env variable")] /\
     calls w' = calls w /\ stripe_sessions w' = stripe_sessions w) /\
  (truthy_opt (STRIPE_SECRET_KEY env) = true ->
   body_items (body req) = None \/ body_items (body req) = Some [] ->
   exec (createCheckoutSession env req) now script w =
     (w, Ret {| statusCode := 400; sent := json_error "El carrito está vacío" |})).
Proof.
  intros Hm. unfold exec, createCheckoutSession, cors, getStripe. rewrite Hm. simpl.
  split; intros Hk; rewrite Hk; simpl.
  - rewrite replay_ret. eexists. split; [reflexivity|]. repeat split.
  - intros [-> | ->]; simpl; apply replay_ret.
Qed.

Lemma createCheckoutSession_guards_witness :
  (exists w',
     exec (createCheckoutSession Examples.env_no_stripe
             (Examples.request "POST" [] []
                {| body_items := None; body_customer := None |}))
          1000 [] Examples.w0 =
       (w', Ret {| statusCode := 500;
                   sent := json_error
                     "Stripe is not configured in environment variables" |}) /\
     calls w' = []) /\
  exec (createCheckoutSession Examples.env0
          (Examples.request "POST" [] []
             {| body_items := Some []; body_customer := Some Examples.ana |}))
       1000 [] Examples.w0 =
    (Examples.w0,
     Ret {| statusCode := 400; sent := json_error "El carrito está vacío" |}).
Proof.
  split.
  - destruct (createCheckoutSession_guards Examples.env_no_stripe
                (Examples.request "POST" [] []
                   {| body_items := None; body_customer := None |})
                1000 [] Examples.w0 eq_refl) as [Hno _].
    destruct (Hno eq_refl) as (w' & Hexec & _ & Hcalls & _).
    exists w'. split; [exact Hexec | exact Hcalls].
  - destruct (createCheckoutSession_guards Examples.env0
                (Examples.request "POST" [] []
                   {| body_items := Some []; body_customer := Some Examples.ana |})
                1000 [] Examples.w0 eq_refl) as [_ Hempty].
    apply Hempty; [reflexivity | right; reflexivity].
Defined.

(** X16. The outcome of a checkout.  For a POST request with items, a
    customer and an address, one session request is sent, with one line
    item per cart item and the customer's email; when the payment processor
    creates the session the answer is 200 with the session's url, and when
    it refuses the answer is 500 with its message and no session exists. *)
Theorem createCheckoutSession_outcomes
  (env : Env) (req : Request CheckoutBody) (items : list CartItem.t)
  (c : Customer.t) (a : Address.t) (now now1 : Z) (r : JsError + Session)
  (script : list (Z * answer)) (w : World) :
  method req = "POST" ->
  truthy_opt (STRIPE_SECRET_KEY env) = true ->
  body_items (body req) = Some items -> items <> [] ->
  body_customer (body req) = Some c -> Customer.address c = Some a ->
  exists w' resp params,
    session_params items (Some c) = inr params /\
    exec (createCheckoutSession env req) now ((now1, SessionReply r) :: script) w
      = (w', Ret resp) /\
    calls w' = calls w ++ [CallSession params] /\
    length (line_items params) = length items /\
    params_customer_email params = Customer.email c /\
    match r with
    | inr session =>
        resp = {| statusCode := 200;
                  sent := Json (JObj [("url", JStr (url session))]) |} /\
        stripe_sessions w' = stripe_sessions w ++ [(params, session)]
    | inl err =>
        resp = {| statusCode := 500; sent := json_error (message err) |} /\
        stripe_sessions w' = stripe_sessions w
    end.
Proof.
  intros Hm Hk Hi Hne Hc Ha.
  unfold exec, createCheckoutSession, cors, getStripe. rewrite Hm, Hk. simpl.
  rewrite Hi. destruct items as [|i items]; [done|]. clear Hne.
  rewrite Hc. simpl. rewrite Ha. simpl.
  destruct r as [err|session]; simpl; rewrite replay_ret;
    do 3 eexists; (split; [reflexivity|]); (split; [reflexivity|]);
    (split; [reflexivity|]); simpl; rewrite length_map; repeat split.
Qed.

Lemma createCheckoutSession_outcomes_witness :
  (exists w',
     exec (createCheckoutSession Examples.env0
             (Examples.request "POST" [] [] Examples.cart))
          1000 [(2000, SessionReply (inr Examples.sess_123))] Examples.w0
       = (w', Ret {| statusCode := 200;
                     sent := Json (JObj [("url",
                       JStr "https://checkout.stripe.com/c/pay/sess_123")]) |}) /\
     length (stripe_sessions w') = 1%nat) /\
  (exists w',
     exec (createCheckoutSession Examples.env0
             (Examples.request "POST" [] [] Examples.cart))
          1000 [(2000, SessionReply (inl (Error "card_declined")))] Examples.w0
       = (w', Ret {| statusCode := 500; sent := json_error "card_declined" |}) /\
     stripe_sessions w' = []).
Proof.
  split.
  - destruct (createCheckoutSession_outcomes Examples.env0
                (Examples.request "POST" [] [] Examples.cart)
                [Examples.widget] Examples.ana Examples.home 1000 2000
                (inr Examples.sess_123) [] Examples.w0)
      as (w' & resp & params & _ & Hexec & _ & _ & _ & -> & Hs);
      [reflexivity | reflexivity | reflexivity | discriminate
      | reflexivity | reflexivity |].
    exists w'. split; [exact Hexec|]. rewrite Hs. reflexivity.
  - destruct (createCheckoutSession_outcomes Examples.env0
                (Examples.request "POST" [] [] Examples.cart)
                [Examples.widget] Examples.ana Examples.home 1000 2000
                (inl (Error "card_declined")) [] Examples.w0)
      as (w' & resp & params & _ & Hexec & _ & _ & _ & -> & Hs);
      [reflexivity | reflexivity | reflexivity | discriminate
      | reflexivity | reflexivity |].
    exists w'. split; [exact Hexec | exact Hs].
Defined.

(** ** FUNCTION 4: the sign of an amount *)

Lemma binary_round_aux_sign (s : bool) (m e : Z) (l : location) :
  match binary_round_aux prec emax s m e l with
  | S754_zero s' | S754_infinity s' | S754_finite s' _ _ => s' = s
  | S754_nan => True
  end.
Proof.
  unfold binary_round_aux.
  destruct (shr_fexp prec emax m e l) as [mrs e1].
  destruct (shr_fexp prec emax _ e1 loc_Exact) as [mrs' e2].
  destruct (shr_m mrs') as [|p|p]; try exact I; [reflexivity|].
  destruct (e2 <=? emax - prec); reflexivity.
Qed.

Lemma Math_round_nonnegative (m : positive) (e n : Z) :
  Math_round (S754_finite false m e) = Int n -> 0 <= n.
Proof.
  simpl. destruct (0 <=? e) eqn:He; intros [= <-].
  - apply Z.leb_le in He. apply Z.mul_nonneg_nonneg; [lia|].
    apply Z.pow_nonneg. lia.
  - apply Z.leb_gt in He. apply Z.div_pos.
    + assert (0 < 2 ^ (- e)) by (apply Z.pow_pos_nonneg; lia). lia.
    + apply Z.pow_pos_nonneg; lia.
Qed.

(** X17. A price that is not negative never yields a negative amount:
    when [Math.round(price * 100)] is an integer, that integer is at least
    0. *)
Theorem createCheckoutSession_amount_sign (item : CartItem.t) (n : Z) :
  nonnegative_double (CartItem.price item) = true ->
  unit_amount (line_item item) = Int n ->
  0 <= n.
Proof.
  unfold line_item. cbn [unit_amount].
  destruct (CartItem.price item) as [[]| | |[] m e]; try discriminate; intros _.
  - intros [= <-]. lia.
  - change (of_Z 100) with (S754_finite false 7036874417766400 (-46)).
    unfold mul, SFmul. cbn [xorb].
    pose proof (binary_round_aux_sign false (Z.pos (m * 7036874417766400))
                  (e + -46) loc_Exact) as Hs.
    destruct (binary_round_aux _ _ _ _ _ _) as [s|s| |s m' e'].
    + intros [= <-]. lia.
    + discriminate.
    + discriminate.
    + subst s. apply Math_round_nonnegative.
Qed.

Lemma createCheckoutSession_amount_sign_witness :
  unit_amount (line_item Examples.widget) = Int 2000 /\ 0 <= 2000.
Proof.
  split; [reflexivity|].
  apply (createCheckoutSession_amount_sign Examples.widget 2000); reflexivity.
Defined.

(** ** Rounding to a Number: how far the result is from the operand *)

Lemma shr_1_half (mrs : shr_record) :
  0 <= shr_m mrs -> shr_m (shr_1 mrs) = shr_m mrs / 2.
Proof.
  destruct mrs as [m r s]. simpl. intros Hm.
  destruct m as [|[p|p|]|p]; cbn [shr_m]; try lia; try reflexivity.
  - apply (Z.div_unique _ _ _ 1); lia.
  - apply (Z.div_unique _ _ _ 0); lia.
Qed.

Lemma shr_iter (n : positive) (mrs : shr_record) :
  0 <= shr_m mrs -> shr_m (SpecFloat.iter_pos shr_1 n mrs) = shr_m mrs / 2 ^ Z.pos n.
Proof.
  revert mrs. induction n as [n IH|n IH|]; intros mrs Hm; cbn [SpecFloat.iter_pos].
  - assert (H1 : 0 <= shr_m (shr_1 mrs)).
    { rewrite shr_1_half by exact Hm. apply Z.div_pos; lia. }
    assert (H2 : 0 <= shr_m (SpecFloat.iter_pos shr_1 n (shr_1 mrs))).
    { rewrite IH by exact H1. apply Z.div_pos; [exact H1|]. apply Z.pow_pos_nonneg; lia. }
    rewrite IH, IH, shr_1_half by assumption.
    rewrite !Z.div_div by (try apply Z.pow_pos_nonneg; lia).
    f_equal.
    replace (Z.pos n~1) with (1 + Z.pos n + Z.pos n) by lia.
    rewrite !Z.pow_add_r by lia. lia.
  - assert (H2 : 0 <= shr_m (SpecFloat.iter_pos shr_1 n mrs)).
    { rewrite IH by exact Hm. apply Z.div_pos; [exact Hm|]. apply Z.pow_pos_nonneg; lia. }
    rewrite IH, IH by assumption.
    rewrite !Z.div_div by (try apply Z.pow_pos_nonneg; lia).
    f_equal.
    replace (Z.pos n~0) with (Z.pos n + Z.pos n) by lia.
    rewrite !Z.pow_add_r by lia. lia.
  - now apply shr_1_half.
Qed.

Lemma shr_spec (mrs : shr_record) (e n : Z) :
  0 <= shr_m mrs -> 0 <= n ->
  shr_m (fst (shr mrs e n)) = shr_m mrs / 2 ^ n /\ snd (shr mrs e n) = e + n.
Proof.
  intros Hm Hn. unfold shr. destruct n as [|n|n]; simpl; try lia.
  - split; [now rewrite Z.div_1_r | lia].
  - split; [now apply shr_iter | reflexivity].
Qed.

Lemma shr_m_of_loc (m : Z) (l : location) : shr_m (shr_record_of_loc m l) = m.
Proof. destruct l as [|[]]; reflexivity. Qed.

Lemma round_nearest_even_cases (m : Z) (l : location) :
  round_nearest_even m l = m \/ round_nearest_even m l = m + 1.
Proof.
  unfold round_nearest_even. destruct l as [|[]]; auto.
  destruct (Z.even m); auto.
Qed.

Lemma Zdigits2_bits (m : positive) : Zdigits2 (Z.pos m) = bits m.
Proof. simpl. apply digits2_pos_log2. Qed.

Lemma bits_unique (m : positive) (d : Z) :
  2 ^ (d - 1) <= Z.pos m < 2 ^ d -> bits m = d.
Proof.
  intros [Hlo Hhi]. unfold bits.
  assert (0 < d).
  { destruct (Z_lt_le_dec 0 d) as [|Hle]; [assumption|].
    assert (2 ^ d <= 2 ^ 0) by (apply Z.pow_le_mono_r; lia). simpl in *. lia. }
  assert (Z.log2 (Z.pos m) = d - 1); [|lia].
  apply Z.log2_unique; [lia|]. split; [assumption|].
  now replace (Z.succ (d - 1)) with d by lia.
Qed.

Lemma shr_fexp_spec (m : positive) (e : Z) (l : location) :
  let n := Z.max 0 (fexp prec emax (bits m + e) - e) in
  shr_m (fst (shr_fexp prec emax (Z.pos m) e l)) = Z.pos m / 2 ^ n /\
  snd (shr_fexp prec emax (Z.pos m) e l) = e + n.
Proof.
  unfold shr_fexp. rewrite Zdigits2_bits.
  destruct (Z_le_gt_dec 0 (fexp prec emax (bits m + e) - e)) as [Hn|Hn].
  - rewrite Z.max_r by exact Hn.
    pose proof (shr_spec (shr_record_of_loc (Z.pos m) l) e _
                  ltac:(rewrite shr_m_of_loc; lia) Hn) as Hs.
    now rewrite shr_m_of_loc in Hs.
  - rewrite Z.max_l by lia. unfold shr.
    destruct (fexp prec emax (bits m + e) - e) as [|n|n]; try lia.
    cbn [fst snd]. rewrite shr_m_of_loc, Z.div_1_r. split; [reflexivity|lia].
Qed.

(** Rounding [m * 2^e], for [m] of at least 53 digits above the subnormal
    range: the mantissa is cut to 53 digits, at most one unit of the last
    place away, and the result is an infinity when the exponent that this
    leaves is too large. *)
Lemma binary_round_aux_rounded (m : positive) (e : Z) (l : location) :
  53 <= bits m ->
  emin prec emax <= bits m + e - 53 ->
  exists m' e',
    binary_round_aux prec emax false (Z.pos m) e l =
      (if e' <=? emax - prec then S754_finite false m' e' else S754_infinity false) /\
    bits m' = 53 /\ e <= e' <= bits m + e - 52 /\
    Z.pos m - 2 ^ (bits m - 53) <= Z.pos m' * 2 ^ (e' - e)
      <= Z.pos m + 2 ^ (bits m - 53).
Proof.
  intros Hd Hmin. pose proof (bits_spec m) as [Hlo Hhi].
  set (d := bits m) in *. set (n := d - 53).
  assert (Hn : 0 <= n) by (unfold n; lia).
  assert (Hpn : 0 < 2 ^ n) by (apply Z.pow_pos_nonneg; lia).
  assert (Hd1 : 2 ^ (d - 1) = 2 ^ 52 * 2 ^ n).
  { rewrite <- Z.pow_add_r by lia. f_equal. unfold n. lia. }
  assert (Hd2 : 2 ^ d = 2 ^ 53 * 2 ^ n).
  { rewrite <- Z.pow_add_r by lia. f_equal. unfold n. lia. }
  unfold binary_round_aux.
  pose proof (shr_fexp_spec m e l) as [Hm1 He1]. fold d in Hm1, He1.
  assert (Hf : fexp prec emax (d + e) - e = n).
  { unfold fexp, n. unfold emin, prec, emax in *. lia. }
  rewrite Hf, Z.max_r in Hm1, He1 by exact Hn.
  destruct (shr_fexp prec emax (Z.pos m) e l) as [mrs1 e1].
  cbn [fst snd] in Hm1, He1. subst e1.
  set (m1 := Z.pos m / 2 ^ n) in *.
  pose proof (Z.div_mod (Z.pos m) (2 ^ n) ltac:(lia)) as Hdm.
  pose proof (Z.mod_pos_bound (Z.pos m) (2 ^ n) Hpn) as Hr.
  fold m1 in Hdm.
  assert (Hm1lo : 2 ^ 52 <= m1) by nia.
  assert (Hm1hi : m1 < 2 ^ 53) by nia.
  rewrite Hm1.
  set (m2 := round_nearest_even m1 (loc_of_shr_record mrs1)).
  assert (Hm2 : m2 = m1 \/ m2 = m1 + 1) by apply round_nearest_even_cases.
  destruct m2 as [|q|q] eqn:Hq; try lia.
  pose proof (shr_fexp_spec q (e + n) loc_Exact) as [Hm3 He3].
  destruct (shr_fexp prec emax (Z.pos q) (e + n) loc_Exact) as [mrs2 e2].
  cbn [fst snd] in Hm3, He3.
  destruct (Z_lt_le_dec (Z.pos q) (2 ^ 53)) as [Hlt|Hge].
  - assert (Hbq : bits q = 53) by (apply bits_unique; lia).
    rewrite Hbq in Hm3, He3.
    assert (Hf2 : fexp prec emax (53 + (e + n)) - (e + n) = 0).
    { unfold fexp, n. unfold emin, prec, emax in *. lia. }
    rewrite Hf2 in Hm3, He3. simpl Z.max in Hm3, He3.
    rewrite Z.pow_0_r, Z.div_1_r in Hm3. rewrite Hm3.
    exists q, e2. split; [reflexivity|]. split; [exact Hbq|].
    split; [unfold n in He3; lia|].
    replace (e2 - e) with n by lia. fold n. nia.
  - assert (Hq53 : Z.pos q = 2 ^ 53) by lia.
    assert (Hbq : bits q = 54) by (apply bits_unique; rewrite Hq53; simpl; lia).
    rewrite Hbq in Hm3, He3.
    assert (Hf2 : fexp prec emax (54 + (e + n)) - (e + n) = 1).
    { unfold fexp, n. unfold emin, prec, emax in *. lia. }
    rewrite Hf2 in Hm3, He3. simpl Z.max in Hm3, He3.
    rewrite Hq53 in Hm3. change (2 ^ 53 / 2 ^ 1) with (Z.pos (2 ^ 52)) in Hm3.
    rewrite Hm3.
    exists (2 ^ 52)%positive, e2. split; [reflexivity|].
    split; [reflexivity|]. split; [unfold n in He3; lia|].
    replace (e2 - e) with (1 + n) by lia. fold n.
    rewrite Z.pow_add_r by lia.
    change (Z.pos (2 ^ 52)) with (2 ^ 52). change (2 ^ 1) with 2. nia.
Qed.

(** In the normal range the result is a Number of 53 digits that is at most
    one unit of its last place away. *)
Lemma binary_round_aux_bracket (m : positive) (e : Z) (l : location) :
  53 <= bits m ->
  emin prec emax <= bits m + e - 53 ->
  bits m + e - 52 <= emax - prec ->
  exists m' e',
    binary_round_aux prec emax false (Z.pos m) e l = S754_finite false m' e' /\
    bits m' = 53 /\ e <= e' /\
    Z.pos m - 2 ^ (bits m - 53) <= Z.pos m' * 2 ^ (e' - e)
      <= Z.pos m + 2 ^ (bits m - 53).
Proof.
  intros Hd Hmin Hmax.
  destruct (binary_round_aux_rounded m e l Hd Hmin) as (m' & e' & Hr & Hb & He & Hv).
  exists m', e'. split; [|split; [exact Hb|split; [lia|exact Hv]]].
  rewrite Hr. replace (e' <=? emax - prec) with true; [reflexivity|].
  symmetry. apply Z.leb_le. lia.
Qed.

Lemma bounded_bits (m : positive) (e : Z) :
  bounded prec emax m e = true -> emin prec emax < e -> bits m = 53.
Proof.
  intros Hb He. pose proof (bounded_canonical m e Hb) as Hc.
  fold (bits m) in Hc. unfold fexp, emin, prec, emax in *. lia.
Qed.

(** [p / 100] when it is a Number. *)
Lemma hundredth_exact (p : positive) (x : number) :
  Z.pos p < 2 ^ 48 ->
  Z.pos p mod 25 = 0 ->
  exact_double false (Z.to_pos (Z.pos p / 25)) (-2) = Some x ->
  exists m e,
    x = S754_finite false m e /\
    bits m = 53 /\ -60 <= e <= -1 /\
    Z.abs (100 * Z.pos m - Z.pos p * 2 ^ (- e)) <= 300.
Proof.
  intros Hp Hmod Hx.
  pose proof (Z.div_mod (Z.pos p) 25 ltac:(lia)) as Hdm. rewrite Hmod in Hdm.
  assert (Hn : 0 < Z.pos p / 25) by lia.
  destruct (Z.pos p / 25) as [|n|n] eqn:Hq; try lia.
  simpl Z.to_pos in *.
  unfold exact_double in Hx. fold (bits n) in Hx.
  pose proof (bits_pos n) as Hn1.
  assert (Hbn : bits n <= 48) by (apply bits_below; lia).
  assert (Hf : fexp prec emax (bits n + -2) = bits n - 55).
  { unfold fexp, emin, prec, emax. lia. }
  rewrite Hf in Hx.
  destruct (bits n - 55 <=? -2) eqn:Hle; [|apply Z.leb_gt in Hle; lia].
  assert (Hpow : 0 < 2 ^ (-2 - (bits n - 55))) by (apply Z.pow_pos_nonneg; lia).
  destruct (bounded prec emax (Z.to_pos (Z.pos n * 2 ^ (-2 - (bits n - 55))))
              (bits n - 55)) eqn:Hbd; [|discriminate].
  injection Hx as <-.
  exists (Z.to_pos (Z.pos n * 2 ^ (-2 - (bits n - 55)))), (bits n - 55).
  split; [reflexivity|].
  split; [apply (bounded_bits _ _ Hbd); unfold emin, prec, emax; lia|].
  split; [lia|].
  rewrite Z2Pos.id by lia.
  replace (- (bits n - 55)) with (2 + (-2 - (bits n - 55))) by lia.
  rewrite Z.pow_add_r by lia. change (2 ^ 2) with 4.
  replace (100 * (Z.pos n * 2 ^ (-2 - (bits n - 55))) -
           Z.pos p * (4 * 2 ^ (-2 - (bits n - 55)))) with 0 by nia.
  simpl. lia.
Qed.

(** Rounding the integer quotient [q] of [p * 2^s] by 100, for the [s] that
    gives it 53 or 54 digits. *)
Lemma round_quotient (p : positive) (q : Z) (l : location) :
  Z.pos p < 2 ^ 48 ->
  100 * q <= Z.pos p * 2 ^ (60 - bits p) < 100 * (q + 1) ->
  exists m e,
    binary_round_aux prec emax false q (bits p - 60) l = S754_finite false m e /\
    bits m = 53 /\ -60 <= e <= -1 /\
    Z.abs (100 * Z.pos m - Z.pos p * 2 ^ (- e)) <= 300.
Proof.
  intros Hp Hde. pose proof (bits_spec p) as [Hlo Hhi]. pose proof (bits_pos p) as Hb1.
  pose proof (bits_below p 48 Hp) as Hb48.
  set (s := 60 - bits p) in *.
  assert (Hs : 0 < s) by (unfold s; lia).
  assert (Hps : 2 ^ 59 <= Z.pos p * 2 ^ s < 2 ^ 60).
  { assert (H59 : 2 ^ 59 = 2 ^ (bits p - 1) * 2 ^ s)
      by (rewrite <- Z.pow_add_r by lia; f_equal; unfold s; lia).
    assert (H60 : 2 ^ 60 = 2 ^ bits p * 2 ^ s)
      by (rewrite <- Z.pow_add_r by lia; f_equal; unfold s; lia).
    assert (0 < 2 ^ s) by (apply Z.pow_pos_nonneg; lia).
    rewrite H59, H60. nia. }
  assert (Hq : 2 ^ 52 <= q < 2 ^ 54) by (simpl in *; lia).
  destruct q as [|q|q]; try (simpl in Hq; lia).
  assert (Hbq : 53 <= bits q <= 54).
  { pose proof (bits_spec q) as [Hqlo Hqhi]. split.
    - destruct (Z_le_gt_dec 53 (bits q)) as [|Hgt]; [assumption|].
      assert (2 ^ bits q <= 2 ^ 52) by (apply Z.pow_le_mono_r; lia). lia.
    - apply bits_below. lia. }
  destruct (binary_round_aux_bracket q (bits p - 60) l)
    as (m & e & Hround & Hbm & Hle & Hbr);
    [lia | unfold emin, prec, emax; lia | unfold emax, prec; lia |].
  rewrite Hround. exists m, e. split; [reflexivity|]. split; [exact Hbm|].
  pose proof (bits_spec m) as [Hmlo Hmhi]. rewrite Hbm in Hmlo, Hmhi.
  set (t := e - (bits p - 60)) in *.
  assert (Ht : 0 <= t) by (unfold t; lia).
  assert (Hpt : 0 < 2 ^ t) by (apply Z.pow_pos_nonneg; lia).
  assert (Hulp : 2 ^ (bits q - 53) <= 2).
  { change 2 with (2 ^ 1) at 2. apply Z.pow_le_mono_r; lia. }
  assert (Ht2 : t <= 2).
  { destruct (Z_le_gt_dec t 2) as [|Hgt]; [assumption|].
    assert (2 ^ 3 <= 2 ^ t) by (apply Z.pow_le_mono_r; lia).
    simpl in *. nia. }
  split; [unfold t in *; lia|].
  assert (Hst : 2 ^ s = 2 ^ (- e) * 2 ^ t).
  { rewrite <- Z.pow_add_r by (unfold t, s in *; lia). f_equal. unfold t, s. lia. }
  rewrite Hst in Hde.
  assert (Hpe : 0 < 2 ^ (- e)) by (apply Z.pow_pos_nonneg; unfold t in *; lia).
  apply Z.abs_le. simpl in Hmlo, Hmhi. nia.
Qed.

(** [p / 100] rounded to a Number. *)
Lemma hundredth_rounded (p : positive) :
  Z.pos p < 2 ^ 48 ->
  exists m e,
    SFdiv prec emax (S754_finite false p 0) (S754_finite false 100 0) =
      S754_finite false m e /\
    bits m = 53 /\ -60 <= e <= -1 /\
    Z.abs (100 * Z.pos m - Z.pos p * 2 ^ (- e)) <= 300.
Proof.
  intros Hp. pose proof (bits_pos p) as Hb1.
  pose proof (bits_below p 48 Hp) as Hb48.
  unfold SFdiv, SFdiv_core_binary. cbn [xorb]. rewrite Zdigits2_bits.
  change (Zdigits2 100) with 7.
  assert (He' : Z.min (fexp prec emax (bits p + 0 - (7 + 0))) (0 - 0) = bits p - 60).
  { unfold fexp, emin, prec, emax. lia. }
  cbv zeta. rewrite He'.
  replace (0 - 0 - (bits p - 60)) with (60 - bits p) by lia.
  assert (Hshift : match 60 - bits p with
                   | 0 => Z.pos p
                   | Z.pos _ => Z.shiftl (Z.pos p) (60 - bits p)
                   | Z.neg _ => 0
                   end = Z.pos p * 2 ^ (60 - bits p)).
  { destruct (60 - bits p) eqn:Hs; try lia. apply Z.shiftl_mul_pow2. lia. }
  rewrite Hshift. clear Hshift.
  pose proof (Z.div_eucl_eq (Z.pos p * 2 ^ (60 - bits p)) 100 ltac:(lia)) as Hde.
  pose proof (Z.mod_pos_bound (Z.pos p * 2 ^ (60 - bits p)) 100 ltac:(lia)) as Hrem.
  unfold Z.modulo in Hrem.
  destruct (Z.div_eucl (Z.pos p * 2 ^ (60 - bits p)) 100) as [q r].
  apply round_quotient; [exact Hp|]. lia.
Qed.

(** The Number nearest to [p / 100]: 53 digits [m] and an exponent [e] with
    [100 * m * 2^e] within [300 * 2^e] of [p]. *)
Lemma hundredth (p : positive) :
  Z.pos p < 2 ^ 48 ->
  exists m e,
    decimal_to_double false (N.pos p) (-2) = S754_finite false m e /\
    bits m = 53 /\ -60 <= e <= -1 /\
    Z.abs (100 * Z.pos m - Z.pos p * 2 ^ (- e)) <= 300.
Proof.
  intros Hp.
  change (decimal_to_double false (N.pos p) (-2)) with
    (match (if Z.pos p mod 25 =? 0
            then exact_double false (Z.to_pos (Z.pos p / 25)) (-2)
            else None) with
     | Some x => x
     | None => SFdiv prec emax (S754_finite false p 0) (S754_finite false 100 0)
     end).
  destruct (Z.pos p mod 25 =? 0) eqn:Hmod.
  - apply Z.eqb_eq in Hmod.
    destruct (exact_double false (Z.to_pos (Z.pos p / 25)) (-2)) as [x|] eqn:Hx.
    + exact (hundredth_exact p x Hp Hmod Hx).
    + exact (hundredth_rounded p Hp).
  - exact (hundredth_rounded p Hp).
Qed.

Lemma below_half (a u : Z) : 0 <= a -> 0 < u -> 2 * (a * u) < u -> a = 0.
Proof. intros Ha Hu H. nia. Qed.

Lemma scaled_close (a d t : Z) : 0 <= a -> 0 < t -> 2 * (a * t) < d * t -> 2 * a < d.
Proof. intros Ha Ht H. nia. Qed.

(** [Math.round] of 100 times a Number of 53 digits that is within 300
    units of its last place of [p / 100] is [p]. *)
Lemma Math_round_hundred_times (p m : positive) (e : Z) :
  Z.pos p < 2 ^ 48 ->
  bits m = 53 -> -60 <= e <= -1 ->
  Z.abs (100 * Z.pos m - Z.pos p * 2 ^ (- e)) <= 300 ->
  Math_round (mul (S754_finite false m e) (of_Z 100)) = Int (Z.pos p).
Proof.
  intros Hp Hbm He Habs.
  change (of_Z 100) with (S754_finite false 7036874417766400 (-46)).
  unfold mul, SFmul. cbn [xorb].
  pose proof (bits_spec m) as [Hmlo Hmhi]. rewrite Hbm in Hmlo, Hmhi.
  change (2 ^ (53 - 1)) with 4503599627370496 in Hmlo.
  change (2 ^ 53) with 9007199254740992 in Hmhi.
  set (M := (m * 7036874417766400)%positive).
  assert (HM : Z.pos M = Z.pos m * 7036874417766400) by reflexivity.
  assert (HbM : 105 <= bits M <= 106).
  { pose proof (bits_spec M) as [HMlo HMhi]. split.
    - destruct (Z_le_gt_dec 105 (bits M)) as [|Hgt]; [assumption|].
      assert (2 ^ bits M <= 2 ^ 104) by (apply Z.pow_le_mono_r; lia).
      change (2 ^ 104) with 20282409603651670423947251286016 in *. lia.
    - destruct (Z_le_gt_dec (bits M) 106) as [|Hgt]; [assumption|].
      assert (2 ^ 106 <= 2 ^ (bits M - 1)) by (apply Z.pow_le_mono_r; lia).
      change (2 ^ 106) with 81129638414606681695789005144064 in *. lia. }
  destruct (binary_round_aux_bracket M (e + -46) loc_Exact)
    as (my & ey & Hround & Hbmy & Hle & Hbr);
    [lia | unfold emin, prec, emax; lia | unfold emax, prec; lia |].
  rewrite Hround.
  assert (Hulp : 2 ^ (bits M - 53) <= 9007199254740992).
  { change 9007199254740992 with (2 ^ 53). apply Z.pow_le_mono_r; lia. }
  set (tau := 2 ^ (ey - (e + -46))) in *.
  assert (Htau : 0 < tau) by (apply Z.pow_pos_nonneg; lia).
  set (E := 2 ^ (- e)) in *.
  assert (HE : 0 < E) by (apply Z.pow_pos_nonneg; lia).
  apply Z.abs_le in Habs.
  (* one unit, in units of the last place of the product *)
  set (U := E * 70368744177664).
  assert (HMU : Z.abs (Z.pos M - Z.pos p * U) <= 300 * 70368744177664).
  { apply Z.abs_le. unfold U. lia. }
  assert (HElo : 1600 <= E).
  { change (2 ^ 48) with 281474976710656 in Hp. nia. }
  assert (HV : 2 * Z.abs (Z.pos my * tau - Z.pos p * U) < U).
  { apply Z.abs_le in HMU. unfold U in *.
    destruct (Z.abs_spec (Z.pos my * tau - Z.pos p * (E * 70368744177664)))
      as [[_ ->]|[_ ->]]; lia. }
  unfold Math_round. cbn [cond_Zopp].
  destruct (0 <=? ey) eqn:Hey.
  - apply Z.leb_le in Hey.
    assert (Hsplit : tau = 2 ^ ey * U).
    { unfold tau, U, E. change 70368744177664 with (2 ^ 46).
      rewrite <- !Z.pow_add_r by lia. f_equal. lia. }
    set (n := Z.pos my * 2 ^ ey).
    assert (Hn : Z.pos my * tau = n * U) by (rewrite Hsplit; unfold n; ring).
    rewrite Hn in HV.
    assert (HU : 0 < U) by (unfold U; lia).
    replace (n * U - Z.pos p * U) with ((n - Z.pos p) * U) in HV by ring.
    rewrite Z.abs_mul, (Z.abs_eq U) in HV by lia.
    pose proof (Z.abs_nonneg (n - Z.pos p)) as Ha.
    pose proof (below_half _ _ Ha HU HV) as Hz.
    f_equal. lia.
  - apply Z.leb_gt in Hey.
    set (D := 2 ^ (- ey)).
    assert (HD : 0 < D) by (apply Z.pow_pos_nonneg; lia).
    assert (H2D : 2 ^ (1 - ey) = 2 * D).
    { unfold D. replace (1 - ey) with (1 + - ey) by lia.
      rewrite Z.pow_add_r by lia. reflexivity. }
    assert (Hsplit : U = D * tau).
    { unfold tau, U, E, D. change 70368744177664 with (2 ^ 46).
      rewrite <- !Z.pow_add_r by lia. f_equal. lia. }
    rewrite H2D. f_equal. symmetry.
    set (PD := Z.pos p * D).
    assert (HPD : Z.pos p * U = PD * tau) by (rewrite Hsplit; unfold PD; ring).
    rewrite HPD, Hsplit in HV.
    assert (Hclose : 2 * Z.abs (Z.pos my - PD) < D).
    { replace (Z.pos my * tau - PD * tau) with ((Z.pos my - PD) * tau) in HV by ring.
      rewrite Z.abs_mul, (Z.abs_eq tau) in HV by lia.
      pose proof (Z.abs_nonneg (Z.pos my - PD)) as Ha.
      exact (scaled_close _ _ _ Ha Htau HV). }
    apply (Z.div_unique _ _ _ (2 * Z.pos my + D - 2 * PD)).
    + left. destruct (Z.abs_spec (Z.pos my - PD)) as [[_ Hb]|[_ Hb]];
        rewrite Hb in Hclose; lia.
    + unfold PD. ring.
Qed.

(** Cents are exact: [Math.round] of 100 times the Number nearest to
    [p / 100] is [p]. *)
Lemma Math_round_cents (p : positive) :
  Z.pos p < 2 ^ 48 ->
  Math_round (mul (decimal_to_double false (N.pos p) (-2)) (of_Z 100)) = Int (Z.pos p).
Proof.
  intros Hp. destruct (hundredth p Hp) as (m & e & Hx & Hbm & He & Habs).
  rewrite Hx. now apply Math_round_hundred_times.
Qed.

(** Cents to dollars: [n / 100] on Numbers, for an integer [n]. *)
Lemma cents_to_dollars (p : positive) :
  Z.pos p < 2 ^ 48 ->
  exists m e,
    div (of_Z (Z.pos p)) (of_Z 100) = S754_finite false m e /\
    bits m = 53 /\ -60 <= e <= -1 /\
    Z.abs (100 * Z.pos m - Z.pos p * 2 ^ (- e)) <= 300.
Proof.
  intros Hp. pose proof (bits_pos p) as Hb1.
  pose proof (bits_below p 48 Hp) as Hb48.
  pose proof (bits_spec p) as [Hlo Hhi].
  rewrite (of_Z_exact p) by lia.
  change (of_Z 100) with (S754_finite false 7036874417766400 (-46)).
  assert (Hpow : 0 < 2 ^ (53 - bits p)) by (apply Z.pow_pos_nonneg; lia).
  set (m1 := Z.to_pos (Z.pos p * 2 ^ (53 - bits p))).
  assert (Hm1 : Z.pos m1 = Z.pos p * 2 ^ (53 - bits p)) by (unfold m1; lia).
  assert (Hbm1 : bits m1 = 53).
  { apply bits_unique. rewrite Hm1.
    assert (H52 : 2 ^ (53 - 1) = 2 ^ (bits p - 1) * 2 ^ (53 - bits p))
      by (rewrite <- Z.pow_add_r by lia; f_equal; lia).
    assert (H53 : 2 ^ 53 = 2 ^ bits p * 2 ^ (53 - bits p))
      by (rewrite <- Z.pow_add_r by lia; f_equal; lia).
    rewrite H52, H53. nia. }
  unfold div, SFdiv, SFdiv_core_binary. cbn [xorb]. rewrite Zdigits2_bits, Hbm1.
  change (Zdigits2 7036874417766400) with 53.
  assert (He' : Z.min (fexp prec emax (53 + (bits p - 53) - (53 + -46)))
                  (bits p - 53 - -46) = bits p - 60).
  { unfold fexp, emin, prec, emax. lia. }
  cbv zeta. rewrite He'.
  replace (bits p - 53 - -46 - (bits p - 60)) with 53 by lia.
  cbv iota. rewrite Z.shiftl_mul_pow2 by lia.
  pose proof (Z.div_eucl_eq (Z.pos m1 * 2 ^ 53) 7036874417766400 ltac:(lia)) as Hde.
  pose proof (Z.mod_pos_bound (Z.pos m1 * 2 ^ 53) 7036874417766400 ltac:(lia)) as Hrem.
  unfold Z.modulo in Hrem.
  destruct (Z.div_eucl (Z.pos m1 * 2 ^ 53) 7036874417766400) as [q r].
  apply round_quotient; [exact Hp|].
  assert (Hsc : Z.pos m1 * 2 ^ 53 = Z.pos p * 2 ^ (60 - bits p) * 70368744177664).
  { rewrite Hm1. change 70368744177664 with (2 ^ 46).
    rewrite <- !Z.mul_assoc, <- !Z.pow_add_r by lia. do 2 f_equal. lia. }
  rewrite Hsc in Hde. lia.
Qed.

(** Dollars to cents: [Math.round] of 100 times [n / 100] is [n]. *)
Lemma Math_round_dollars (p : positive) :
  Z.pos p < 2 ^ 48 ->
  Math_round (mul (div (of_Z (Z.pos p)) (of_Z 100)) (of_Z 100)) = Int (Z.pos p).
Proof.
  intros Hp. destruct (cents_to_dollars p Hp) as (m & e & Hx & Hbm & He & Habs).
  rewrite Hx. now apply Math_round_hundred_times.
Qed.

(** ** FUNCTION 1: the bounds of the page *)

(** Every positive integer is at least 1 as a Number, however large. *)
Lemma one_le_of_Z (p : positive) : number_le (of_Z 1) (of_Z (Z.pos p)) = true.
Proof.
  unfold number_le, SFleb.
  destruct (Z_le_gt_dec (bits p) 53) as [Hs|Hl].
  - rewrite (of_Z_compare 1 p) by (try exact Hs; vm_compute; discriminate).
    destruct (Z.compare_spec 1 (Z.pos p)); try reflexivity. lia.
  - unfold of_Z at 2. unfold binary_normalize, binary_round.
    rewrite digits2_pos_log2. fold (bits p).
    assert (Hf : fexp prec emax (bits p + 0) = bits p - 53).
    { unfold fexp, emin, prec, emax. lia. }
    rewrite Hf. unfold shl_align.
    destruct (bits p - 53 - 0) as [|k|k] eqn:Hk; try lia.
    destruct (binary_round_aux_rounded p 0 loc_Exact) as (m' & e' & Hr & _ & He & _).
    + lia.
    + unfold emin, prec, emax. lia.
    + rewrite Hr. destruct (e' <=? emax - prec); [|reflexivity].
      change (of_Z 1) with (S754_finite false 4503599627370496 (-52)).
      cbn [SFcompare].
      replace (-52 ?= e') with Lt; [reflexivity|].
      symmetry. apply Z.compare_lt_iff. lia.
Qed.

Lemma read_radix_nonneg (radix : Z) (s : string) (acc : option Z) (n : Z) :
  0 <= radix -> 0 <= default 0 acc ->
  read_radix radix s acc = Some n -> 0 <= n.
Proof.
  intros Hr. revert acc. induction s as [|c s IH]; intros acc Hacc; simpl.
  - intros ->. exact Hacc.
  - unfold digit_value. destruct (hex_value c) as [d|]; [|intros ->; exact Hacc].
    destruct (Z.of_nat d <? radix); [|intros ->; exact Hacc].
    apply IH. simpl. nia.
Qed.

(** What [parseInt] returns: [NaN], a zero, a positive integer, or the
    Number nearest to a negative integer. *)
Lemma parseInt_shape (arg : option string) :
  parseInt arg = S754_nan \/
  (exists s, parseInt arg = S754_zero s) \/
  (exists p, parseInt arg = of_Z (Z.pos p)) \/
  (exists p, parseInt arg = binary_normalize prec emax (Z.neg p) 0 true).
Proof.
  unfold parseInt.
  destruct (match trim_start (default "undefined" arg) with
            | EmptyString => _ | String _ _ => _ end) as [neg s1].
  match goal with
  | |- context [let '(_, _) := ?x in _] =>
      assert (Hradix : 0 <= fst x) by (repeat case_match; simpl; lia);
      destruct x as [radix s2]
  end.
  simpl in Hradix.
  destruct (read_radix radix s2 None) as [n|] eqn:Hn; [|left; reflexivity].
  apply read_radix_nonneg in Hn; [|exact Hradix|simpl; lia].
  destruct n as [|p|p]; [right; left; eauto| |lia].
  destruct neg; right; right; [right|left]; exists p; reflexivity.
Qed.

(** A value that [parseInt] does not read as a negative number is replaced
    by the default or is at least 1. *)
Lemma number_or_parseInt (arg : option string) (d : number) :
  number_le (of_Z 1) d = true ->
  SFltb (parseInt arg) (of_Z 0) = false ->
  number_le (of_Z 1) (number_or (parseInt arg) d) = true.
Proof.
  intros Hd Hneg. unfold number_or.
  destruct (parseInt_shape arg) as [Hr|[[s Hr]|[[p Hr]|[p Hr]]]]; rewrite Hr in *.
  - exact Hd.
  - exact Hd.
  - rewrite (one_le_truthy _ (one_le_of_Z p)). apply one_le_of_Z.
  - unfold binary_normalize, binary_round in *.
    destruct (shl_align _ _ _) as [mz ez].
    pose proof (binary_round_aux_sign true (Z.pos mz) ez loc_Exact) as Hs.
    destruct (binary_round_aux prec emax true (Z.pos mz) ez loc_Exact)
      as [s|s| |s m e]; try exact Hd; subst s; discriminate Hneg.
Qed.

(** A value that [parseInt] reads as a negative number is kept. *)
Lemma number_or_negative (x d : number) :
  SFltb x (of_Z 0) = true -> number_or x d = x.
Proof.
  unfold number_or. destruct x as [s|s| |s m e]; try discriminate; reflexivity.
Qed.

(** C8, as the code has it.  The page number sent upstream is 1 when the
    query has none, and it is at least 1 unless the supplied value is read
    by [parseInt] as a negative number, which is sent as it is.  The page
    size is 24 when the query has none, is never above 100, a larger value
    being replaced by 100 and not refused, and it is at least 1 unless the
    supplied value is read as a negative number, which is sent as it is.
    These are the values of the search call that a GET request issues once
    a token is cached. *)
Theorem searchProducts_paging (q : gmap string string) :
  (q !! "pageNumber" = None -> pageNumber (search_opts q) = of_Z 1) /\
  (q !! "pageSize" = None -> pageSize (search_opts q) = of_Z 24) /\
  number_le (pageSize (search_opts q)) (of_Z 100) = true /\
  (Num.truthy (parseInt (q !! "pageSize")) = true ->
   SFltb (parseInt (q !! "pageSize")) (of_Z 100) = false ->
   pageSize (search_opts q) = of_Z 100) /\
  (SFltb (parseInt (q !! "pageNumber")) (of_Z 0) = false ->
   number_le (of_Z 1) (pageNumber (search_opts q)) = true) /\
  (SFltb (parseInt (q !! "pageSize")) (of_Z 0) = false ->
   number_le (of_Z 1) (pageSize (search_opts q)) = true) /\
  (SFltb (parseInt (q !! "pageNumber")) (of_Z 0) = true ->
   pageNumber (search_opts q) = parseInt (q !! "pageNumber")) /\
  (SFltb (parseInt (q !! "pageSize")) (of_Z 0) = true ->
   pageSize (search_opts q) = parseInt (q !! "pageSize")) /\
  (forall (B : Type) (env : Env) (req : Request B) (now : Z) (w : World),
     query req = q -> method req = "GET" -> cache_valid (mem w) now = true ->
     exists w' p,
       exec (searchProducts env req) now [] w = (w', p) /\
       finished p = false /\
       last (calls w') =
         Some (CallSearch (IM_CUSTOMER_NUM env) (IM_COUNTRY_CODE env)
                 ("pandishu-search-" +:+ pretty now) (search_opts q))).
Proof.
  unfold search_opts. cbn [pageNumber pageSize].
  split; [intros ->; reflexivity|].
  split; [intros ->; reflexivity|].
  split; [apply Math_min_le; [now apply number_or_truthy | reflexivity]|].
  split.
  { intros Ht Hlt. unfold number_or. rewrite Ht.
    apply Math_min_clamp; [assumption..|discriminate]. }
  split; [apply number_or_parseInt; reflexivity|].
  split.
  { intros H. apply Math_min_ge; [|reflexivity].
    apply number_or_parseInt; [reflexivity|exact H]. }
  split; [apply number_or_negative|].
  split.
  { intros H. rewrite (number_or_negative _ _ H).
    destruct (parseInt (q !! "pageSize")) as [s|s| |s m e]; try discriminate H;
      destruct s; try discriminate H; reflexivity. }
  intros B env req now w Hq Hm Hv.
  unfold exec, searchProducts, cors. rewrite Hm. simpl.
  unfold getApiClient, getAccessToken. simpl. rewrite Hv. simpl.
  do 2 eexists. split; [reflexivity|]. split; [reflexivity|].
  simpl. rewrite Hq. apply last_snoc.
Qed.

Lemma searchProducts_paging_witness :
  pageNumber (search_opts ∅) = of_Z 1 /\
  pageSize (search_opts ∅) = of_Z 24 /\
  pageSize (search_opts {[ "pageSize" := "500" ]}) = of_Z 100 /\
  number_le (of_Z 1) (pageNumber (search_opts {[ "pageNumber" := "abc" ]})) = true /\
  number_le (of_Z 1) (pageSize (search_opts {[ "pageSize" := "0.9" ]})) = true /\
  pageNumber (search_opts {[ "pageNumber" := "-5" ]}) = of_Z (-5).
Proof.
  destruct (searchProducts_paging ∅) as (Hn & Hs & _).
  destruct (searchProducts_paging {[ "pageSize" := "500" ]}) as (_ & _ & _ & Hc & _).
  destruct (searchProducts_paging {[ "pageNumber" := "abc" ]})
    as (_ & _ & _ & _ & Hp & _).
  destruct (searchProducts_paging {[ "pageSize" := "0.9" ]})
    as (_ & _ & _ & _ & _ & Hz & _).
  destruct (searchProducts_paging {[ "pageNumber" := "-5" ]})
    as (_ & _ & _ & _ & _ & _ & Hneg & _).
  split; [apply Hn; reflexivity|].
  split; [apply Hs; reflexivity|].
  split; [apply Hc; reflexivity|].
  split; [apply Hp; reflexivity|].
  split; [apply Hz; reflexivity|].
  rewrite Hneg; reflexivity.
Defined.

(** C8 as stated fails: a GET request with [pageNumber=-5] and [pageSize=-3]
    sends a search upstream whose page number and page size are below 1. *)
Lemma searchProducts_negative_page :
  exists w' p opts,
    exec (searchProducts Examples.env0
            (Examples.request "GET" [("pageNumber", "-5"); ("pageSize", "-3")] [] tt))
         1000 [(2000, Examples.token "T1" 3600)] Examples.w0 = (w', p) /\
    last (calls w') = Some (CallSearch "SBX" "MX" "pandishu-search-2000" opts) /\
    pageNumber opts = of_Z (-5) /\
    pageSize opts = of_Z (-3) /\
    number_le (of_Z 1) (pageNumber opts) = false /\
    number_le (of_Z 1) (pageSize opts) = false.
Proof.
  do 3 eexists. split; [vm_compute; reflexivity|]. repeat split.
Qed.

(** ** FUNCTION 4 and FUNCTION 5: cents and dollars *)

(** X18. Cents are exact.  For a price that is the Number nearest to
    [k / 100], which is what a price written with two decimals denotes, the
    amount sent to the payment processor is exactly [k], for every [k]
    below 2^48: the rounding errors of the price and of the product by 100
    never reach half a cent. *)
Theorem createCheckoutSession_exact_cents (item : CartItem.t) (k : N) :
  Z.of_N k < 2 ^ 48 ->
  CartItem.price item = decimal_to_double false k (-2) ->
  unit_amount (line_item item) = Int (Z.of_N k).
Proof.
  intros Hk Hprice. unfold line_item. cbn [unit_amount]. rewrite Hprice.
  destruct k as [|p]; [reflexivity|].
  now apply Math_round_cents.
Qed.

Lemma createCheckoutSession_exact_cents_witness :
  Examples.literal "1.15" = decimal_to_double false 115 (-2) /\
  unit_amount
    (line_item {| CartItem.sku := "A1"; CartItem.name := "Widget";
                  CartItem.vendor := "Acme";
                  CartItem.price := Examples.literal "1.15";
                  CartItem.quantity := Examples.literal "2" |}) = Int 115.
Proof.
  split; [reflexivity|].
  apply (createCheckoutSession_exact_cents _ 115); reflexivity.
Defined.

(** X19. Dollars give back the cents.  The Order written for a completed
    session whose total is [cents] (an integer below 2^48) holds
    [cents / 100] as a Number, and 100 times that Number rounds to [cents]
    again: nothing is lost by keeping the amount in dollars. *)
Theorem stripeWebhook_amount_roundtrip
  {B : Type} (env : Env)
  (constructEvent : string -> option string -> option string -> JsError + StripeEvent)
  (req : Request B) (ev : StripeEvent) (parsed : jsvalue) (cents : N)
  (now now1 : Z) (docid : string) (w : World) :
  truthy_opt (STRIPE_SECRET_KEY env) = true ->
  verdict env constructEvent req = inr ev ->
  type ev = "checkout.session.completed" ->
  parse_items (metadata (data_object ev)) = inr parsed ->
  amount_total (data_object ev) = of_Z (Z.of_N cents) ->
  Z.of_N cents < 2 ^ 48 ->
  exists w' order,
    exec (stripeWebhook env constructEvent req) now [(now1, AddReply (inr docid))] w
      = (w', Ret acknowledged) /\
    collection w' "orders" = collection w "orders" ++ [OrderDoc order] /\
    amountTotal order = div (of_Z (Z.of_N cents)) (of_Z 100) /\
    Math_round (mul (amountTotal order) (of_Z 100)) = Int (Z.of_N cents).
Proof.
  intros Hk Hv Ht Hp Ha Hc.
  unfold exec, stripeWebhook, getStripe. rewrite Hk. simpl.
  rewrite Hv, Ht. simpl. rewrite Hp. simpl.
  do 2 eexists. split; [reflexivity|].
  split; [unfold collection; simpl; now rewrite lookup_insert_eq|].
  unfold order_of_session. cbn [amountTotal]. rewrite Ha. split; [reflexivity|].
  destruct cents as [|p]; [reflexivity|].
  now apply Math_round_dollars.
Qed.

Lemma stripeWebhook_amount_roundtrip_witness :
  exists w' order,
    exec (stripeWebhook Examples.env0 (Examples.verifier Examples.completed)
            Examples.signed_delivery)
         5000 [(5100, AddReply (inr "doc1"))] Examples.w0 = (w', Ret acknowledged) /\
    collection w' "orders" = [OrderDoc order] /\
    amountTotal order = of_Z 40 /\
    Math_round (mul (amountTotal order) (of_Z 100)) = Int 4000.
Proof.
  destruct (stripeWebhook_amount_roundtrip Examples.env0
              (Examples.verifier Examples.completed) Examples.signed_delivery
              Examples.completed
              (JArr [compact_item Examples.widget]) 4000 5000 5100 "doc1" Examples.w0)
    as (w' & order & Hexec & Horders & Hamount & Hround);
    [reflexivity | reflexivity | reflexivity | vm_compute; reflexivity
    | reflexivity | reflexivity |].
  exists w', order. split; [exact Hexec|]. split; [exact Horders|].
  split; [rewrite Hamount; reflexivity | exact Hround].
Defined.

(** ** From the checkout to the order: the customer and the address *)

Lemma checkout_metadata_lookup (c : Customer.t) (a : Address.t)
  (items : list CartItem.t) :
  let md := checkout_metadata c a items in
  md !! "customer_name" = Some (Customer.name c) /\
  md !! "customer_email" = Some (Customer.email c) /\
  md !! "customer_phone" = Some (Customer.phone c) /\
  md !! "shipping_street" = Some (Address.street a) /\
  md !! "shipping_colonia" = Some (Address.colonia a) /\
  md !! "shipping_zip" = Some (Address.zip a) /\
  md !! "shipping_city" = Some (Address.city a) /\
  md !! "shipping_state" = Some (Address.state a) /\
  md !! "shipping_notes" = Some (or_default (Address.notes a) EmptyString).
Proof.
  unfold checkout_metadata. cbv zeta.
  repeat split;
    repeat first [ apply lookup_insert_eq
                 | rewrite lookup_insert_ne by discriminate ].
Qed.

(** X20. From the checkout to the order.  The customer and the address
    that [createCheckoutSession] puts in the session metadata are the ones
    [stripeWebhook] writes in the Order when the session completes: name,
    email, phone, street, colonia, zip, city and state as given, the notes
    as given or empty when absent; the Order also carries the identifier
    and the payment intent of the session. *)
Theorem checkout_customer_roundtrip
  (env : Env)
  (constructEvent : string -> option string -> option string -> JsError + StripeEvent)
  (req : Request CheckoutBody) (items : list CartItem.t)
  (c : Customer.t) (a : Address.t) (now : Z) (w : World) :
  method req = "POST" ->
  truthy_opt (STRIPE_SECRET_KEY env) = true ->
  body_items (body req) = Some items -> items <> [] ->
  body_customer (body req) = Some c -> Customer.address c = Some a ->
  Forall valid_item items ->
  exists w1 p params,
    session_params items (Some c) = inr params /\
    exec (createCheckoutSession env req) now [] w = (w1, p) /\
    calls w1 = calls w ++ [CallSession params] /\
    forall (B : Type) (req' : Request B) (ev : StripeEvent)
           (now' now1 : Z) (docid : string) (w2 : World),
      verdict env constructEvent req' = inr ev ->
      type ev = "checkout.session.completed" ->
      metadata (data_object ev) = params_metadata params ->
      exists w3 order,
        exec (stripeWebhook env constructEvent req') now'
             [(now1, AddReply (inr docid))] w2 = (w3, Ret acknowledged) /\
        collection w3 "orders" = collection w2 "orders" ++ [OrderDoc order] /\
        stripeSessionId order = id (data_object ev) /\
        paymentIntentId order = payment_intent (data_object ev) /\
        customerInfo order =
          {| info_name := Some (Customer.name c);
             info_email := Some (Customer.email c);
             info_phone := Some (Customer.phone c) |} /\
        shippingAddress order =
          {| ship_street := Some (Address.street a);
             ship_colonia := Some (Address.colonia a);
             ship_zip := Some (Address.zip a);
             ship_city := Some (Address.city a);
             ship_state := Some (Address.state a);
             ship_notes := Some (or_default (Address.notes a) EmptyString) |}.
Proof.
  intros Hm Hk Hi Hne Hc Ha Hall.
  unfold exec, createCheckoutSession, cors, getStripe. rewrite Hm, Hk. simpl.
  rewrite Hi. destruct items as [|i items]; [done|]. clear Hne.
  rewrite Hc. simpl. rewrite Ha. simpl.
  do 3 eexists. split; [reflexivity|]. split; [reflexivity|].
  split; [reflexivity|].
  intros B req' ev now' now1 docid w2 Hv Ht Hmd. simpl in Hmd.
  unfold stripeWebhook, getStripe. rewrite Hk. simpl.
  rewrite Hv, Ht. simpl. rewrite Hmd.
  rewrite (parse_items_checkout_metadata c a (i :: items) Hall). simpl.
  do 2 eexists. split; [reflexivity|].
  split; [unfold collection; simpl; now rewrite lookup_insert_eq|].
  split; [reflexivity|]. split; [reflexivity|].
  unfold order_of_session. cbn [customerInfo shippingAddress]. rewrite Hmd.
  destruct (checkout_metadata_lookup c a (i :: items))
    as (H1 & H2 & H3 & H4 & H5 & H6 & H7 & H8 & H9).
  rewrite H1, H2, H3, H4, H5, H6, H7, H8, H9. split; reflexivity.
Qed.

Lemma checkout_customer_roundtrip_witness :
  exists w3 order,
    exec (stripeWebhook Examples.env0 (Examples.verifier Examples.completed)
            Examples.signed_delivery)
         5000 [(5100, AddReply (inr "doc1"))] Examples.w0 = (w3, Ret acknowledged) /\
    collection w3 "orders" = [OrderDoc order] /\
    info_name (customerInfo order) = Some "Ana" /\
    ship_zip (shippingAddress order) = Some "06000" /\
    ship_notes (shippingAddress order) = Some EmptyString.
Proof.
  destruct (checkout_customer_roundtrip Examples.env0
              (Examples.verifier Examples.completed)
              (Examples.request "POST" [] [] Examples.cart)
              [Examples.widget] Examples.ana Examples.home 1000 Examples.w0)
    as (w1 & p & params & Hparams & _ & _ & Hhook);
    [reflexivity | reflexivity | reflexivity | discriminate
    | reflexivity | reflexivity
    | repeat constructor; vm_compute; reflexivity |].
  injection Hparams as <-.
  destruct (Hhook unit Examples.signed_delivery Examples.completed
              5000 5100 "doc1" Examples.w0)
    as (w3 & order & Hrun & Horders & _ & _ & Hinfo & Hship);
    [reflexivity | reflexivity | reflexivity |].
  exists w3, order. split; [exact Hrun|]. split; [exact Horders|].
  rewrite Hinfo, Hship. repeat split.
Defined.

(** ** FUNCTION 5: what the payment webhook never does *)

(** X21. What the payment webhook never does.  Whatever the request and
    whatever replies come back, either [stripeWebhook] issues no call and
    leaves the store as it was, or the key is configured, the signature has
    verified, the event is a completion event whose item list parses, the
    only call issued is the write of that session's Order, and the store
    holds at most this one more document, in [orders].  It never creates a
    payment session and never touches the cached token. *)
Theorem stripeWebhook_writes_only_verified_orders
  {B : Type} (env : Env)
  (constructEvent : string -> option string -> option string -> JsError + StripeEvent)
  (req : Request B) (now : Z) (script : list (Z * answer)) (w : World) :
  let w' := fst (exec (stripeWebhook env constructEvent req) now script w) in
  stripe_sessions w' = stripe_sessions w /\
  cachedToken (mem w') = cachedToken (mem w) /\
  ((calls w' = calls w /\ firestore w' = firestore w) \/
   (truthy_opt (STRIPE_SECRET_KEY env) = true /\
    exists ev parsed,
      verdict env constructEvent req = inr ev /\
      type ev = "checkout.session.completed" /\
      parse_items (metadata (data_object ev)) = inr parsed /\
      let order := OrderDoc (order_of_session (data_object ev) parsed) in
      calls w' = calls w ++ [CallAdd "orders" order] /\
      (firestore w' = firestore w \/
       firestore w' =
         <["orders" := collection w "orders" ++ [order]]> (firestore w)))).
Proof.
  unfold exec, stripeWebhook, getStripe.
  destruct (truthy_opt (STRIPE_SECRET_KEY env)) eqn:Hk; simpl.
  2:{ rewrite replay_ret. simpl. auto. }
  destruct (verdict env constructEvent req) as [err|ev] eqn:Hv; simpl.
  { rewrite replay_ret. simpl. auto. }
  destruct (String.eqb (type ev) "checkout.session.completed") eqn:Ht; simpl.
  2:{ rewrite replay_ret. simpl. auto. }
  apply String.eqb_eq in Ht.
  destruct (parse_items (metadata (data_object ev))) as [pe|parsed] eqn:Hp; simpl.
  { rewrite replay_ret. simpl. auto. }
  destruct script as [|[t [r|r|[e|docid]|r]] rest]; simpl; rewrite ?replay_ret; simpl.
  all: split; [reflexivity|]; split; [reflexivity|]; right;
    split; [reflexivity|]; exists ev, parsed; cbv zeta;
    repeat (split; [first [reflexivity | assumption]|]);
    first [left; reflexivity | right; reflexivity].
Qed.

(** ** FUNCTION 4: what a checkout never does *)

(** X22. What a checkout never does.  Whatever the request and whatever
    replies come back, [createCheckoutSession] never writes to the store
    (an Order exists only once the payment webhook has run) and never
    touches the cached token; the only call it can issue is the session
    request for the items and the customer of its body. *)
Theorem createCheckoutSession_never_writes
  (env : Env) (req : Request CheckoutBody) (now : Z)
  (script : list (Z * answer)) (w : World) :
  let w' := fst (exec (createCheckoutSession env req) now script w) in
  firestore w' = firestore w /\
  cachedToken (mem w') = cachedToken (mem w) /\
  (calls w' = calls w \/
   exists items c params,
     body_items (body req) = Some items /\
     body_customer (body req) = Some c /\
     session_params items (Some c) = inr params /\
     calls w' = calls w ++ [CallSession params]).
Proof.
  unfold exec, createCheckoutSession, cors, getStripe.
  destruct (String.eqb (method req) "OPTIONS"); simpl.
  { rewrite replay_ret. simpl. auto. }
  destruct (negb (String.eqb (method req) "POST")); simpl.
  { rewrite replay_ret. simpl. auto. }
  destruct (truthy_opt (STRIPE_SECRET_KEY env)); simpl.
  2:{ rewrite replay_ret. simpl. auto. }
  destruct (body_items (body req)) as [[|i items]|] eqn:Hi; simpl;
    try (rewrite replay_ret; simpl; auto).
  destruct (body_customer (body req)) as [c|] eqn:Hc; simpl;
    [|rewrite replay_ret; simpl; auto].
  destruct (Customer.address c) as [a|] eqn:Ha; simpl;
    [|rewrite replay_ret; simpl; auto].
  destruct script as [|[t [r|r|r|[e|session]]] rest]; simpl; rewrite ?replay_ret; simpl.
  all: split; [reflexivity|]; split; [reflexivity|]; right;
    exists (i :: items), c; eexists;
    split; [reflexivity|]; split; [reflexivity|]; simpl; rewrite Ha;
    split; reflexivity.
Qed.

(** ** The token cache across functions *)

(** X23. The two catalog functions share one token.  With the client id
    and secret configured, after a price and availability request (1 to 50
    skus that the SDK can write as strings) that found no valid token and
    exchanged credentials for a token that is not empty, a catalog search
    that starts less than 55 minutes after the reply to that exchange issues
    the search alone, without a second exchange, and the shared client
    carries the token of the exchange. *)
Theorem catalog_functions_share_token
  {B : Type} (env : Env) (req1 : Request jsvalue) (req2 : Request B)
  (l products : list jsvalue) (data : TokenData) (r : JsError + jsvalue)
  (now now1 now2 now3 : Z) (w : World) :
  credentials_set env = true ->
  method req1 = "POST" ->
  get_prop (body req1) "skus" = inr (JArr l) ->
  (1 <= length l <= 50)%nat ->
  request_products l = inr products ->
  method req2 = "GET" ->
  cache_valid (mem w) now = false ->
  access_token data <> EmptyString ->
  now3 < now1 + 55 * 60 * 1000 ->
  exists w1 resp w2 p,
    exec (getPriceAndAvailability env req1) now
         [(now1, TokenReply (inr data)); (now2, CatalogReply r)] w = (w1, Ret resp) /\
    calls w1 = calls w ++
      [CallToken "client_credentials" (IM_CLIENT_ID env) (IM_CLIENT_SECRET env);
       CallPriceAvail (IM_CUSTOMER_NUM env) (IM_COUNTRY_CODE env)
         ("pandishu-pa-" +:+ pretty now1) products] /\
    exec (searchProducts env req2) now3 [] w1 = (w2, p) /\
    finished p = false /\
    calls w2 = calls w1 ++
      [CallSearch (IM_CUSTOMER_NUM env) (IM_COUNTRY_CODE env)
         ("pandishu-search-" +:+ pretty now3) (search_opts (query req2))] /\
    accessToken <$> apiClient (mem w2) = Some (access_token data).
Proof.
  intros Hcred Hm1 Hs Hlen Hp Hm2 Hv Hne Hlt.
  apply (destructure_get_prop _ _ _ "req.body") in Hs.
  assert (Htr : truthy_string (access_token data) = true)
    by (destruct (access_token data); [contradiction|reflexivity]).
  assert (Hb : (now3 <? now1 + 55 * 60 * 1000) = true) by (apply Z.ltb_lt; exact Hlt).
  assert (Hstart : getPriceAndAvailability env req1 =
    try_catch
      (getApiClient env;;
       products ← settle (request_products l);
       now ← date_now;
       let correlationId := "pandishu-pa-" +:+ pretty now in
       r ← AwaitPriceAvail (IM_CUSTOMER_NUM env) (IM_COUNTRY_CODE env) correlationId
             products settle;
       respond 200 (Json r))
      (fun err =>
         log LogError ("getPriceAndAvailability error: " +:+ error_text err);;
         respond 500 (json_error (message_or err "Internal error")))).
  { unfold getPriceAndAvailability, cors. rewrite Hm1. simpl. rewrite Hs. simpl.
    destruct l as [|s l]; [simpl in Hlen; lia|].
    destruct (50 <? length (s :: l))%nat eqn:Hlong; [|reflexivity].
    apply Nat.ltb_lt in Hlong. lia. }
  rewrite Hstart. clear Hstart. unfold exec at 1.
  unfold getApiClient, getAccessToken, getAccesstoken. simpl. rewrite Hv.
  with_credentials Hcred. simpl. rewrite Hp. simpl.
  destruct r as [err|res]; simpl.
  all: do 4 eexists; (split; [reflexivity|]); simpl.
  all: split; [now rewrite <- app_assoc|].
  all: unfold exec, searchProducts, cors; rewrite Hm2; simpl.
  all: unfold getApiClient, getAccessToken; simpl.
  all: unfold cache_valid; simpl; rewrite Htr, Hb; simpl.
  all: split; [reflexivity|]; split; [reflexivity|]; split; reflexivity.
Qed.

Lemma catalog_functions_share_token_witness :
  exists w1 resp w2 p,
    exec (getPriceAndAvailability Examples.env0
            (Examples.request "POST" [] [] (JObj [("skus", JArr [JStr "A1"])])))
         1000 [(2000, Examples.token "T1" 3600); (3000, CatalogReply (inr (JArr [])))]
         Examples.w0 = (w1, Ret resp) /\
    exec (searchProducts Examples.env0
            (Examples.request "GET" [("keyword", "laptop")] [] tt))
         4000 [] w1 = (w2, p) /\
    token_calls (calls w2) = 1%nat /\ length (calls w2) = 3%nat.
Proof.
  destruct (catalog_functions_share_token Examples.env0
              (Examples.request "POST" [] [] (JObj [("skus", JArr [JStr "A1"])]))
              (Examples.request "GET" [("keyword", "laptop")] [] tt)
              [JStr "A1"] [JObj [("ingramPartNumber", JStr "A1")]]
              {| access_token := "T1"; expires_in := 3600 |}
              (inr (JArr [])) 1000 2000 3000 4000 Examples.w0)
    as (w1 & resp & w2 & p & Hrun1 & Hcalls1 & Hrun2 & _ & Hcalls2 & _);
    [reflexivity | reflexivity | reflexivity | simpl; lia | reflexivity
    | reflexivity | reflexivity | discriminate | reflexivity |].
  exists w1, resp, w2, p. split; [exact Hrun1|]. split; [exact Hrun2|].
  rewrite Hcalls2, Hcalls1. split; reflexivity.
Defined.

(** ** FUNCTION 3: what the distributor webhook never does *)

(** X24. What the distributor webhook never does.  Whatever the request
    and whatever replies come back, [ingramWebhook] never creates a payment
    session, never touches the cached token and never changes a collection
    other than [ingram_events]; it issues no call at all, or the single
    add of one event document that holds the request body, and at most that
    one document is added. *)
Theorem ingramWebhook_writes_only_events
  (env : Env) (req : Request jsvalue) (now : Z) (script : list (Z * answer))
  (w : World) :
  let w' := fst (exec (ingramWebhook env req) now script w) in
  stripe_sessions w' = stripe_sessions w /\
  cachedToken (mem w') = cachedToken (mem w) /\
  (forall c, c <> "ingram_events" -> collection w' c = collection w c) /\
  (calls w' = calls w /\ firestore w' = firestore w \/
   exists kind,
     let doc := EventDoc {| eventType := kind; rawPayload := body req |} in
     calls w' = calls w ++ [CallAdd "ingram_events" doc] /\
     (firestore w' = firestore w \/
      collection w' "ingram_events" = collection w "ingram_events" ++ [doc])).
Proof.
  unfold exec, ingramWebhook.
  destruct (negb (String.eqb (method req) "POST")); simpl.
  { rewrite replay_ret. simpl. auto 8. }
  destruct (signature_mismatch env _); simpl.
  all: destruct (get_prop (body req) "topic") as [e1|topic] eqn:Ht; simpl;
    [rewrite replay_ret; simpl; auto 8|].
  all: destruct (truthy topic); simpl.
  all: try (destruct (get_prop (body req) "eventType") as [e2|kind] eqn:Hk; simpl;
            [rewrite replay_ret; simpl; auto 8|]).
  all: destruct script as [|[t [r|r|[e|docid]|r]] rest]; simpl; rewrite ?replay_ret; simpl.
  all: split; [reflexivity|]; split; [reflexivity|].
  all: split;
    [intros c Hc; first [reflexivity | rewrite collection_add_ne by congruence; reflexivity]|].
  all: right; eexists; cbv zeta; split; [reflexivity|].
  all: first [left; reflexivity | right; rewrite collection_add; reflexivity].
Qed.

(** ** Concurrent deliveries of different completion events *)

Lemma answered_orders_update {A : Type}
  (P : A -> Order -> bool * proc Response -> Prop) hs os ts :
  Forall3 P hs os ts ->
  forall i t, ts !! i = Some t ->
  exists h o, P h o t /\
    forall t', P h o t' ->
      Forall3 P hs os (<[i := t']> ts) /\
      (finished (snd t') = finished (snd t) ->
       answered_orders os (<[i := t']> ts) = answered_orders os ts) /\
      (finished (snd t) = false -> finished (snd t') = true ->
       Permutation (answered_orders os (<[i := t']> ts))
         (OrderDoc o :: answered_orders os ts)).
Proof.
  induction 1 as [|h o t0 hs os ts Hp Hall IH]; intros i t Hi; [discriminate|].
  destruct i as [|i]; simpl in Hi.
  - injection Hi as ->. exists h, o. split; [exact Hp|]. intros t' Hp'.
    split; [constructor; assumption|]. split; simpl.
    + intros ->. reflexivity.
    + intros -> ->. reflexivity.
  - destruct (IH i t Hi) as (h' & o' & Hp' & Hupd).
    exists h', o'. split; [exact Hp'|]. intros t' Ht'.
    destruct (Hupd t' Ht') as (Hall' & Hsame & Hnew).
    split; [constructor; assumption|]. split; simpl.
    + intros Hf. rewrite (Hsame Hf). reflexivity.
    + intros Hf Hf'. rewrite (Hnew Hf Hf').
      destruct (finished (snd t0)); simpl; [apply perm_swap|reflexivity].
Qed.

Lemma answered_orders_none hs os :
  Forall2 (fun h o => serves o h) hs os ->
  answered_orders os (map (fun p => (false, p)) hs) = [] /\
  Forall3 (fun h o t => serves o h /\ delivery_state h o t) hs os
    (map (fun p => (false, p)) hs).
Proof.
  induction 1 as [|h o hs os Hs _ [IH1 IH2]]; simpl.
  - split; [reflexivity|constructor].
  - rewrite (proj1 Hs), IH1. split; [reflexivity|].
    constructor; [|assumption]. split; [assumption|]. left. reflexivity.
Qed.

Lemma answered_orders_all hs os ts :
  Forall3 (fun h o t => serves o h /\ delivery_state h o t) hs os ts ->
  Forall (fun t => finished (snd t) = true) ts ->
  answered_orders os ts = map OrderDoc os /\
  Forall (fun t => snd t = Ret acknowledged) ts.
Proof.
  induction 1 as [|h o t hs os ts [Hs Hst] _ IH]; intros Hfin.
  - split; [reflexivity|constructor].
  - apply Forall_cons in Hfin as [Hf Hfin].
    destruct (IH Hfin) as [IH1 IH2]. simpl. rewrite Hf, IH1.
    split; [reflexivity|]. constructor; [|assumption].
    destruct Hst as [-> | [[_ (k & Hk & _)] | ->]]; simpl in *.
    + rewrite (proj1 Hs) in Hf. discriminate.
    + rewrite Hk in Hf. discriminate.
    + reflexivity.
Qed.

Lemma concurrent_step hs os (base : list document) (e : event) (s s' : Sched Response) :
  writes_succeed e -> concurrent_invariant hs os base s -> step e s = Some s' ->
  concurrent_invariant hs os base s'.
Proof.
  intros Hok [Hts (written & Hdb & Hperm)] Hs.
  apply step_inv in Hs as (i & flag & p & w' & p' & Hi & Hw & Ht & He).
  destruct (answered_orders_update _ _ _ _ Hts i _ Hi) as (h & o & [Hsv Hst] & Hupd).
  unfold concurrent_invariant. rewrite Ht, Hw.
  destruct e as [j now|j now a].
  - destruct He as (-> & -> & Hr).
    destruct Hst as [Hst|[[Hst _]|Hst]]; try discriminate.
    injection Hst as ->.
    destruct (proj2 Hsv now (world s)) as (m & q & Hq & Hwr).
    rewrite Hq in Hr. injection Hr as <- <-.
    destruct (Hupd (true, q)) as (Hall & Hsame & _).
    { split; [assumption|]. right; left. split; [reflexivity|exact Hwr]. }
    split; [exact Hall|]. exists written. split; [exact Hdb|].
    rewrite Hsame; [exact Hperm|].
    simpl. rewrite (proj1 Hsv). destruct Hwr as (k & -> & _). reflexivity.
  - destruct He as (-> & -> & w1 & p1 & Hd & Hr).
    destruct Hst as [Hst|[[_ Hst]|Hst]]; try discriminate.
    2:{ injection Hst as ->. discriminate. }
    simpl in Hst. destruct Hst as (k & -> & Hk).
    destruct a as [r|r|[err|docid]|r]; simpl in Hd; try discriminate.
    { contradiction. }
    injection Hd as <- <-.
    destruct (Hk docid now (add_document "orders" (OrderDoc o) (world s)))
      as (m & Hrun).
    rewrite Hrun in Hr. injection Hr as <- <-.
    destruct (Hupd (true, Ret acknowledged)) as (Hall & _ & Hnew).
    { split; [assumption|]. right; right. reflexivity. }
    split; [exact Hall|]. exists (written ++ [OrderDoc o]). split.
    + change (collection (set_mem m (add_document "orders" (OrderDoc o) (world s))) "orders")
        with (collection (add_document "orders" (OrderDoc o) (world s)) "orders").
      rewrite collection_add, Hdb, <- app_assoc. reflexivity.
    + rewrite Hnew by reflexivity.
      rewrite <- Hperm. symmetry. apply Permutation_cons_append.
Qed.

(** X25. Concurrent deliveries of different sessions.  When verified
    completion events of any sessions are delivered concurrently, in any
    interleaving, and every store write succeeds, then once all deliveries
    are answered the [orders] collection has grown by exactly one Order per
    delivery, the Order of its own session: what was appended is a
    permutation of the deliveries' Orders.  Every delivery was answered
    200. *)
Theorem stripeWebhook_concurrent_orders {B : Type}
  (env : Env)
  (constructEvent : string -> option string -> option string -> JsError + StripeEvent)
  (ds : list (Request B * (StripeEvent * jsvalue)))
  (w : World) (evs : list event) (st : Sched Response) :
  truthy_opt (STRIPE_SECRET_KEY env) = true ->
  Forall (fun d =>
            verdict env constructEvent (fst d) = inr (fst (snd d)) /\
            type (fst (snd d)) = "checkout.session.completed" /\
            parse_items (metadata (data_object (fst (snd d)))) = inr (snd (snd d))) ds ->
  Forall writes_succeed evs ->
  run evs (spawn w (map (fun d => stripeWebhook env constructEvent (fst d)) ds)) = Some st ->
  Forall (fun t => finished (snd t) = true) (tasks st) ->
  exists written,
    collection (world st) "orders" = collection w "orders" ++ written /\
    Permutation written
      (map (fun d => OrderDoc (order_of_session (data_object (fst (snd d))) (snd (snd d)))) ds) /\
    Forall (fun t => snd t = Ret acknowledged) (tasks st).
Proof.
  intros Hkey Hds Hok Hrun Hfin.
  set (hs := map (fun d => stripeWebhook env constructEvent (fst d)) ds) in *.
  set (os := map (fun d : Request B * (StripeEvent * jsvalue) =>
                    order_of_session (data_object (fst (snd d))) (snd (snd d))) ds).
  assert (Hsv : Forall2 (fun h o => serves o h) hs os).
  { subst hs os. clear Hrun. induction Hds as [|d ds (Hv & Hc & Hp) _ IH]; simpl; constructor.
    - split.
      + eapply handler_unfinished; eassumption.
      + intros now w0. eapply stripeWebhook_start; eassumption.
    - exact IH. }
  destruct (answered_orders_none _ _ Hsv) as [Hnone Hall].
  assert (Hinit : concurrent_invariant hs os (collection w "orders") (spawn w hs)).
  { split; [exact Hall|]. exists []. simpl. rewrite app_nil_r, Hnone.
    split; [reflexivity|constructor]. }
  pose proof (run_invariant (concurrent_invariant hs os (collection w "orders"))
                writes_succeed evs _ _
                (fun e s s' => concurrent_step hs os _ e s s') Hok Hinit Hrun)
    as [Hts (written & Hdb & Hperm)].
  destruct (answered_orders_all _ _ _ Hts Hfin) as [Hdone Hack].
  exists written. split; [exact Hdb|]. split; [|exact Hack].
  rewrite Hperm, Hdone. subst os. rewrite map_map. reflexivity.
Qed.

Lemma stripeWebhook_concurrent_orders_witness :
  exists st written,
    run [Start 0 1000; Start 1 1001; Resume 1 1500 (AddReply (inr "doc-b"));
         Resume 0 1700 (AddReply (inr "doc-a"))]
        (spawn Examples.w0
           [stripeWebhook Examples.env0 Examples.payload_verifier
              (Examples.signed_payload "evt_123");
            stripeWebhook Examples.env0 Examples.payload_verifier
              (Examples.signed_payload "evt_456")]) = Some st /\
    collection (world st) "orders" = written /\
    Permutation written
      [OrderDoc (order_of_session Examples.sess_123 (JArr [compact_item Examples.widget]));
       OrderDoc (order_of_session Examples.sess_456 (JArr [compact_item Examples.gadget]))] /\
    Forall (fun t => snd t = Ret acknowledged) (tasks st).
Proof.
  match goal with
  | |- exists st written, run ?evs ?s0 = _ /\ _ =>
      destruct (run evs s0) as [st|] eqn:Hrun;
        [|vm_compute in Hrun; discriminate Hrun]
  end.
  pose proof (fun Hds Hok Hfin =>
    stripeWebhook_concurrent_orders Examples.env0 Examples.payload_verifier
      [(Examples.signed_payload "evt_123",
        (Examples.completed, JArr [compact_item Examples.widget]));
       (Examples.signed_payload "evt_456",
        (Examples.completed_456, JArr [compact_item Examples.gadget]))]
      Examples.w0 _ st eq_refl Hds Hok Hrun Hfin) as Hthm.
  destruct Hthm as (written & Hdb & Hperm & Hresp).
  - repeat constructor; vm_compute; reflexivity.
  - repeat constructor.
  - vm_compute in Hrun. injection Hrun as <-. repeat constructor.
  - exists st, written. split; [reflexivity|].
    split; [exact Hdb|]. split; [exact Hperm | exact Hresp].
Defined.
